(** * Otimizacao_Voos: the genetic search engine of [conclave.py]

    A shallow embedding of the evolutionary engine ([AlgoritmoGenetico]):
    candidates, fitness, tournament selection, the five crossovers, the two
    mutators, the generational step and the driver with its two stopping
    rules.

    Modelling conventions.
    - Python floats ([preco], the weights, the rates, fitness values) are
      exact rationals [Q]; [float('-inf')] is a separate constructor.
    - A [datetime] is its count of seconds from a fixed origin, an integer
      [Z]; [(a - b).total_seconds() / 3600] is the rational [(a - b) / 3600].
    - Sizes and counters that the program only ever uses as non-negative
      integers ([tamanho_populacao], [geracoes_sem_melhoria_max],
      [max_geracoes]) are [nat].
    - The module [random] is an explicit source: an infinite tape of raw
      draws and a cursor.  Every primitive maps a raw draw onto its range of
      outcomes, so quantifying over tapes quantifies over all outcomes.
    - Python exceptions are results [Levanta e]; state changes made before a
      raise persist, as in Python.
    - Objects of one population are pairwise distinct (fresh at seeding,
      fresh copies after mutation, elites taken at distinct positions), so
      object identity inside a population is the position in it;
      [copy.deepcopy] is the identity on values.
    - Console output ([print], the [verbose] flag) is left out. *)

From Stdlib Require Import QArith Qabs ZArith Lia String.
From stdpp Require Import base list.

Local Open Scope nat_scope.

(** ** Results and computations *)

Inductive Excecao := ValueError | IndexError | AttributeError.

(** [Esgotado] is not a Python outcome: it is the out-of-fuel answer of the
    one [while] loop of the program, shown below never to occur. *)
Inductive Res (A : Type) : Type :=
| Ok (a : A)
| Levanta (e : Excecao)
| Esgotado.
Arguments Ok {A} a.
Arguments Levanta {A} e.
Arguments Esgotado {A}.

(** Sequencing of results *)
Definition ligar {A B} (r : Res A) (k : A -> Res B) : Res B :=
  match r with
  | Ok a => k a
  | Levanta e => Levanta e
  | Esgotado => Esgotado
  end.

(** A computation over a state [St]: the state reached is returned also when
    an exception is raised. *)
Definition Comp (St A : Type) : Type := St -> Res A * St.

Definition ret {St A} (a : A) : Comp St A := fun s => (Ok a, s).

Definition bind {St A B} (m : Comp St A) (k : A -> Comp St B) : Comp St B :=
  fun s =>
    match m s with
    | (Ok a, s') => k a s'
    | (Levanta e, s') => (Levanta e, s')
    | (Esgotado, s') => (Esgotado, s')
    end.

Definition levanta {St A} (e : Excecao) : Comp St A :=
  fun s => (Levanta e, s).

Definition de_res {St A} (r : Res A) : Comp St A := fun s => (r, s).

Notation "x <- m ;; k" := (bind m (fun x => k))
  (at level 100, m at next level, right associativity).

(** [for x in xs: acc = f x acc] *)
Fixpoint para {St A B} (xs : list A) (f : A -> B -> Comp St B) (acc : B)
  : Comp St B :=
  match xs with
  | [] => ret acc
  | x :: xs' => acc' <- f x acc ;; para xs' f acc'
  end.

(** ** Python lists *)

(** [l[i]] for [i >= 0] *)
Definition py_index {A} (l : list A) (i : nat) : Res A :=
  match l !! i with
  | Some x => Ok x
  | None => Levanta IndexError
  end.

(** [l[i] = x] for [i >= 0] *)
Definition py_set {A} (l : list A) (i : nat) (x : A) : Res (list A) :=
  if decide (i < length l) then Ok (<[i := x]> l) else Levanta IndexError.

(** [l[-k]] *)
Definition py_index_neg {A} (l : list A) (k : nat) : Res A :=
  match k with
  | 0 => py_index l 0
  | _ => if decide (k <= length l) then py_index l (length l - k)
         else Levanta IndexError
  end.

(** [l[:k]] for any integer [k] *)
Definition py_slice_to {A} (l : list A) (k : Z) : list A :=
  if decide (0 <= k)%Z then take (Z.to_nat k) l
  else take (length l - Z.to_nat (- k)) l.

(** [l[a:b]] for [0 <= a], [0 <= b] *)
Definition py_slice {A} (l : list A) (a b : nat) : list A :=
  take (b - a) (drop a l).

(** [sum(l)] *)
Definition py_sum (l : list Q) : Q := fold_left Qplus l 0%Q.

(** [min(l)], [max(l)] on instants *)
Definition py_min (l : list Z) : Res Z :=
  match l with
  | [] => Levanta ValueError
  | x :: l' => Ok (fold_left Z.min l' x)
  end.

Definition py_max (l : list Z) : Res Z :=
  match l with
  | [] => Levanta ValueError
  | x :: l' => Ok (fold_left Z.max l' x)
  end.

(** [l.index(x)] *)
Fixpoint py_list_index (l : list Z) (x : Z) : Res nat :=
  match l with
  | [] => Levanta ValueError
  | y :: l' =>
      if decide (y = x) then Ok 0
      else match py_list_index l' x with
           | Ok i => Ok (S i)
           | r => r
           end
  end.

(** Comparisons of floats as booleans *)
Definition Qltb (x y : Q) : bool :=
  (Qnum x * QDen y <? Qnum y * QDen x)%Z.
Definition Qleb (x y : Q) : bool := Qle_bool x y.

(** [max(l, key=chave)]: the first element of greatest key *)
Definition py_max_por {A} (chave : A -> Q) (l : list A) : Res A :=
  match l with
  | [] => Levanta ValueError
  | x :: l' =>
      Ok (fold_left (fun m y => if Qltb (chave m) (chave y) then y else m) l' x)
  end.

(** [l.sort(key=chave, reverse=True)]: stable, greatest key first *)
Fixpoint inserir_desc {A} (chave : A -> Q) (x : A) (l : list A) : list A :=
  match l with
  | [] => [x]
  | y :: l' =>
      if Qltb (chave x) (chave y) then y :: inserir_desc chave x l'
      else x :: y :: l'
  end.

Definition py_sort_desc {A} (chave : A -> Q) (l : list A) : list A :=
  foldr (inserir_desc chave) [] l.

(** ** The random source *)

Record Fonte := { fita : nat -> N; cursor : nat }.

Definition sortear : Comp Fonte N :=
  fun r => (Ok (fita r (cursor r)),
            {| fita := fita r; cursor := S (cursor r) |}).

(** [random.random()]: a multiple of 2^-53 in [0, 1) *)
Definition random_random : Comp Fonte Q :=
  k <- sortear ;;
  ret (Z.of_N (k mod 2 ^ 53) # 2 ^ 53)%Q.

(** [random.randint(a, b)]: empty range raises [ValueError] *)
Definition random_randint (a b : Z) : Comp Fonte Z :=
  if decide (b < a)%Z then levanta ValueError
  else k <- sortear ;; ret (a + Z.of_N k mod (b - a + 1))%Z.

(** [random.choice(l)]: empty sequence raises [IndexError] *)
Definition random_choice {A} (l : list A) : Comp Fonte A :=
  match l with
  | [] => levanta IndexError
  | _ => k <- sortear ;;
         de_res (py_index l (N.to_nat (k mod N.of_nat (length l))))
  end.

(** [random.sample(l, k)]: [k] elements at distinct positions *)
Fixpoint amostrar {A} (k : nat) (urna : list A) : Comp Fonte (list A) :=
  match k with
  | 0 => ret []
  | S k' =>
      j <- sortear ;;
      let i := N.to_nat (j mod N.of_nat (length urna)) in
      x <- de_res (py_index urna i) ;;
      xs <- amostrar k' (delete i urna) ;;
      ret (x :: xs)
  end.

Definition random_sample {A} (l : list A) (k : nat) : Comp Fonte (list A) :=
  if decide (length l < k) then levanta ValueError else amostrar k l.

(** ** Data model *)

Module Voo.
Record t := Build {
  origem : string;
  destino : string;
  horario_saida : Z;
  horario_chegada : Z;
  preco : Q
}.
End Voo.

Module Pessoa.
Record t := Build {
  nome : string;
  origem_cidade : string;
  voos_ida : list Voo.t;
  voos_volta : list Voo.t
}.
End Pessoa.

Module Cromossomo.
Record t := Build {
  voos_ida : list Voo.t;
  voos_volta : list Voo.t;
  fitness : Q
}.
(** [Cromossomo(ida, volta)]: the constructor sets [fitness = 0] *)
Definition novo (ida volta : list Voo.t) : t := Build ida volta 0%Q.
Definition com_ida (c : t) (ida : list Voo.t) : t :=
  Build ida (voos_volta c) (fitness c).
Definition com_volta (c : t) (volta : list Voo.t) : t :=
  Build (voos_ida c) volta (fitness c).
Definition com_fitness (c : t) (f : Q) : t :=
  Build (voos_ida c) (voos_volta c) f.
End Cromossomo.

(** [float('-inf')] or a finite float *)
Inductive Melhor := MenosInf | Finito (q : Q).

(** [a > m] for a finite [a] *)
Definition supera (a : Q) (m : Melhor) : bool :=
  match m with
  | MenosInf => true
  | Finito q => Qltb q a
  end.

Module AG.
Record t := Build {
  pessoas : list Pessoa.t;
  destino : string;
  tamanho_populacao : nat;
  taxa_mutacao : Q;
  taxa_elite : Q;
  geracoes_sem_melhoria_max : nat;
  populacao : list Cromossomo.t;
  melhor_fitness : Melhor;
  geracoes_sem_melhoria : nat;
  peso_custo : Q;
  peso_gap_chegada : Q;
  peso_gap_saida : Q
}.
(** [__init__] *)
Definition novo (pessoas : list Pessoa.t) (destino : string)
    (tamanho_populacao : nat) (taxa_mutacao taxa_elite : Q)
    (geracoes_sem_melhoria_max : nat)
    (peso_custo peso_gap_chegada peso_gap_saida : Q) : t :=
  Build pessoas destino tamanho_populacao taxa_mutacao taxa_elite
        geracoes_sem_melhoria_max [] MenosInf 0
        peso_custo peso_gap_chegada peso_gap_saida.
Definition com_populacao (a : t) (p : list Cromossomo.t) : t :=
  Build (pessoas a) (destino a) (tamanho_populacao a) (taxa_mutacao a)
        (taxa_elite a) (geracoes_sem_melhoria_max a) p (melhor_fitness a)
        (geracoes_sem_melhoria a) (peso_custo a) (peso_gap_chegada a)
        (peso_gap_saida a).
Definition com_melhor (a : t) (m : Melhor) (g : nat) : t :=
  Build (pessoas a) (destino a) (tamanho_populacao a) (taxa_mutacao a)
        (taxa_elite a) (geracoes_sem_melhoria_max a) (populacao a) m g
        (peso_custo a) (peso_gap_chegada a) (peso_gap_saida a).
End AG.

(** ** Crossovers *)

(** The pair returned when [n_genes == 0] *)
Definition filhos_vazios : Cromossomo.t * Cromossomo.t :=
  (Cromossomo.novo [] [], Cromossomo.novo [] []).

Definition cruzamento_ponto_unico (pai1 pai2 : Cromossomo.t)
  : Comp Fonte (Cromossomo.t * Cromossomo.t) :=
  let n_genes := length (Cromossomo.voos_ida pai1) in
  if decide (n_genes = 0) then ret filhos_vazios
  else
    corte <- random_randint 1 (Z.of_nat n_genes - 1) ;;
    let ponto_corte := Z.to_nat corte in
    let filho1_ida := take ponto_corte (Cromossomo.voos_ida pai1)
                      ++ drop ponto_corte (Cromossomo.voos_ida pai2) in
    let filho1_volta := take ponto_corte (Cromossomo.voos_volta pai1)
                        ++ drop ponto_corte (Cromossomo.voos_volta pai2) in
    let filho2_ida := take ponto_corte (Cromossomo.voos_ida pai2)
                      ++ drop ponto_corte (Cromossomo.voos_ida pai1) in
    let filho2_volta := take ponto_corte (Cromossomo.voos_volta pai2)
                        ++ drop ponto_corte (Cromossomo.voos_volta pai1) in
    ret (Cromossomo.novo filho1_ida filho1_volta,
         Cromossomo.novo filho2_ida filho2_volta).

Definition cruzamento_dois_pontos (pai1 pai2 : Cromossomo.t)
  : Comp Fonte (Cromossomo.t * Cromossomo.t) :=
  let n_genes := length (Cromossomo.voos_ida pai1) in
  if decide (n_genes < 3) then cruzamento_ponto_unico pai1 pai2
  else
    amostra <- random_sample (seq 1 (n_genes - 1)) 2 ;;
    match amostra with
    | [a; b] =>
        let ponto1 := Nat.min a b in
        let ponto2 := Nat.max a b in
        let tres (x y : list Voo.t) :=
          take ponto1 x ++ py_slice y ponto1 ponto2 ++ drop ponto2 x in
        ret (Cromossomo.novo
               (tres (Cromossomo.voos_ida pai1) (Cromossomo.voos_ida pai2))
               (tres (Cromossomo.voos_volta pai1) (Cromossomo.voos_volta pai2)),
             Cromossomo.novo
               (tres (Cromossomo.voos_ida pai2) (Cromossomo.voos_ida pai1))
               (tres (Cromossomo.voos_volta pai2) (Cromossomo.voos_volta pai1)))
    | _ => levanta ValueError
    end.

(** The four lists under construction in the gene-by-gene crossovers *)
Record Filhos := {
  filho1_ida : list Voo.t; filho1_volta : list Voo.t;
  filho2_ida : list Voo.t; filho2_volta : list Voo.t
}.

Definition filhos_iniciais : Filhos := Build_Filhos [] [] [] [].

Definition fechar (f : Filhos) : Cromossomo.t * Cromossomo.t :=
  (Cromossomo.novo (filho1_ida f) (filho1_volta f),
   Cromossomo.novo (filho2_ida f) (filho2_volta f)).

Definition meio : Q := (1 # 2)%Q.

Definition passo_uniforme (pai1 pai2 : Cromossomo.t) (i : nat) (f : Filhos)
  : Comp Fonte Filhos :=
  r <- random_random ;;
  if Qltb r meio then
    i1 <- de_res (py_index (Cromossomo.voos_ida pai1) i) ;;
    v1 <- de_res (py_index (Cromossomo.voos_volta pai1) i) ;;
    i2 <- de_res (py_index (Cromossomo.voos_ida pai2) i) ;;
    v2 <- de_res (py_index (Cromossomo.voos_volta pai2) i) ;;
    ret (Build_Filhos (filho1_ida f ++ [i1]) (filho1_volta f ++ [v1])
                      (filho2_ida f ++ [i2]) (filho2_volta f ++ [v2]))
  else
    i2 <- de_res (py_index (Cromossomo.voos_ida pai2) i) ;;
    v2 <- de_res (py_index (Cromossomo.voos_volta pai2) i) ;;
    i1 <- de_res (py_index (Cromossomo.voos_ida pai1) i) ;;
    v1 <- de_res (py_index (Cromossomo.voos_volta pai1) i) ;;
    ret (Build_Filhos (filho1_ida f ++ [i2]) (filho1_volta f ++ [v2])
                      (filho2_ida f ++ [i1]) (filho2_volta f ++ [v1])).

Definition cruzamento_uniforme (pai1 pai2 : Cromossomo.t)
  : Comp Fonte (Cromossomo.t * Cromossomo.t) :=
  let n_genes := length (Cromossomo.voos_ida pai1) in
  if decide (n_genes = 0) then ret filhos_vazios
  else
    f <- para (seq 0 n_genes) (passo_uniforme pai1 pai2) filhos_iniciais ;;
    ret (fechar f).

Definition passo_custo (pai1 pai2 : Cromossomo.t) (i : nat) (f : Filhos)
  : Res Filhos :=
  match py_index (Cromossomo.voos_ida pai1) i,
        py_index (Cromossomo.voos_ida pai2) i with
  | Ok voo_ida_pai1, Ok voo_ida_pai2 =>
      match py_index (Cromossomo.voos_volta pai1) i,
            py_index (Cromossomo.voos_volta pai2) i with
      | Ok voo_volta_pai1, Ok voo_volta_pai2 =>
          let '(f1i, f2i) :=
            if Qleb (Voo.preco voo_ida_pai1) (Voo.preco voo_ida_pai2)
            then (filho1_ida f ++ [voo_ida_pai1], filho2_ida f ++ [voo_ida_pai2])
            else (filho1_ida f ++ [voo_ida_pai2], filho2_ida f ++ [voo_ida_pai1])
          in
          let '(f1v, f2v) :=
            if Qleb (Voo.preco voo_volta_pai1) (Voo.preco voo_volta_pai2)
            then (filho1_volta f ++ [voo_volta_pai1],
                  filho2_volta f ++ [voo_volta_pai2])
            else (filho1_volta f ++ [voo_volta_pai2],
                  filho2_volta f ++ [voo_volta_pai1])
          in
          Ok (Build_Filhos f1i f1v f2i f2v)
      | _, _ => Levanta IndexError
      end
  | _, _ => Levanta IndexError
  end.

Definition cruzamento_baseado_custo (pai1 pai2 : Cromossomo.t)
  : Comp Fonte (Cromossomo.t * Cromossomo.t) :=
  let n_genes := length (Cromossomo.voos_ida pai1) in
  if decide (n_genes = 0) then ret filhos_vazios
  else
    f <- para (seq 0 n_genes)
              (fun i f => de_res (passo_custo pai1 pai2 i f)) filhos_iniciais ;;
    ret (fechar f).

(** [(max(h) - min(h)).total_seconds() / 3600] *)
Definition span_horas (h : list Z) : Res Q :=
  ligar (py_max h) (fun ultimo =>
  ligar (py_min h) (fun primeiro =>
  Ok (inject_Z (ultimo - primeiro) / 3600)%Q)).

Definition passo_volta (pai1 pai2 : Cromossomo.t) (i : nat)
    (f : list Voo.t * list Voo.t) : Comp Fonte (list Voo.t * list Voo.t) :=
  r <- random_random ;;
  if Qltb r meio then
    v1 <- de_res (py_index (Cromossomo.voos_volta pai1) i) ;;
    v2 <- de_res (py_index (Cromossomo.voos_volta pai2) i) ;;
    ret (f.1 ++ [v1], f.2 ++ [v2])
  else
    v2 <- de_res (py_index (Cromossomo.voos_volta pai2) i) ;;
    v1 <- de_res (py_index (Cromossomo.voos_volta pai1) i) ;;
    ret (f.1 ++ [v2], f.2 ++ [v1]).

Definition cruzamento_baseado_horario (pai1 pai2 : Cromossomo.t)
  : Comp Fonte (Cromossomo.t * Cromossomo.t) :=
  let n_genes := length (Cromossomo.voos_ida pai1) in
  if decide (n_genes = 0) then ret filhos_vazios
  else
    let horarios_chegada_pai1 :=
      Voo.horario_chegada <$> Cromossomo.voos_ida pai1 in
    let horarios_chegada_pai2 :=
      Voo.horario_chegada <$> Cromossomo.voos_ida pai2 in
    match horarios_chegada_pai1, horarios_chegada_pai2 with
    | [], _ | _, [] => cruzamento_uniforme pai1 pai2
    | _, _ =>
        span_pai1 <- de_res (span_horas horarios_chegada_pai1) ;;
        span_pai2 <- de_res (span_horas horarios_chegada_pai2) ;;
        let '(f1_ida, f2_ida) :=
          if Qleb span_pai1 span_pai2
          then (Cromossomo.voos_ida pai1, Cromossomo.voos_ida pai2)
          else (Cromossomo.voos_ida pai2, Cromossomo.voos_ida pai1) in
        voltas <- para (seq 0 n_genes) (passo_volta pai1 pai2) ([], []) ;;
        ret (Cromossomo.novo f1_ida voltas.1, Cromossomo.novo f2_ida voltas.2)
    end.


(** ** Fitness *)

Definition vazia {A} (l : list A) : bool :=
  match l with [] => true | _ => false end.

Definition penalidade : Q := (- 1000000000)%Q.

Definition calcular_fitness (self : AG.t) (cromossomo : Cromossomo.t) : Res Q :=
  if vazia (Cromossomo.voos_ida cromossomo)
     || vazia (Cromossomo.voos_volta cromossomo)
  then Ok penalidade
  else
    let custo_total :=
      py_sum (Voo.preco <$> (Cromossomo.voos_ida cromossomo
                             ++ Cromossomo.voos_volta cromossomo)) in
    let horarios_chegada_ida :=
      Voo.horario_chegada <$> Cromossomo.voos_ida cromossomo in
    ligar (py_min horarios_chegada_ida) (fun primeiro_chegada_ida =>
    ligar (py_max horarios_chegada_ida) (fun ultimo_chegada_ida =>
    let gap_chegada_ida :=
      (inject_Z (ultimo_chegada_ida - primeiro_chegada_ida) / 3600)%Q in
    let horarios_saida_volta :=
      Voo.horario_saida <$> Cromossomo.voos_volta cromossomo in
    ligar (py_min horarios_saida_volta) (fun primeiro_saida_volta =>
    ligar (py_max horarios_saida_volta) (fun ultimo_saida_volta =>
    let gap_saida_volta :=
      (inject_Z (ultimo_saida_volta - primeiro_saida_volta) / 3600)%Q in
    Ok (- (AG.peso_custo self * custo_total
           + AG.peso_gap_chegada self * gap_chegada_ida
           + AG.peso_gap_saida self * gap_saida_volta))%Q)))).

(** The body of [avaliar_populacao] on the list of candidates *)
Fixpoint avaliar_lista (self : AG.t) (pop : list Cromossomo.t)
  : Res (list Cromossomo.t) :=
  match pop with
  | [] => Ok []
  | c :: pop' =>
      ligar (calcular_fitness self c) (fun f =>
      ligar (avaliar_lista self pop') (fun pop'' =>
      Ok (Cromossomo.com_fitness c f :: pop'')))
  end.

(** ** The engine state: the object [self] and the random source *)

Record Motor := { self : AG.t; fonte : Fonte }.

(** A computation that only reads [self] and draws from the source *)
Definition com_fonte {A} (m : AG.t -> Comp Fonte A) : Comp Motor A :=
  fun s =>
    let '(r, f') := m (self s) (fonte s) in
    (r, {| self := self s; fonte := f' |}).

Definition ler : Comp Motor AG.t := fun s => (Ok (self s), s).

Definition gravar_populacao (p : list Cromossomo.t) : Comp Motor unit :=
  fun s => (Ok tt, {| self := AG.com_populacao (self s) p; fonte := fonte s |}).

Definition gravar_melhor (m : Melhor) (g : nat) : Comp Motor unit :=
  fun s => (Ok tt, {| self := AG.com_melhor (self s) m g; fonte := fonte s |}).

Definition avaliar_populacao : Comp Motor unit :=
  eu <- ler ;;
  pop <- de_res (avaliar_lista eu (AG.populacao eu)) ;;
  gravar_populacao pop.

(** ** Seeding *)

Definition escolher_genes (pessoa : Pessoa.t) (sel : list Voo.t * list Voo.t)
  : Comp Fonte (list Voo.t * list Voo.t) :=
  if vazia (Pessoa.voos_ida pessoa) then levanta ValueError
  else if vazia (Pessoa.voos_volta pessoa) then levanta ValueError
  else
    ida <- random_choice (Pessoa.voos_ida pessoa) ;;
    volta <- random_choice (Pessoa.voos_volta pessoa) ;;
    ret (sel.1 ++ [ida], sel.2 ++ [volta]).

Definition gerar_populacao_inicial : Comp Motor unit :=
  eu <- ler ;;
  if vazia (AG.pessoas eu) then levanta ValueError
  else
    _ <- gravar_populacao [] ;;
    para (seq 0 (AG.tamanho_populacao eu))
      (fun _ _ =>
         sel <- com_fonte (fun eu => para (AG.pessoas eu) escolher_genes ([], [])) ;;
         eu' <- ler ;;
         gravar_populacao
           (AG.populacao eu' ++ [Cromossomo.novo sel.1 sel.2]))
      tt.

(** ** Tournament selection *)

(** A selected parent: its position in [self.populacao] and its value *)
Definition Pai : Type := nat * Cromossomo.t.

Definition selecao_torneio (tamanho_torneio : nat) (taxa_nao_melhor : Q)
    (self : AG.t) : Comp Fonte (option Pai) :=
  let populacao := imap (fun i c => (i, c)) (AG.populacao self) in
  if decide (length populacao < 2) then ret (head populacao)
  else
    let tamanho_torneio := Nat.min tamanho_torneio (length populacao) in
    competidores <- random_sample populacao tamanho_torneio ;;
    let competidores :=
      py_sort_desc (fun x : Pai => Cromossomo.fitness x.2) competidores in
    r <- random_random ;;
    if Qltb r taxa_nao_melhor && bool_decide (1 < length competidores) then
      x <- random_choice (drop 1 competidores) ;; ret (Some x)
    else
      x <- de_res (py_index competidores 0) ;; ret (Some x).

(** The defaults of [selecao_torneio] *)
Definition selecao_torneio_padrao : AG.t -> Comp Fonte (option Pai) :=
  selecao_torneio 3 (5 # 100)%Q.

(** ** Mutation *)

(** One position of the uniform-random pass, at rate [taxa] *)
Definition passo_aleatorio (self : AG.t) (taxa : Q) (i : nat)
    (novo_cromossomo : Cromossomo.t) : Comp Fonte Cromossomo.t :=
  pessoa_associada <- de_res (py_index (AG.pessoas self) i) ;;
  r <- random_random ;;
  novo1 <-
    (if Qltb r taxa then
       if vazia (Pessoa.voos_ida pessoa_associada) then ret novo_cromossomo
       else
         v <- random_choice (Pessoa.voos_ida pessoa_associada) ;;
         ida <- de_res (py_set (Cromossomo.voos_ida novo_cromossomo) i v) ;;
         ret (Cromossomo.com_ida novo_cromossomo ida)
     else ret novo_cromossomo) ;;
  r <- random_random ;;
  if Qltb r taxa then
    if vazia (Pessoa.voos_volta pessoa_associada) then ret novo1
    else
      v <- random_choice (Pessoa.voos_volta pessoa_associada) ;;
      volta <- de_res (py_set (Cromossomo.voos_volta novo1) i v) ;;
      ret (Cromossomo.com_volta novo1 volta)
  else ret novo1.

Definition mutacao_tradicional (self : AG.t) (cromossomo : Cromossomo.t)
  : Comp Fonte Cromossomo.t :=
  let novo_cromossomo := cromossomo in
  para (seq 0 (length (Cromossomo.voos_ida novo_cromossomo)))
       (passo_aleatorio self (AG.taxa_mutacao self)) novo_cromossomo.

Definition sessenta_por_cento : Q := (6 # 10)%Q.

(** Strategy 1: pull the latest outbound arrival earlier *)
Definition reparar_ida (self : AG.t) (cromossomo novo_cromossomo : Cromossomo.t)
  : Comp Fonte Cromossomo.t :=
  let horarios_chegada_ida :=
    Voo.horario_chegada <$> Cromossomo.voos_ida cromossomo in
  if decide (1 < length horarios_chegada_ida) then
    primeiro_chegada <- de_res (py_min horarios_chegada_ida) ;;
    ultimo_chegada <- de_res (py_max horarios_chegada_ida) ;;
    if Qltb 1 (inject_Z (ultimo_chegada - primeiro_chegada) / 3600) then
      idx_mais_tarde <- de_res (py_list_index horarios_chegada_ida ultimo_chegada) ;;
      pessoa_alvo <- de_res (py_index (AG.pessoas self) idx_mais_tarde) ;;
      let voos_alternativos_ida :=
        filter (fun v => (Voo.horario_chegada v < ultimo_chegada)%Z)
               (Pessoa.voos_ida pessoa_alvo) in
      if vazia voos_alternativos_ida then ret novo_cromossomo
      else
        r <- random_random ;;
        if Qltb r sessenta_por_cento then
          v <- random_choice voos_alternativos_ida ;;
          ida <- de_res (py_set (Cromossomo.voos_ida novo_cromossomo)
                                idx_mais_tarde v) ;;
          ret (Cromossomo.com_ida novo_cromossomo ida)
        else ret novo_cromossomo
    else ret novo_cromossomo
  else ret novo_cromossomo.

(** Strategy 2: push the earliest return departure later *)
Definition reparar_volta (self : AG.t) (cromossomo novo_cromossomo : Cromossomo.t)
  : Comp Fonte Cromossomo.t :=
  let horarios_saida_volta :=
    Voo.horario_saida <$> Cromossomo.voos_volta cromossomo in
  if decide (1 < length horarios_saida_volta) then
    primeiro_saida <- de_res (py_min horarios_saida_volta) ;;
    ultimo_saida <- de_res (py_max horarios_saida_volta) ;;
    if Qltb 1 (inject_Z (ultimo_saida - primeiro_saida) / 3600) then
      idx_mais_cedo <- de_res (py_list_index horarios_saida_volta primeiro_saida) ;;
      pessoa_alvo <- de_res (py_index (AG.pessoas self) idx_mais_cedo) ;;
      let voos_alternativos_volta :=
        filter (fun v => (primeiro_saida < Voo.horario_saida v)%Z)
               (Pessoa.voos_volta pessoa_alvo) in
      if vazia voos_alternativos_volta then ret novo_cromossomo
      else
        r <- random_random ;;
        if Qltb r sessenta_por_cento then
          v <- random_choice voos_alternativos_volta ;;
          volta <- de_res (py_set (Cromossomo.voos_volta novo_cromossomo)
                                  idx_mais_cedo v) ;;
          ret (Cromossomo.com_volta novo_cromossomo volta)
        else ret novo_cromossomo
    else ret novo_cromossomo
  else ret novo_cromossomo.

Definition mutacao_inteligente (self : AG.t) (cromossomo : Cromossomo.t)
  : Comp Fonte Cromossomo.t :=
  let novo_cromossomo := cromossomo in
  if vazia (AG.pessoas self) then ret novo_cromossomo
  else
    novo1 <- reparar_ida self cromossomo novo_cromossomo ;;
    novo2 <- reparar_volta self cromossomo novo1 ;;
    para (seq 0 (length (Cromossomo.voos_ida novo2)))
         (passo_aleatorio self (AG.taxa_mutacao self * (2 # 10))%Q) novo2.

(** ** One generation *)

(** [int(x)]: truncation towards zero *)
Definition py_int (x : Q) : Z := Z.quot (Qnum x) (QDen x).

Definition elite_size (self : AG.t) : Z :=
  py_int (AG.taxa_elite self * inject_Z (Z.of_nat (AG.tamanho_populacao self)))%Q.

Definition cruzar (tipo_cruzamento : string) (pai1 pai2 : Cromossomo.t)
  : Comp Fonte (Cromossomo.t * Cromossomo.t) :=
  if String.eqb tipo_cruzamento "ponto_unico" then
    cruzamento_ponto_unico pai1 pai2
  else if String.eqb tipo_cruzamento "dois_pontos" then
    cruzamento_dois_pontos pai1 pai2
  else if String.eqb tipo_cruzamento "uniforme" then
    cruzamento_uniforme pai1 pai2
  else if String.eqb tipo_cruzamento "custo" then
    cruzamento_baseado_custo pai1 pai2
  else if String.eqb tipo_cruzamento "horario" then
    cruzamento_baseado_horario pai1 pai2
  else cruzamento_uniforme pai1 pai2.

Definition mutar (usar_mutacao_inteligente : bool) (self : AG.t)
    (c : Cromossomo.t) : Comp Fonte Cromossomo.t :=
  if usar_mutacao_inteligente then mutacao_inteligente self c
  else mutacao_tradicional self c.

(** The body of the [while] loop: [None] is the [break] *)
Definition gerar_par (tipo_cruzamento : string)
    (usar_mutacao_inteligente : bool) (self : AG.t)
  : Comp Fonte (option (Cromossomo.t * Cromossomo.t)) :=
  pai1 <- selecao_torneio_padrao self ;;
  pai2 <- selecao_torneio_padrao self ;;
  match pai1, pai2 with
  | Some p1, Some p2 =>
      pai2 <- (if bool_decide (p1.1 = p2.1)
                  && bool_decide (1 < length (AG.populacao self))
               then selecao_torneio_padrao self
               else ret (Some p2)) ;;
      match pai2 with
      | None => levanta AttributeError
      | Some p2 =>
          filhos <- cruzar tipo_cruzamento p1.2 p2.2 ;;
          filho1 <- mutar usar_mutacao_inteligente self filhos.1 ;;
          filho2 <- mutar usar_mutacao_inteligente self filhos.2 ;;
          ret (Some (filho1, filho2))
      end
  | _, _ => ret None
  end.

(** [while len(nova_populacao) < self.tamanho_populacao: ...] *)
Fixpoint preencher (combustivel : nat) (tipo_cruzamento : string)
    (usar_mutacao_inteligente : bool) (self : AG.t)
    (nova_populacao : list Cromossomo.t) : Comp Fonte (list Cromossomo.t) :=
  if decide (length nova_populacao < AG.tamanho_populacao self) then
    match combustivel with
    | 0 => de_res Esgotado
    | S combustivel' =>
        par <- gerar_par tipo_cruzamento usar_mutacao_inteligente self ;;
        match par with
        | None => ret nova_populacao
        | Some (filho1, filho2) =>
            preencher combustivel' tipo_cruzamento usar_mutacao_inteligente
                      self (nova_populacao ++ [filho1; filho2])
        end
    end
  else ret nova_populacao.

Definition evoluir_geracao (tipo_cruzamento : string)
    (usar_mutacao_inteligente : bool) : Comp Motor unit :=
  eu <- ler ;;
  _ <- gravar_populacao (py_sort_desc Cromossomo.fitness (AG.populacao eu)) ;;
  eu <- ler ;;
  let nova_populacao := py_slice_to (AG.populacao eu) (elite_size eu) in
  nova_populacao <-
    com_fonte (fun eu =>
      preencher (AG.tamanho_populacao eu) tipo_cruzamento
                usar_mutacao_inteligente eu nova_populacao) ;;
  gravar_populacao (take (AG.tamanho_populacao eu) nova_populacao).

(** ** The driver *)

(** [criterio_parada_avancado(historico_fitness, janela, tolerancia)] *)
Definition criterio_parada_avancado (historico_fitness : list Q)
    (janela : nat) (tolerancia : Q) : Res bool :=
  if decide (length historico_fitness < janela) then Ok false
  else
    ligar (py_index_neg historico_fitness 1) (fun fitness_atual =>
    ligar (py_index_neg historico_fitness janela) (fun fitness_anterior =>
    if Qltb (Qabs fitness_anterior) (1 # 1000000000) then
      Ok (Qltb (Qabs (fitness_atual - fitness_anterior))
               (tolerancia * Qabs fitness_anterior + (1 # 1000000000)))
    else
      let melhoria_percentual :=
        Qabs ((fitness_atual - fitness_anterior) / fitness_anterior) in
      Ok (Qltb melhoria_percentual tolerancia))).

Definition janela_padrao : nat := 20.
Definition tolerancia_padrao : Q := (1 # 1000)%Q.

Definition custo_de (c : Cromossomo.t) : Q :=
  py_sum (Voo.preco <$> (Cromossomo.voos_ida c ++ Cromossomo.voos_volta c)).

Record Historicos := { h_fitness : list Q; h_custo : list Q }.

(** [for geracao in range(max_geracoes): ...], [n] generations remaining *)
Fixpoint laco_geracoes (n : nat) (tipo_cruzamento : string)
    (usar_mutacao_inteligente : bool) (h : Historicos)
  : Comp Motor Historicos :=
  match n with
  | 0 => ret h
  | S n' =>
      _ <- avaliar_populacao ;;
      eu <- ler ;;
      melhor_atual <- de_res (py_max_por Cromossomo.fitness (AG.populacao eu)) ;;
      let h := {| h_fitness := h_fitness h ++ [Cromossomo.fitness melhor_atual];
                  h_custo := h_custo h ++ [custo_de melhor_atual] |} in
      _ <- (if supera (Cromossomo.fitness melhor_atual) (AG.melhor_fitness eu)
            then gravar_melhor (Finito (Cromossomo.fitness melhor_atual)) 0
            else gravar_melhor (AG.melhor_fitness eu)
                               (AG.geracoes_sem_melhoria eu + 1)) ;;
      parar <- de_res (criterio_parada_avancado (h_fitness h)
                         janela_padrao tolerancia_padrao) ;;
      if parar : bool then ret h
      else
        eu <- ler ;;
        if decide (AG.geracoes_sem_melhoria_max eu <= AG.geracoes_sem_melhoria eu)
        then ret h
        else
          _ <- evoluir_geracao tipo_cruzamento usar_mutacao_inteligente ;;
          laco_geracoes n' tipo_cruzamento usar_mutacao_inteligente h
  end.

Definition historicos_vazios : Historicos := {| h_fitness := []; h_custo := [] |}.

(** [try: m except ValueError: ...]: [None] when [ValueError] was caught *)
Definition tentar {St A} (m : Comp St A) : Comp St (option A) :=
  fun s =>
    match m s with
    | (Ok a, s') => (Ok (Some a), s')
    | (Levanta ValueError, s') => (Ok None, s')
    | (Levanta e, s') => (Levanta e, s')
    | (Esgotado, s') => (Esgotado, s')
    end.

Definition executar (max_geracoes : nat) (tipo_cruzamento : string)
    (usar_mutacao_inteligente : bool)
  : Comp Motor (option Cromossomo.t * Historicos) :=
  eu <- ler ;;
  if vazia (AG.pessoas eu) then ret (None, historicos_vazios)
  else
    semeada <- tentar gerar_populacao_inicial ;;
    match semeada with
    | None => ret (None, historicos_vazios)
    | Some _ =>
        h <- laco_geracoes max_geracoes tipo_cruzamento
                           usar_mutacao_inteligente historicos_vazios ;;
        _ <- avaliar_populacao ;;
        eu <- ler ;;
        melhor_solucao <-
          de_res (py_max_por Cromossomo.fitness (AG.populacao eu)) ;;
        ret (Some melhor_solucao, h)
    end.

(** * The loader of the flights file and the repeated runs

    Modelling conventions of this part.
    - The flights file is taken to exist and is given by its lines, each
      read up to the conversion of its fields: [Ignorada] is a line that the
      loop skips before it builds a flight (blank, a comment, not five
      fields, or a field that [int] or [float] rejects); [Campos] carries the
      two city fields, stripped, the values of [int] for the hours and the
      minutes and the value of [float] for the price.
    - A [datetime] of the loader is its count of seconds from
      [data_base = datetime(2024, 6, 15)].
    - The dictionary [voos_por_cidade] is the list of its items in insertion
      order, which is the order of [dict.items()].
    - The dictionary [config] of [executar_e_coletar] is a record of optional
      values, [None] for a key that is absent. *)

Inductive Linha :=
| Ignorada
| Campos (origem_voo_str destino_voo_str : string)
         (hora_saida minuto_saida hora_chegada minuto_chegada : Z)
         (preco : Q).

(** [data_base.replace(hour=hour, minute=minute)] *)
Definition datetime_replace (hour minute : Z) : Res Z :=
  if decide (0 <= hour <= 23)%Z then
    if decide (0 <= minute <= 59)%Z then Ok (hour * 3600 + minute * 60)%Z
    else Levanta ValueError
  else Levanta ValueError.

(** [timedelta(days=1)] *)
Definition um_dia : Z := 86400.

(** The body of the inner [try] up to [Voo(...)]: [None] when
    [ValueError] is raised, which the [except] answers with [continue] *)
Definition construir_voo (linha : Linha) : option Voo.t :=
  match linha with
  | Ignorada => None
  | Campos origem_voo_str destino_voo_str hora_saida minuto_saida
           hora_chegada minuto_chegada preco =>
      match datetime_replace hora_saida minuto_saida with
      | Ok horario_saida =>
          match datetime_replace hora_chegada minuto_chegada with
          | Ok horario_chegada =>
              let horario_chegada :=
                if decide (horario_chegada <= horario_saida)%Z
                then (horario_chegada + um_dia)%Z else horario_chegada in
              Some (Voo.Build origem_voo_str destino_voo_str
                              horario_saida horario_chegada preco)
          | _ => None
          end
      | _ => None
      end
  end.

(** [{'ida': [...], 'volta': [...]}] *)
Record Grupo := { g_ida : list Voo.t; g_volta : list Voo.t }.

Definition Agrupados : Type := list (string * Grupo).

(** [d.setdefault(k, {'ida': [], 'volta': []})] *)
Fixpoint setdefault (d : Agrupados) (k : string) : Agrupados :=
  match d with
  | [] => [(k, {| g_ida := []; g_volta := [] |})]
  | (k', g) :: d' =>
      if String.eqb k' k then (k', g) :: d'
      else (k', g) :: setdefault d' k
  end.

(** [d[k]] changed in place by [f]; [None] is the [KeyError] of [d[k]] *)
Fixpoint atualizar (d : Agrupados) (k : string) (f : Grupo -> Grupo)
  : option Agrupados :=
  match d with
  | [] => None
  | (k', g) :: d' =>
      if String.eqb k' k then Some ((k', f g) :: d')
      else match atualizar d' k f with
           | Some d'' => Some ((k', g) :: d'')
           | None => None
           end
  end.

Definition anexar_ida (voo : Voo.t) (g : Grupo) : Grupo :=
  {| g_ida := g_ida g ++ [voo]; g_volta := g_volta g |}.

Definition anexar_volta (voo : Voo.t) (g : Grupo) : Grupo :=
  {| g_ida := g_ida g; g_volta := g_volta g ++ [voo] |}.

(** One turn of [for linha in arquivo]; [None] is a [KeyError], which the
    [except] clauses do not catch *)
Definition processar_linha (self : AG.t) (voos_por_cidade : Agrupados)
    (linha : Linha) : option Agrupados :=
  match construir_voo linha with
  | None => Some voos_por_cidade
  | Some voo =>
      let voos_por_cidade := setdefault voos_por_cidade (Voo.origem voo) in
      let voos_por_cidade := setdefault voos_por_cidade (Voo.destino voo) in
      if String.eqb (Voo.destino voo) (AG.destino self) then
        atualizar voos_por_cidade (Voo.origem voo) (anexar_ida voo)
      else if String.eqb (Voo.origem voo) (AG.destino self) then
        atualizar voos_por_cidade (Voo.destino voo) (anexar_volta voo)
      else Some voos_por_cidade
  end.

Fixpoint carregar_linhas (self : AG.t) (voos_por_cidade : Agrupados)
    (arquivo : list Linha) : option Agrupados :=
  match arquivo with
  | [] => Some voos_por_cidade
  | linha :: resto =>
      match processar_linha self voos_por_cidade linha with
      | Some voos_por_cidade => carregar_linhas self voos_por_cidade resto
      | None => None
      end
  end.

Definition carregar_voos_arquivo (self : AG.t) (arquivo : list Linha)
  : option Agrupados :=
  carregar_linhas self [] arquivo.

(** One turn of [for cidade_origem, voos_dict in ....items()] *)
Definition criar_pessoa (self : AG.t) (pessoas : list Pessoa.t)
    (item : string * Grupo) : list Pessoa.t :=
  let cidade_origem := item.1 in
  let voos_dict := item.2 in
  if negb (String.eqb cidade_origem (AG.destino self)) then
    if negb (vazia (g_ida voos_dict)) && negb (vazia (g_volta voos_dict)) then
      pessoas ++ [Pessoa.Build (String.append "Pessoa_" cidade_origem)
                               cidade_origem
                               (g_ida voos_dict) (g_volta voos_dict)]
    else pessoas
  else pessoas.

Definition criar_pessoas_from_arquivo (self : AG.t) (arquivo : list Linha)
  : option (list Pessoa.t) :=
  match carregar_voos_arquivo self arquivo with
  | Some voos_agrupados_por_cidade =>
      Some (fold_left (criar_pessoa self) voos_agrupados_por_cidade [])
  | None => None
  end.

(** ** Repeated runs *)

Record Config := {
  cfg_destino : option string;
  cfg_tamanho_populacao : option nat;
  cfg_taxa_mutacao : option Q;
  cfg_taxa_elite : option Q;
  cfg_geracoes_sem_melhoria_max : option nat;
  cfg_peso_custo : option Q;
  cfg_peso_gap_chegada : option Q;
  cfg_peso_gap_saida : option Q;
  cfg_max_geracoes : option nat;
  cfg_tipo_cruzamento : option string;
  cfg_usar_mutacao_inteligente : option bool
}.

(** [config.get(chave, padrao)] *)
Definition config_get {A} (valor : option A) (padrao : A) : A :=
  match valor with
  | Some v => v
  | None => padrao
  end.

(** The engine [ag_run] built for one run *)
Definition ag_run (pessoas : list Pessoa.t) (config : Config) : AG.t :=
  AG.novo pessoas
    (config_get (cfg_destino config) "FCO"%string)
    (config_get (cfg_tamanho_populacao config) 80)
    (config_get (cfg_taxa_mutacao config) (12 # 100)%Q)
    (config_get (cfg_taxa_elite config) (8 # 100)%Q)
    (config_get (cfg_geracoes_sem_melhoria_max config) 40)
    (config_get (cfg_peso_custo config) 1%Q)
    (config_get (cfg_peso_gap_chegada config) 100%Q)
    (config_get (cfg_peso_gap_saida config) 100%Q).

(** One turn of [for _ in range(num_runs)]: the runs share the module
    [random] *)
Definition uma_execucao (pessoas : list Pessoa.t) (config : Config)
    (resultados_runs : list Q) : Comp Fonte (list Q) :=
  fun r =>
    match executar (config_get (cfg_max_geracoes config) 150)
                   (config_get (cfg_tipo_cruzamento config) "uniforme"%string)
                   (config_get (cfg_usar_mutacao_inteligente config) false)
                   {| self := ag_run pessoas config; fonte := r |} with
    | (Ok (melhor_solucao, _), s') =>
        (Ok (match melhor_solucao with
             | Some m => resultados_runs ++ [Cromossomo.fitness m]
             | None => resultados_runs
             end), fonte s')
    | (Levanta e, s') => (Levanta e, fonte s')
    | (Esgotado, s') => (Esgotado, fonte s')
    end.

Definition executar_e_coletar (pessoas : list Pessoa.t) (config : Config)
    (num_runs : nat) : Comp Fonte Melhor :=
  resultados_runs <-
    para (seq 0 num_runs) (fun _ => uma_execucao pessoas config) [] ;;
  if vazia resultados_runs then ret MenosInf
  else ret (Finito (py_sum resultados_runs
                    / inject_Z (Z.of_nat (length resultados_runs)))%Q).
(** ** Predicates of the specification *)

(** At one position and leg: the children carry the parents' two options,
    the cheaper (or equally priced) one in child 1. *)
Definition troca_por_custo (x y a b : Voo.t) : Prop :=
  (Voo.preco a <= Voo.preco b)%Q /\ ((a = x /\ b = y) \/ (a = y /\ b = x)).

Definition gene_por_custo (p1 p2 f1 f2 : list Voo.t) (i : nat) : Prop :=
  exists x y a b,
    p1 !! i = Some x /\ p2 !! i = Some y /\
    f1 !! i = Some a /\ f2 !! i = Some b /\ troca_por_custo x y a b.

Definition inv_custo (pai1 pai2 : Cromossomo.t) (k : nat) (f : Filhos) : Prop :=
  length (filho1_ida f) = k /\ length (filho2_ida f) = k /\
  length (filho1_volta f) = k /\ length (filho2_volta f) = k /\
  forall i, i < k ->
    gene_por_custo (Cromossomo.voos_ida pai1) (Cromossomo.voos_ida pai2)
                   (filho1_ida f) (filho2_ida f) i /\
    gene_por_custo (Cromossomo.voos_volta pai1) (Cromossomo.voos_volta pai2)
                   (filho1_volta f) (filho2_volta f) i.

(** Two parents of three genes each, with costs crossing over. *)
Definition voo_de (saida chegada : Z) (preco : Q) : Voo.t :=
  Voo.Build "MAD" "FCO" saida chegada preco.


(** A computation returns from state [s] with a value and a final state
    satisfying [P]. *)
Definition devolve {St A} (m : Comp St A) (s : St) (P : A -> St -> Prop) : Prop :=
  exists a s', m s = (Ok a, s') /\ P a s'.

(** Every gene of the list comes from the menu of the agent at its position. *)
Definition genes_do_cardapio (cardapio : Pessoa.t -> list Voo.t)
    (pessoas : list Pessoa.t) (genes : list Voo.t) : Prop :=
  forall i v, genes !! i = Some v ->
    exists p, pessoas !! i = Some p /\ v ∈ cardapio p.

(** The invariant of a candidate of [N] genes per leg *)
Definition viavel (pessoas : list Pessoa.t) (N : nat) (c : Cromossomo.t) : Prop :=
  length (Cromossomo.voos_ida c) = N /\
  length (Cromossomo.voos_volta c) = N /\
  genes_do_cardapio Pessoa.voos_ida pessoas (Cromossomo.voos_ida c) /\
  genes_do_cardapio Pessoa.voos_volta pessoas (Cromossomo.voos_volta c).

(** [f] has [k] genes, each taken from [p1] or [p2] at the same position. *)
Definition mistura_parcial (p1 p2 : list Voo.t) (k : nat) (f : list Voo.t)
  : Prop :=
  length f = k /\
  forall i v, f !! i = Some v -> p1 !! i = Some v \/ p2 !! i = Some v.

(** [f] has the length of [p1] and takes each gene from [p1] or [p2] at the
    same position. *)
Definition mistura (p1 p2 f : list Voo.t) : Prop :=
  mistura_parcial p1 p2 (length p1) f.

(** The five strategies *)
Definition cinco_cruzamentos
  : list (Cromossomo.t -> Cromossomo.t -> Comp Fonte (Cromossomo.t * Cromossomo.t)) :=
  [cruzamento_ponto_unico; cruzamento_dois_pontos; cruzamento_uniforme;
   cruzamento_baseado_custo; cruzamento_baseado_horario].

(** Both children take, leg by leg and position by position, a gene of one
    of the parents. *)
Definition filhos_misturados (pai1 pai2 : Cromossomo.t)
    (filhos : Cromossomo.t * Cromossomo.t) : Prop :=
  mistura (Cromossomo.voos_ida pai1) (Cromossomo.voos_ida pai2)
          (Cromossomo.voos_ida filhos.1) /\
  mistura (Cromossomo.voos_volta pai1) (Cromossomo.voos_volta pai2)
          (Cromossomo.voos_volta filhos.1) /\
  mistura (Cromossomo.voos_ida pai1) (Cromossomo.voos_ida pai2)
          (Cromossomo.voos_ida filhos.2) /\
  mistura (Cromossomo.voos_volta pai1) (Cromossomo.voos_volta pai2)
          (Cromossomo.voos_volta filhos.2).

(** Parents of one gene each *)
Definition pai_de_um_gene : Cromossomo.t :=
  Cromossomo.novo [voo_de 0 3600 100] [voo_de 64800 68400 100].

(** The invariant of the gene-by-gene loops after [k] positions *)
Definition inv_mistura (pai1 pai2 : Cromossomo.t) (k : nat) (f : Filhos) : Prop :=
  mistura_parcial (Cromossomo.voos_ida pai1) (Cromossomo.voos_ida pai2) k
                  (filho1_ida f) /\
  mistura_parcial (Cromossomo.voos_volta pai1) (Cromossomo.voos_volta pai2) k
                  (filho1_volta f) /\
  mistura_parcial (Cromossomo.voos_ida pai1) (Cromossomo.voos_ida pai2) k
                  (filho2_ida f) /\
  mistura_parcial (Cromossomo.voos_volta pai1) (Cromossomo.voos_volta pai2) k
                  (filho2_volta f).

(** The tape of zeros *)
Definition fonte_zero : Fonte := {| fita := fun _ => 0%N; cursor := 0 |}.

(** Three agents with two options per leg, and two feasible parents *)
Definition ida_a : Voo.t := voo_de 28800 36000 100.
Definition ida_b : Voo.t := voo_de 36000 46800 80.
Definition volta_a : Voo.t := voo_de 64800 72000 120.
Definition volta_b : Voo.t := voo_de 72000 79200 90.

Definition pessoa_exemplo (cidade : string) : Pessoa.t :=
  Pessoa.Build cidade cidade [ida_a; ida_b] [volta_a; volta_b].

Definition pessoas_exemplo : list Pessoa.t :=
  [pessoa_exemplo "MAD"; pessoa_exemplo "LIS"; pessoa_exemplo "CDG"].

Definition pai_a : Cromossomo.t :=
  Cromossomo.novo [ida_a; ida_a; ida_b] [volta_a; volta_b; volta_b].
Definition pai_b : Cromossomo.t :=
  Cromossomo.novo [ida_b; ida_a; ida_a] [volta_b; volta_b; volta_a].

(** The sum of the prices of a list of options *)
Definition soma_precos (l : list Voo.t) : Q :=
  foldr (fun v acc => (Voo.preco v + acc)%Q) 0%Q l.

Definition maximo (m : Z) (l : list Z) : Prop :=
  m ∈ l /\ forall x, x ∈ l -> (x <= m)%Z.

Definition minimo (m : Z) (l : list Z) : Prop :=
  m ∈ l /\ forall x, x ∈ l -> (m <= x)%Z.

(** The fitness in the words of the specification: minus the weighted sum of
    the total cost, the arrival gap and the departure gap, gaps in hours. *)
Definition fitness_especificado (self : AG.t) (c : Cromossomo.t)
    (chegada_max chegada_min saida_max saida_min : Z) : Q :=
  (- (AG.peso_custo self
        * (soma_precos (Cromossomo.voos_ida c)
           + soma_precos (Cromossomo.voos_volta c))
      + AG.peso_gap_chegada self
        * (inject_Z (chegada_max - chegada_min) / 3600)
      + AG.peso_gap_saida self
        * (inject_Z (saida_max - saida_min) / 3600)))%Q.

(** An agent one of whose menus is empty *)
Definition cardapio_vazio (p : Pessoa.t) : Prop :=
  Pessoa.voos_ida p = [] \/ Pessoa.voos_volta p = [].

(** An engine with one agent without outbound options and a population
    size of zero *)
Definition pessoa_sem_ida : Pessoa.t := Pessoa.Build "P" "MAD" [] [volta_a].

Definition motor_populacao_zero : Motor :=
  {| self := AG.novo [pessoa_sem_ida] "FCO" 0 (1 # 10) (5 # 100) 50 1 100 100;
     fonte := fonte_zero |}.

(** The same agent list with the default population size *)
Definition motor_sem_ida : Motor :=
  {| self := AG.novo [pessoa_exemplo "MAD"; pessoa_sem_ida] "FCO" 100
                     (1 # 10) (5 # 100) 50 1 100 100;
     fonte := fonte_zero |}.

(** Every gene of [novo] is the gene of [orig] at its position or an option
    of the menu of the agent at its position. *)
Definition herdado_ou_do_cardapio (cardapio : Pessoa.t -> list Voo.t)
    (pessoas : list Pessoa.t) (orig novo : list Voo.t) : Prop :=
  forall i v, novo !! i = Some v ->
    orig !! i = Some v \/ exists p, pessoas !! i = Some p /\ v ∈ cardapio p.

(** What a mutator may do to a candidate *)
Definition mutacao_segura (self : AG.t) (c c' : Cromossomo.t) : Prop :=
  length (Cromossomo.voos_ida c') = length (Cromossomo.voos_ida c) /\
  length (Cromossomo.voos_volta c') = length (Cromossomo.voos_volta c) /\
  herdado_ou_do_cardapio Pessoa.voos_ida (AG.pessoas self)
    (Cromossomo.voos_ida c) (Cromossomo.voos_ida c') /\
  herdado_ou_do_cardapio Pessoa.voos_volta (AG.pessoas self)
    (Cromossomo.voos_volta c) (Cromossomo.voos_volta c').

(** Some two instants of the list are more than one hour apart. *)
Definition excede_uma_hora (h : list Z) : Prop :=
  exists x y, x ∈ h /\ y ∈ h /\ (3600 < y - x)%Z.

(** An engine over the three example agents with the given mutation rate *)
Definition ag_exemplo (taxa_mutacao : Q) : AG.t :=
  AG.novo pessoas_exemplo "FCO" 4 taxa_mutacao (5 # 100) 50 1 100 100.

(** A candidate with one outbound gene and no return gene *)
Definition candidato_sem_volta : Cromossomo.t := Cromossomo.novo [ida_a] [].

(** A candidate whose three arrivals and three departures coincide *)
Definition candidato_sincrono : Cromossomo.t :=
  Cromossomo.novo [ida_a; ida_a; ida_a] [volta_b; volta_b; volta_b].

(** The value [calcular_fitness] returns *)
Definition fitness_de (self : AG.t) (c : Cromossomo.t) : Q :=
  match calcular_fitness self c with
  | Ok f => f
  | _ => 0%Q
  end.

(** The population after [avaliar_populacao] *)
Definition avaliada (self : AG.t) (pop : list Cromossomo.t) : list Cromossomo.t :=
  (fun c => Cromossomo.com_fitness c (fitness_de self c)) <$> pop.

(** The fields of the engine that a run never writes *)
Definition mesma_config (a b : AG.t) : Prop :=
  AG.pessoas a = AG.pessoas b /\
  AG.tamanho_populacao a = AG.tamanho_populacao b /\
  AG.taxa_mutacao a = AG.taxa_mutacao b /\
  AG.taxa_elite a = AG.taxa_elite b /\
  AG.geracoes_sem_melhoria_max a = AG.geracoes_sem_melhoria_max b /\
  AG.peso_custo a = AG.peso_custo b /\
  AG.peso_gap_chegada a = AG.peso_gap_chegada b /\
  AG.peso_gap_saida a = AG.peso_gap_saida b.

(** The update of best-fitness-seen and of the no-improvement counter by one
    generation whose best fitness is [f] *)
Definition registrar (m : Melhor * nat) (f : Q) : Melhor * nat :=
  if supera f m.1 then (Finito f, 0) else (m.1, m.2 + 1).

(** Their values after a fitness history, from the values [ini] at the start
    of the run *)
Definition apos_historico (ini : Melhor * nat) (hf : list Q) : Melhor * nat :=
  fold_left registrar hf ini.

(** A history that never decreases *)
Definition nao_decrescente (hf : list Q) : Prop :=
  forall i x y, hf !! i = Some x -> hf !! (S i) = Some y -> (x <= y)%Q.

(** The engine state after one generation has been evaluated and recorded *)
Definition motor_registrado (s : Motor) (melhor_atual : Cromossomo.t) : Motor :=
  let eu := AG.com_populacao (self s) (avaliada (self s) (AG.populacao (self s))) in
  let reg := registrar (AG.melhor_fitness eu, AG.geracoes_sem_melhoria eu)
                       (Cromossomo.fitness melhor_atual) in
  {| self := AG.com_melhor eu reg.1 reg.2; fonte := fonte s |}.

Definition historico_registrado (h : Historicos) (melhor_atual : Cromossomo.t)
  : Historicos :=
  {| h_fitness := h_fitness h ++ [Cromossomo.fitness melhor_atual];
     h_custo := h_custo h ++ [custo_de melhor_atual] |}.

(** Every entry of the history is matched or beaten by some candidate of the
    population. *)
Definition cobertos (eu : AG.t) (pop : list Cromossomo.t) (hf : list Q) : Prop :=
  forall f, f ∈ hf -> exists c, c ∈ pop /\ (f <= fitness_de eu c)%Q.

(** [m] is at least [y]: [y > m] is false. *)
Definition cobre (m : Melhor) (y : Q) : Prop := supera y m = false.

(** The no-improvement counter after a history *)
Definition contador_apos (ini : Melhor * nat) (hf : list Q) : nat :=
  (apos_historico ini hf).2.

(** The run was not halted by the stagnation rule before its last
    generation. *)
Definition sem_parada_antecipada (ini : Melhor * nat) (smax : nat)
    (hf : list Q) : Prop :=
  forall k, 0 < k < length hf -> contador_apos ini (take k hf) < smax.

(** The values of best-fitness-seen and of the counter held by an engine *)
Definition estado_de_parada (eu : AG.t) : Melhor * nat :=
  (AG.melhor_fitness eu, AG.geracoes_sem_melhoria eu).

(** One agent with two outbound options, a population of one candidate,
    [taxa_elite = 0.5] (so [int(0.5 * 1) = 0] elites) and [taxa_mutacao = 1];
    the tape makes the seeding pick the cheaper outbound option and the first
    mutation pick the dearer one. *)
Definition pessoa_duas_idas : Pessoa.t :=
  Pessoa.Build "P" "MAD" [ida_b; ida_a] [volta_a].

Definition motor_sem_elite : Motor :=
  {| self := AG.novo [pessoa_duas_idas] "FCO" 1 1 (1 # 2) 50 1 100 100;
     fonte := {| fita := fun n => if decide (n = 4) then 1%N else 0%N;
                 cursor := 0 |} |}.

(** Three agents, four candidates, two of them elite, a stagnation limit of
    three generations; on this tape the best fitness is -570, -570, then
    -510 four times. *)
Definition motor_com_elite : Motor :=
  {| self := AG.novo pessoas_exemplo "FCO" 4 (1 # 2) (1 # 2) 3 1 100 100;
     fonte := {| fita := fun n =>
                   (N.of_nat n * N.of_nat n * 2 + N.of_nat n * 7 + 2)%N;
                 cursor := 0 |} |}.

(** Two agents with one option per leg: every candidate is the same and the
    best fitness is constant. *)
Definition pessoa_unica (cidade : string) : Pessoa.t :=
  Pessoa.Build cidade cidade [ida_a] [volta_a].

Definition motor_constante (geracoes_sem_melhoria_max : nat) : Motor :=
  {| self := AG.novo [pessoa_unica "MAD"; pessoa_unica "LIS"] "FCO" 4
                     (1 # 10) (1 # 2) geracoes_sem_melhoria_max 1 100 100;
     fonte := fonte_zero |}.

(** A result other than out-of-fuel; a computation that never answers
    out-of-fuel. *)
Definition definido {A} (r : Res A) : Prop := r <> Esgotado.

Definition nunca_esgota {St A} (m : Comp St A) : Prop :=
  forall s, (m s).1 <> Esgotado.

(** One agent and the default parameters of the constructor *)
Definition motor_um_agente : Motor :=
  {| self := AG.novo [pessoa_exemplo "MAD"] "FCO" 100 (1 # 10) (5 # 100) 50
                     1 100 100;
     fonte := fonte_zero |}.

(** * Further properties: predicates *)

(** A selected parent is the candidate at its position in the population. *)
Definition pai_da_populacao (self : AG.t) (p : Pai) : Prop :=
  AG.populacao self !! p.1 = Some p.2.

(** Every agent has options for both legs. *)
Definition cardapios_completos (pessoas : list Pessoa.t) : Prop :=
  forall p, p ∈ pessoas -> ~ cardapio_vazio p.

(** A population of feasible candidates for the agents of the engine *)
Definition populacao_viavel (self : AG.t) (pop : list Cromossomo.t) : Prop :=
  forall c, c ∈ pop -> viavel (AG.pessoas self) (length (AG.pessoas self)) c.

(** The example engine with the two example parents as its population *)
Definition ag_com_pais : AG.t :=
  AG.com_populacao (ag_exemplo (1 # 10)) [pai_a; pai_b].

(** The genes chosen so far while seeding one candidate: as many as agents
    visited, each from the menus of the agent at its position. *)
Definition inv_semeadura (pessoas : list Pessoa.t) (k : nat)
    (sel : list Voo.t * list Voo.t) : Prop :=
  length sel.1 = k /\ length sel.2 = k /\
  genes_do_cardapio Pessoa.voos_ida pessoas sel.1 /\
  genes_do_cardapio Pessoa.voos_volta pessoas sel.2.

(** What seeding leaves in the engine: [tamanho_populacao] feasible
    candidates with the fitness of the constructor, nothing else changed. *)
Definition semeado (s s' : Motor) : Prop :=
  exists pop,
    self s' = AG.com_populacao (self s) pop /\
    length pop = AG.tamanho_populacao (self s) /\
    populacao_viavel (self s) pop /\
    forall c, c ∈ pop -> Cromossomo.fitness c = 0%Q.

(** The crossover named [tipo] returns on parents of [N] genes: only
    single-point and two-point crossover fail, on one gene. *)
Definition cruzamento_seguro (tipo : string) (N : nat) : Prop :=
  N <> 1 \/ (tipo <> "ponto_unico"%string /\ tipo <> "dois_pontos"%string).

(** The condition under which a generation can be built: a non-empty
    population of feasible candidates. *)
Definition pronto_para_evoluir (self : AG.t) : Prop :=
  AG.populacao self <> [] /\ populacao_viavel self (AG.populacao self).

(** The engine after one generation: [tamanho_populacao] feasible
    candidates, nothing else changed. *)
Definition geracao_seguinte (s s' : Motor) : Prop :=
  exists pop,
    self s' = AG.com_populacao (self s) pop /\
    length pop = AG.tamanho_populacao (self s) /\
    populacao_viavel (self s) pop.

(** An engine whose population is the two example parents *)
Definition motor_com_pais : Motor :=
  {| self := ag_com_pais; fonte := fonte_zero |}.

(** The conditions under which a whole run returns *)
Definition execucao_segura (s : Motor) (tipo : string) : Prop :=
  AG.pessoas (self s) <> [] /\
  cardapios_completos (AG.pessoas (self s)) /\
  1 <= AG.tamanho_populacao (self s) /\
  cruzamento_seguro tipo (length (AG.pessoas (self s))).

(** What a run returns: a feasible solution, member of the final
    population, and at least one history entry if a generation was allowed. *)
Definition execucao_bem_sucedida (s : Motor) (n : nat)
    (res : option Cromossomo.t * Historicos) (s' : Motor) : Prop :=
  exists sol,
    res.1 = Some sol /\
    viavel (AG.pessoas (self s)) (length (AG.pessoas (self s))) sol /\
    sol ∈ AG.populacao (self s') /\
    (1 <= n -> 1 <= length (h_fitness res.2)).

(** The threshold below which the reference fitness counts as zero *)
Definition quase_zero : Q := (1 # 1000000000)%Q.

(** The two tests of the convergence rule, without the division *)
Definition teste_absoluto (tol atual anterior : Q) : Prop :=
  (Qabs (atual - anterior) < tol * Qabs anterior + quase_zero)%Q.

Definition teste_relativo (tol atual anterior : Q) : Prop :=
  (Qabs (atual - anterior) < tol * Qabs anterior)%Q.

(** The convergence rule did not fire before the last generation. *)
Definition sem_convergencia_antecipada (hf : list Q) : Prop :=
  forall k, 0 < k < length hf ->
    criterio_parada_avancado (take k hf) janela_padrao tolerancia_padrao
    = Ok false.

(** The (outbound, return) pair a candidate holds at position [i] *)
Definition par_de (c : Cromossomo.t) (i : nat) : option (Voo.t * Voo.t) :=
  match Cromossomo.voos_ida c !! i, Cromossomo.voos_volta c !! i with
  | Some a, Some b => Some (a, b)
  | _, _ => None
  end.

(** At position [i] child 1 holds the pair of parent 1 and child 2 that of
    parent 2 ([de_pai1 = true]), or the other way round. *)
Definition troca_em (pai1 pai2 : Cromossomo.t)
    (fs : Cromossomo.t * Cromossomo.t) (i : nat) (de_pai1 : bool) : Prop :=
  par_de fs.1 i = (if de_pai1 then par_de pai1 i else par_de pai2 i) /\
  par_de fs.2 i = (if de_pai1 then par_de pai2 i else par_de pai1 i).

Definition comprimentos (N : nat) (fs : Cromossomo.t * Cromossomo.t) : Prop :=
  length (Cromossomo.voos_ida fs.1) = N /\
  length (Cromossomo.voos_volta fs.1) = N /\
  length (Cromossomo.voos_ida fs.2) = N /\
  length (Cromossomo.voos_volta fs.2) = N.

(** The children of a cut at [corte]: child 1 is parent 1 before the cut and
    parent 2 from the cut on, child 2 the reverse. *)
Definition cortados_em (pai1 pai2 : Cromossomo.t) (N corte : nat)
    (fs : Cromossomo.t * Cromossomo.t) : Prop :=
  comprimentos N fs /\
  forall i, i < N -> troca_em pai1 pai2 fs i (bool_decide (i < corte)).

(** The children of two cuts: child 1 is parent 1 outside [ponto1, ponto2)
    and parent 2 inside, child 2 the reverse. *)
Definition segmento_trocado (pai1 pai2 : Cromossomo.t) (N ponto1 ponto2 : nat)
    (fs : Cromossomo.t * Cromossomo.t) : Prop :=
  comprimentos N fs /\
  forall i, i < N ->
    troca_em pai1 pai2 fs i (negb (bool_decide (ponto1 <= i < ponto2))).

(** Position by position the children hold the two parents' pairs, one
    each. *)
Definition pares_trocados (pai1 pai2 : Cromossomo.t) (N : nat)
    (fs : Cromossomo.t * Cromossomo.t) : Prop :=
  comprimentos N fs /\
  forall i, i < N -> exists de_pai1, troca_em pai1 pai2 fs i de_pai1.

Definition inv_pares (pai1 pai2 : Cromossomo.t) (k : nat) (f : Filhos) : Prop :=
  pares_trocados pai1 pai2 k (fechar f).

(** The value that the [i]-th call of [random.random()] from [r] returns *)
Definition sorteio (r : Fonte) (i : nat) : Q :=
  (Z.of_N (fita r (cursor r + i) mod 2 ^ 53) # 2 ^ 53)%Q.

(** After [k] calls the source has advanced by [k] draws. *)
Definition avancou (r : Fonte) (k : nat) (r' : Fonte) : Prop :=
  fita r' = fita r /\ cursor r' = cursor r + k.

(** The children of the uniform crossover: the [i]-th draw decides position
    [i], below one half for parent 1 in child 1. *)
Definition trocados_por_sorteio (pai1 pai2 : Cromossomo.t) (r : Fonte)
    (k : nat) (fs : Cromossomo.t * Cromossomo.t) : Prop :=
  comprimentos k fs /\
  forall i, i < k -> troca_em pai1 pai2 fs i (Qltb (sorteio r i) meio).

(** [d] is the spread, in seconds, of the outbound arrivals of a candidate:
    latest minus earliest. *)
Definition amplitude_chegada (c : Cromossomo.t) (d : Z) : Prop :=
  exists ultimo primeiro,
    maximo ultimo (Voo.horario_chegada <$> Cromossomo.voos_ida c) /\
    minimo primeiro (Voo.horario_chegada <$> Cromossomo.voos_ida c) /\
    d = (ultimo - primeiro)%Z.

(** The return lists of the schedule crossover after [k] positions: the
    [i]-th draw decides position [i], below one half for parent 1 in
    child 1. *)
Definition voltas_por_sorteio (pai1 pai2 : Cromossomo.t) (r : Fonte)
    (k : nat) (f : list Voo.t * list Voo.t) : Prop :=
  length f.1 = k /\ length f.2 = k /\
  forall i, i < k ->
    f.1 !! i = (if Qltb (sorteio r i) meio then Cromossomo.voos_volta pai1 !! i
                else Cromossomo.voos_volta pai2 !! i) /\
    f.2 !! i = (if Qltb (sorteio r i) meio then Cromossomo.voos_volta pai2 !! i
                else Cromossomo.voos_volta pai1 !! i).

(** The children of the schedule crossover *)
Definition filhos_por_horario (pai1 pai2 : Cromossomo.t) (r : Fonte) (N : nat)
    (fs : Cromossomo.t * Cromossomo.t) : Prop :=
  (exists d1 d2,
     amplitude_chegada pai1 d1 /\ amplitude_chegada pai2 d2 /\
     Cromossomo.voos_ida fs.1
     = (if decide (d1 <= d2)%Z then Cromossomo.voos_ida pai1
        else Cromossomo.voos_ida pai2) /\
     Cromossomo.voos_ida fs.2
     = (if decide (d1 <= d2)%Z then Cromossomo.voos_ida pai2
        else Cromossomo.voos_ida pai1)) /\
  voltas_por_sorteio pai1 pai2 r N
    (Cromossomo.voos_volta fs.1, Cromossomo.voos_volta fs.2).

(** Two candidates with the same genes (their stored fitness may differ) *)
Definition mesmos_genes (a b : Cromossomo.t) : Prop :=
  Cromossomo.voos_ida b = Cromossomo.voos_ida a /\
  Cromossomo.voos_volta b = Cromossomo.voos_volta a.

(** All the instants of a list coincide. *)
Definition mesmo_instante (l : list Z) : Prop :=
  forall x y, x ∈ l -> y ∈ l -> x = y.

(** Minus the weighted total price of a candidate *)
Definition menos_custo_ponderado (self : AG.t) (c : Cromossomo.t) : Q :=
  (- (AG.peso_custo self
      * (soma_precos (Cromossomo.voos_ida c)
         + soma_precos (Cromossomo.voos_volta c))))%Q.

(** [pop'] is [pop] with every candidate's fitness replaced by the value
    [calcular_fitness] gives it: same order, same genes. *)
Definition reavaliada (self : AG.t) (pop pop' : list Cromossomo.t) : Prop :=
  length pop' = length pop /\
  forall i c, pop !! i = Some c ->
    exists c', pop' !! i = Some c' /\ mesmos_genes c c' /\
               calcular_fitness self c = Ok (Cromossomo.fitness c').

(** A population ranked by stored fitness, best first *)
Definition decrescente (l : list Cromossomo.t) : Prop :=
  forall i j x y, i < j -> l !! i = Some x -> l !! j = Some y ->
    (Cromossomo.fitness y <= Cromossomo.fitness x)%Q.

(** The front of the new population [nova] is the front of the ranking
    [ord]: the first [e] ranks, as far as the population size allows. *)
Definition elite_mantida (e tamanho : nat) (ord nova : list Cromossomo.t)
  : Prop :=
  forall i c, i < e -> i < tamanho -> ord !! i = Some c -> nova !! i = Some c.

(** An engine with the two example parents as population and half of the
    four places reserved for the elite *)
Definition motor_elite_pais : Motor :=
  {| self := AG.com_populacao
               (AG.novo pessoas_exemplo "FCO" 4 (1 # 10) (1 # 2) 50 1 100 100)
               [pai_a; Cromossomo.com_fitness pai_b 5];
     fonte := fonte_zero |}.

(** [i] is the first position of [x] in [l]: what [l.index(x)] returns. *)
Definition primeira_posicao (l : list Z) (x : Z) (i : nat) : Prop :=
  l !! i = Some x /\ forall j, j < i -> l !! j <> Some x.

(** The outbound repair of [mutacao_inteligente]: the arrivals are more than
    one hour apart and the gene of the first agent with the latest arrival
    is replaced by an option of that agent that arrives strictly earlier. *)
Definition reparo_ida (self : AG.t) (c c' : Cromossomo.t) : Prop :=
  let h := Voo.horario_chegada <$> Cromossomo.voos_ida c in
  exists idx v ultimo p,
    maximo ultimo h /\ excede_uma_hora h /\ primeira_posicao h ultimo idx /\
    AG.pessoas self !! idx = Some p /\ v ∈ Pessoa.voos_ida p /\
    (Voo.horario_chegada v < ultimo)%Z /\
    Cromossomo.voos_ida c' = <[idx := v]> (Cromossomo.voos_ida c).

(** The return repair: the departures are more than one hour apart and the
    gene of the first agent with the earliest departure is replaced by an
    option of that agent that departs strictly later. *)
Definition reparo_volta (self : AG.t) (c c' : Cromossomo.t) : Prop :=
  let h := Voo.horario_saida <$> Cromossomo.voos_volta c in
  exists idx v primeiro p,
    minimo primeiro h /\ excede_uma_hora h /\ primeira_posicao h primeiro idx /\
    AG.pessoas self !! idx = Some p /\ v ∈ Pessoa.voos_volta p /\
    (primeiro < Voo.horario_saida v)%Z /\
    Cromossomo.voos_volta c' = <[idx := v]> (Cromossomo.voos_volta c).

(** What [mutacao_inteligente] does when its random pass is switched off *)
Definition reparado (self : AG.t) (c c' : Cromossomo.t) : Prop :=
  (Cromossomo.voos_ida c' = Cromossomo.voos_ida c \/ reparo_ida self c c') /\
  (Cromossomo.voos_volta c' = Cromossomo.voos_volta c \/
   reparo_volta self c c') /\
  Cromossomo.fitness c' = Cromossomo.fitness c.

(** A candidate whose arrivals and departures are three hours apart *)
Definition candidato_espalhado : Cromossomo.t :=
  Cromossomo.novo [ida_a; ida_a; ida_b] [volta_a; volta_b; volta_b].

(** A result that is a value satisfying [P] or an [IndexError] *)
Definition ok_ou_indice {St A} (P : A -> Prop) (res : Res A * St) : Prop :=
  match res.1 with
  | Ok a => P a
  | Levanta e => e = IndexError
  | Esgotado => False
  end.

(** A candidate with four outbound genes, one more than the example agents *)
Definition candidato_longo : Cromossomo.t :=
  Cromossomo.novo [ida_a; ida_a; ida_b; ida_b]
                  [volta_a; volta_b; volta_b; volta_a].

(** ** The loader *)

(** The flights that the lines of a file yield, in file order *)
Definition voos_do_arquivo (arquivo : list Linha) : list Voo.t :=
  omap construir_voo arquivo.

(** A flight departs on the base day and lands after it departs, at most a
    day later. *)
Definition voo_bem_formado (v : Voo.t) : Prop :=
  (0 <= Voo.horario_saida v < um_dia)%Z /\
  (Voo.horario_saida v < Voo.horario_chegada v)%Z /\
  (Voo.horario_chegada v <= Voo.horario_saida v + um_dia)%Z.

(** An outbound option of [cidade]: from [cidade] to the meeting place *)
Definition e_ida (destino cidade : string) (v : Voo.t) : bool :=
  String.eqb (Voo.destino v) destino && String.eqb (Voo.origem v) cidade.

(** A return option of [cidade]: from the meeting place to [cidade], which
    is not the meeting place *)
Definition e_volta (destino cidade : string) (v : Voo.t) : bool :=
  negb (String.eqb (Voo.destino v) destino)
  && String.eqb (Voo.origem v) destino
  && String.eqb (Voo.destino v) cidade.

Definition idas_de (destino cidade : string) (voos : list Voo.t)
  : list Voo.t :=
  List.filter (e_ida destino cidade) voos.

Definition voltas_de (destino cidade : string) (voos : list Voo.t)
  : list Voo.t :=
  List.filter (e_volta destino cidade) voos.

(** [cidade] is an end point of one of the flights. *)
Definition citada (cidade : string) (voos : list Voo.t) : bool :=
  existsb (fun v => String.eqb (Voo.origem v) cidade
                    || String.eqb (Voo.destino v) cidade) voos.

(** [d.get(k)] *)
Fixpoint obter (d : Agrupados) (k : string) : option Grupo :=
  match d with
  | [] => None
  | (k', g) :: d' => if String.eqb k' k then Some g else obter d' k
  end.

Definition grupo_de (destino cidade : string) (voos : list Voo.t) : Grupo :=
  {| g_ida := idas_de destino cidade voos;
     g_volta := voltas_de destino cidade voos |}.

(** The dictionary holds one entry per city that is an end point of a
    flight, with that city's outbound and return options in file order. *)
Definition agrupado (destino : string) (voos : list Voo.t) (d : Agrupados)
  : Prop :=
  NoDup d.*1 /\
  forall k, obter d k = if citada k voos then Some (grupo_de destino k voos)
                        else None.

(** The agent built for a city *)
Definition pessoa_de (destino cidade : string) (voos : list Voo.t)
  : Pessoa.t :=
  Pessoa.Build (String.append "Pessoa_" cidade) cidade
               (idas_de destino cidade voos) (voltas_de destino cidade voos).

(** A city gets an agent: it is not the meeting place and has options for
    both legs. *)
Definition tem_pessoa (destino : string) (voos : list Voo.t)
    (cidade : string) : Prop :=
  cidade <> destino /\ idas_de destino cidade voos <> [] /\
  voltas_de destino cidade voos <> [].

(** A file of four flights between Madrid, Lisbon and Rome, a comment line
    and a line with an hour out of range *)
Definition arquivo_exemplo : list Linha :=
  [ Campos "MAD" "FCO" 11 1 12 39 260;
    Ignorada;
    Campos "FCO" "MAD" 23 30 1 45 180;
    Campos "LIS" "FCO" 25 0 12 0 99;
    Campos "LIS" "FCO" 9 15 13 5 150;
    Campos "FCO" "LIS" 18 0 20 10 170 ].

Definition carregador : AG.t := AG.novo [] "FCO" 100 (1 # 10) (5 # 100) 50 1 100 100.

(** ** The generations of a run *)

(** The fittest candidate of the population of [a] once evaluated: what
    [max(self.populacao, key=...)] returns after [avaliar_populacao] *)
Definition melhor_da_geracao (a : Motor) (m : Cromossomo.t) : Prop :=
  py_max_por Cromossomo.fitness (avaliada (self a) (AG.populacao (self a)))
  = Ok m.

(** The generations a run executed: the engine at the start of each one,
    paired with the fittest candidate of its population; each generation but
    the first is built by [evoluir_geracao] from the one before. *)
Definition geracoes_encadeadas (tipo : string) (mut : bool)
    (regs : list (Motor * Cromossomo.t)) : Prop :=
  (forall k r, regs !! k = Some r -> melhor_da_geracao r.1 r.2) /\
  forall k r r', regs !! k = Some r -> regs !! S k = Some r' ->
    evoluir_geracao tipo mut (motor_registrado r.1 r.2) = (Ok tt, r'.1).

(** The engine when the loop is left: unchanged if no generation ran; else
    the last generation as recorded (a stopping rule held), or one more
    population built after the last of [n] generations. *)
Definition estado_ao_sair (tipo : string) (mut : bool) (n : nat)
    (s : Motor) (regs : list (Motor * Cromossomo.t)) (s2 : Motor) : Prop :=
  match last regs with
  | None => s2 = s
  | Some r =>
      s2 = motor_registrado r.1 r.2 \/
      (length regs = n /\
       evoluir_geracao tipo mut (motor_registrado r.1 r.2) = (Ok tt, s2))
  end.

(** The histories hold one entry per generation executed: the fitness of
    its fittest candidate and the total price of that candidate. *)
Definition historicos_completos (regs : list (Motor * Cromossomo.t))
    (h : Historicos) : Prop :=
  h_fitness h = (fun r => Cromossomo.fitness r.2) <$> regs /\
  h_custo h = (fun r => custo_de r.2) <$> regs.

(** The agent [criar_pessoa] adds for an item of the dictionary, if any *)
Definition pessoa_do_item (destino : string) (item : string * Grupo)
  : option Pessoa.t :=
  if negb (String.eqb item.1 destino)
     && (negb (vazia (g_ida item.2)) && negb (vazia (g_volta item.2)))
  then Some (Pessoa.Build (String.append "Pessoa_" item.1) item.1
                          (g_ida item.2) (g_volta item.2))
  else None.

(** The agents that the loader builds from a file *)
Definition pessoas_carregadas (destino : string) (voos : list Voo.t)
    (pessoas : list Pessoa.t) : Prop :=
  NoDup (Pessoa.origem_cidade <$> pessoas) /\
  forall p, p ∈ pessoas <->
    exists cidade, tem_pessoa destino voos cidade /\
                   p = pessoa_de destino cidade voos.



Definition config_vazia : Config :=
  Build_Config None None None None None None None None None None None.

(** * Properties *)

(** ** Loops *)

Section Lacos.
Context {St A B : Type}.
Variable f : A -> B -> Comp St B.
Variable I : nat -> B -> Prop.

(** A loop whose every step returns and keeps the invariant returns, with
    the invariant at the number of iterations. *)
Lemma para_total (xs : list A) :
  forall (k : nat) (acc : B) (s : St),
    I k acc ->
    (forall j x b s0, xs !! j = Some x -> I (k + j) b ->
       exists b' s1, f x b s0 = (Ok b', s1) /\ I (S (k + j)) b') ->
    exists b' s', para xs f acc s = (Ok b', s') /\ I (k + length xs) b'.
Proof.
  induction xs as [|x xs IH]; intros k acc s HI Hp; simpl.
  - exists acc, s. rewrite Nat.add_0_r. done.
  - destruct (Hp 0 x acc s eq_refl) as (b1 & s1 & E1 & H1).
    { by rewrite Nat.add_0_r. }
    unfold bind. rewrite E1.
    rewrite Nat.add_0_r in H1.
    destruct (IH (S k) b1 s1 H1) as (b' & s' & E & H').
    { intros j y b s0 Hj Hb.
      replace (S k + j) with (k + S j) in * by lia.
      by apply (Hp (S j) y b s0 Hj). }
    exists b', s'. split; [done|].
    by replace (k + S (length xs)) with (S k + length xs) by lia.
Qed.

(** Partial version: whenever the loop returns, the invariant holds. *)
Lemma para_inv (xs : list A) :
  forall (k : nat) (acc : B) (s : St) b' s',
    I k acc ->
    (forall j x b s0 b1 s1, xs !! j = Some x -> I (k + j) b ->
       f x b s0 = (Ok b1, s1) -> I (S (k + j)) b1) ->
    para xs f acc s = (Ok b', s') -> I (k + length xs) b'.
Proof.
  induction xs as [|x xs IH]; intros k acc s b' s' HI Hp; simpl.
  - intros [= <- <-]. by rewrite Nat.add_0_r.
  - unfold bind. destruct (f x acc s) as [[b1| |] s1] eqn:E1; try done.
    intros E.
    replace (k + S (length xs)) with (S k + length xs) by lia.
    apply (IH (S k) b1 s1 b' s'); [| |done].
    + specialize (Hp 0 x acc s b1 s1 eq_refl).
      rewrite Nat.add_0_r in Hp. by apply Hp.
    + intros j y b s0 b2 s2 Hj Hb Hf.
      replace (S k + j) with (k + S j) in * by lia.
      by apply (Hp (S j) y b s0 b2 s2).
Qed.
End Lacos.

Lemma lookup_seq_0 (n j x : nat) : seq 0 n !! j = Some x -> x = j /\ j < n.
Proof. intros H. apply lookup_seq in H. lia. Qed.

Lemma py_index_Ok {A} (l : list A) (i : nat) (x : A) :
  py_index l i = Ok x <-> l !! i = Some x.
Proof. unfold py_index. destruct (l !! i); split; congruence. Qed.

Lemma py_index_lt {A} (l : list A) (i : nat) :
  i < length l -> exists x, l !! i = Some x /\ py_index l i = Ok x.
Proof.
  intros H. destruct (lookup_lt_is_Some_2 l i H) as [x Hx].
  exists x. split; [done|]. by apply py_index_Ok.
Qed.

Lemma Qleb_le (x y : Q) : Qleb x y = true <-> (x <= y)%Q.
Proof. apply Qle_bool_iff. Qed.

Lemma Qleb_gt (x y : Q) : Qleb x y = false -> (y < x)%Q.
Proof.
  intros H. apply Qnot_le_lt. intros Hle.
  apply Qleb_le in Hle. congruence.
Qed.

Lemma Qltb_lt (x y : Q) : Qltb x y = true <-> (x < y)%Q.
Proof. unfold Qltb, Qlt. apply Z.ltb_lt. Qed.

Lemma Qltb_ge (x y : Q) : Qltb x y = false <-> (y <= x)%Q.
Proof. unfold Qltb, Qle. apply Z.ltb_ge. Qed.

(** ** Cost-greedy crossover *)

Lemma gene_por_custo_app p1 p2 f1 f2 a b i :
  gene_por_custo p1 p2 f1 f2 i ->
  gene_por_custo p1 p2 (f1 ++ [a]) (f2 ++ [b]) i.
Proof.
  intros (x & y & a' & b' & H1 & H2 & H3 & H4 & H5).
  exists x, y, a', b'. repeat split; try done.
  - by apply lookup_app_l_Some.
  - by apply lookup_app_l_Some.
  - apply H5.
  - apply H5.
Qed.

Lemma lookup_snoc {A} (l : list A) (x : A) : (l ++ [x]) !! length l = Some x.
Proof. rewrite lookup_app_r by lia. by rewrite Nat.sub_diag. Qed.

Lemma gene_por_custo_novo p1 p2 f1 f2 x y a b j :
  length f1 = j -> length f2 = j ->
  p1 !! j = Some x -> p2 !! j = Some y ->
  troca_por_custo x y a b ->
  gene_por_custo p1 p2 (f1 ++ [a]) (f2 ++ [b]) j.
Proof.
  intros L1 L2 H1 H2 Ht. exists x, y, a, b.
  repeat split; try done; try apply Ht.
  - subst j. apply lookup_snoc.
  - rewrite <- L2. apply lookup_snoc.
Qed.

Lemma passo_custo_inv (pai1 pai2 : Cromossomo.t) (N j : nat) (f : Filhos) :
  length (Cromossomo.voos_ida pai1) = N ->
  length (Cromossomo.voos_ida pai2) = N ->
  length (Cromossomo.voos_volta pai1) = N ->
  length (Cromossomo.voos_volta pai2) = N ->
  j < N ->
  inv_custo pai1 pai2 j f ->
  exists f', passo_custo pai1 pai2 j f = Ok f' /\ inv_custo pai1 pai2 (S j) f'.
Proof.
  intros L1 L2 L3 L4 Hj (K1 & K2 & K3 & K4 & Hg).
  unfold passo_custo.
  destruct (py_index_lt (Cromossomo.voos_ida pai1) j) as (x1 & X1 & ->); [lia|].
  destruct (py_index_lt (Cromossomo.voos_ida pai2) j) as (x2 & X2 & ->); [lia|].
  destruct (py_index_lt (Cromossomo.voos_volta pai1) j) as (y1 & Y1 & ->); [lia|].
  destruct (py_index_lt (Cromossomo.voos_volta pai2) j) as (y2 & Y2 & ->); [lia|].
  assert (Hle : forall a b, Qleb (Voo.preco a) (Voo.preco b) = false ->
                            (Voo.preco b <= Voo.preco a)%Q).
  { intros a b H. by apply Qlt_le_weak, Qleb_gt. }
  destruct (Qleb (Voo.preco x1) (Voo.preco x2)) eqn:Ex;
    destruct (Qleb (Voo.preco y1) (Voo.preco y2)) eqn:Ey;
    eexists; (split; [reflexivity|]);
    unfold inv_custo; simpl; rewrite !length_app; simpl;
    (repeat split; try lia);
    (destruct (decide (i = j)) as [->|Hne];
      [ | apply gene_por_custo_app, Hg; lia ]).
  all: try apply Qleb_le in Ex; try apply Qleb_le in Ey.
  all: try apply Hle in Ex; try apply Hle in Ey.
  all: eapply gene_por_custo_novo; eauto; unfold troca_por_custo; eauto.
Qed.

Lemma cruzamento_baseado_custo_devolve
    (pai1 pai2 : Cromossomo.t) (N : nat) (r : Fonte) :
  N <> 0 ->
  length (Cromossomo.voos_ida pai1) = N ->
  length (Cromossomo.voos_ida pai2) = N ->
  length (Cromossomo.voos_volta pai1) = N ->
  length (Cromossomo.voos_volta pai2) = N ->
  exists f, cruzamento_baseado_custo pai1 pai2 r = (Ok (fechar f), r) /\
            inv_custo pai1 pai2 N f.
Proof.
  intros HN L1 L2 L3 L4. unfold cruzamento_baseado_custo.
  rewrite L1. destruct (decide (N = 0)) as [->|_]; [lia|].
  assert (Hp : forall xs k f, (forall j x, xs !! j = Some x -> x = k + j /\ x < N) ->
             inv_custo pai1 pai2 k f ->
             exists f', para xs (fun i f0 => de_res (passo_custo pai1 pai2 i f0)) f r
                        = (Ok f', r) /\ inv_custo pai1 pai2 (k + length xs) f').
  { induction xs as [|x xs IH]; intros k f Hxs Hinv; simpl.
    - exists f. by rewrite Nat.add_0_r.
    - destruct (Hxs 0 x eq_refl) as [-> Hx]. rewrite Nat.add_0_r in *.
      destruct (passo_custo_inv pai1 pai2 N k f L1 L2 L3 L4 Hx Hinv)
        as (f1 & E1 & H1).
      unfold bind, de_res. rewrite E1.
      destruct (IH (S k) f1) as (f' & E & H'); [|done|].
      { intros j y Hj. specialize (Hxs (S j) y Hj). lia. }
      exists f'. split; [done|].
      by replace (k + S (length xs)) with (S k + length xs) by lia. }
  destruct (Hp (seq 0 N) 0 filhos_iniciais) as (f' & E & Hinv).
  { intros j x Hj. apply lookup_seq_0 in Hj. lia. }
  { unfold inv_custo; simpl. repeat split; try done; lia. }
  exists f'. unfold bind. rewrite E. simpl.
  split; [done|]. by rewrite length_seq in Hinv.
Qed.

(** C8. For parents whose four gene lists have the same length N >= 1,
    cost-greedy crossover returns two children which, at every position and
    for each leg, carry exactly the two parents' options at that position and
    leg, child 1 holding one whose cost is at most that of child 2's.  No
    random draw is consumed. *)
Theorem cruzamento_baseado_custo_correto
    (pai1 pai2 : Cromossomo.t) (N : nat) (r : Fonte) :
  1 <= N ->
  length (Cromossomo.voos_ida pai1) = N ->
  length (Cromossomo.voos_ida pai2) = N ->
  length (Cromossomo.voos_volta pai1) = N ->
  length (Cromossomo.voos_volta pai2) = N ->
  exists filho1 filho2,
    cruzamento_baseado_custo pai1 pai2 r = (Ok (filho1, filho2), r) /\
    forall i, i < N ->
      gene_por_custo (Cromossomo.voos_ida pai1) (Cromossomo.voos_ida pai2)
        (Cromossomo.voos_ida filho1) (Cromossomo.voos_ida filho2) i /\
      gene_por_custo (Cromossomo.voos_volta pai1) (Cromossomo.voos_volta pai2)
        (Cromossomo.voos_volta filho1) (Cromossomo.voos_volta filho2) i.
Proof.
  intros HN L1 L2 L3 L4.
  destruct (cruzamento_baseado_custo_devolve pai1 pai2 N r)
    as (f & E & (_ & _ & _ & _ & Hg)); try done; [lia|].
  exists (fechar f).1, (fechar f).2. split; [done|].
  intros i Hi. by apply Hg.
Qed.

Lemma cruzamento_baseado_custo_correto_witness :
  let pai1 := Cromossomo.novo
                [voo_de 0 3600 100; voo_de 0 7200 300; voo_de 0 3600 50]
                [voo_de 0 3600 10; voo_de 0 3600 20; voo_de 0 3600 30] in
  let pai2 := Cromossomo.novo
                [voo_de 0 3600 200; voo_de 0 7200 150; voo_de 0 3600 50]
                [voo_de 0 3600 30; voo_de 0 3600 20; voo_de 0 3600 10] in
  exists filho1 filho2,
    cruzamento_baseado_custo pai1 pai2 {| fita := fun _ => 0%N; cursor := 0 |}
      = (Ok (filho1, filho2), {| fita := fun _ => 0%N; cursor := 0 |}) /\
    forall i, i < 3 ->
      gene_por_custo (Cromossomo.voos_ida pai1) (Cromossomo.voos_ida pai2)
        (Cromossomo.voos_ida filho1) (Cromossomo.voos_ida filho2) i /\
      gene_por_custo (Cromossomo.voos_volta pai1) (Cromossomo.voos_volta pai2)
        (Cromossomo.voos_volta filho1) (Cromossomo.voos_volta filho2) i.
Proof.
  intros pai1 pai2.
  apply (cruzamento_baseado_custo_correto pai1 pai2 3); simpl; lia.
Defined.

(** ** Rules for computations that return *)

Lemma devolve_ret {St A} (a : A) (s : St) (P : A -> St -> Prop) :
  P a s -> devolve (ret a) s P.
Proof. intros H. by exists a, s. Qed.

Lemma devolve_bind {St A B} (m : Comp St A) (k : A -> Comp St B) (s : St)
    (P : A -> St -> Prop) (Q : B -> St -> Prop) :
  devolve m s P ->
  (forall a s', P a s' -> devolve (k a) s' Q) ->
  devolve (bind m k) s Q.
Proof.
  intros (a & s' & E & HP) Hk. unfold devolve, bind. rewrite E.
  by apply Hk.
Qed.

Lemma devolve_mono {St A} (m : Comp St A) (s : St) (P Q : A -> St -> Prop) :
  devolve m s P -> (forall a s', P a s' -> Q a s') -> devolve m s Q.
Proof. intros (a & s' & E & HP) H. exists a, s'. auto. Qed.

Lemma devolve_de_res {St A} (r : Res A) (a : A) (s : St) (P : A -> St -> Prop) :
  r = Ok a -> P a s -> devolve (de_res r) s P.
Proof. intros -> H. by exists a, s. Qed.

Lemma devolve_para {St A B} (f : A -> B -> Comp St B) (I : nat -> B -> Prop)
    (xs : list A) (acc : B) (s : St) :
  I 0 acc ->
  (forall j x b s0, xs !! j = Some x -> I j b ->
     devolve (f x b) s0 (fun b' _ => I (S j) b')) ->
  devolve (para xs f acc) s (fun b' _ => I (length xs) b').
Proof.
  intros H0 Hp.
  destruct (para_total f I xs 0 acc s H0) as (b' & s' & E & H).
  - intros j x b s0 Hj Hb. destruct (Hp j x b s0 Hj Hb) as (b1 & s1 & E1 & H1).
    by exists b1, s1.
  - by exists b', s'.
Qed.

(** ** The random primitives return *)

Lemma sortear_devolve (r : Fonte) : devolve sortear r (fun _ r' => fita r' = fita r).
Proof. by eexists _, _. Qed.

Lemma random_random_devolve (r : Fonte) :
  devolve random_random r (fun q _ => (0 <= q)%Q /\ (q < 1)%Q).
Proof.
  unfold random_random. eapply devolve_bind; [apply sortear_devolve|].
  intros k s' _. apply devolve_ret.
  assert (H : (k mod 2 ^ 53 < 2 ^ 53)%N) by (apply N.mod_lt; discriminate).
  unfold Qle, Qlt; simpl.
  change (Z.pos (2 ^ 53)) with (Z.of_N (2 ^ 53)%N).
  generalize dependent (2 ^ 53)%N. intros m Hm.
  generalize dependent (k mod m)%N. intros n Hn. lia.
Qed.

Lemma random_choice_devolve {A} (l : list A) (r : Fonte) :
  l <> [] -> devolve (random_choice l) r (fun x _ => x ∈ l).
Proof.
  intros Hl. unfold random_choice. destruct l as [|a l]; [done|].
  eapply devolve_bind; [apply sortear_devolve|].
  intros k s' _.
  set (l' := a :: l).
  assert (Hlt : N.to_nat (k mod N.of_nat (length l')) < length l').
  { assert (N.of_nat (length l') <> 0%N) by (simpl; lia).
    pose proof (N.mod_lt k (N.of_nat (length l')) H). lia. }
  destruct (py_index_lt l' _ Hlt) as (x & Hx & E).
  eapply devolve_de_res; [exact E|].
  apply list_elem_of_lookup. eauto.
Qed.

Lemma random_randint_devolve (a b : Z) (r : Fonte) :
  (a <= b)%Z ->
  devolve (random_randint a b) r (fun z _ => (a <= z <= b)%Z).
Proof.
  intros Hab. unfold random_randint.
  destruct (decide (b < a)%Z); [lia|].
  eapply devolve_bind; [apply sortear_devolve|].
  intros k s' _. apply devolve_ret.
  pose proof (Z.mod_pos_bound (Z.of_N k) (b - a + 1)). lia.
Qed.

Lemma amostrar_devolve {A} (k : nat) :
  forall (urna : list A) (r : Fonte),
    k <= length urna ->
    devolve (amostrar k urna) r
      (fun xs _ => length xs = k /\ forall x, x ∈ xs -> x ∈ urna).
Proof.
  induction k as [|k IH]; intros urna r Hk; simpl.
  - apply devolve_ret. split; [done|]. intros x Hx. by apply elem_of_nil in Hx.
  - eapply devolve_bind; [apply sortear_devolve|].
    intros j s' _. simpl.
    assert (Hlt : N.to_nat (j mod N.of_nat (length urna)) < length urna).
    { assert (N.of_nat (length urna) <> 0%N) by lia.
      pose proof (N.mod_lt j (N.of_nat (length urna)) H). lia. }
    destruct (py_index_lt urna _ Hlt) as (x & Hx & E).
    eapply devolve_bind;
      [eapply (devolve_de_res _ _ _ (fun a _ => a = x)); [exact E|done]|].
    intros x' s1 ->.
    eapply devolve_bind.
    + apply IH. rewrite length_delete by eauto. lia.
    + intros xs s2 [Hlen Hin]. apply devolve_ret. split; [simpl; lia|].
      intros y Hy. apply elem_of_cons in Hy as [->|Hy].
      * apply list_elem_of_lookup. eauto.
      * eapply list_elem_of_delete_inv. by apply Hin.
Qed.

(** ** Crossovers keep candidates feasible *)

Lemma genes_mistura cardapio pessoas p1 p2 k f :
  genes_do_cardapio cardapio pessoas p1 ->
  genes_do_cardapio cardapio pessoas p2 ->
  mistura_parcial p1 p2 k f ->
  genes_do_cardapio cardapio pessoas f.
Proof.
  intros H1 H2 [_ Hm] i v Hv.
  destruct (Hm i v Hv); [by eapply H1 | by eapply H2].
Qed.

Lemma mistura_sym p1 p2 k f : mistura_parcial p1 p2 k f -> mistura_parcial p2 p1 k f.
Proof. intros [L H]. split; [done|]. intros i v Hv. destruct (H i v Hv); auto. Qed.

Lemma mistura_nil p1 p2 : mistura_parcial p1 p2 0 [].
Proof. split; [done|]. intros i v Hv. by rewrite lookup_nil in Hv. Qed.

Lemma mistura_refl p1 p2 : mistura p1 p2 p1.
Proof. split; [done|]. auto. Qed.

Lemma mistura_snoc p1 p2 k f v :
  mistura_parcial p1 p2 k f ->
  p1 !! k = Some v \/ p2 !! k = Some v ->
  mistura_parcial p1 p2 (S k) (f ++ [v]).
Proof.
  intros [L H] Hv. split; [rewrite length_app; simpl; lia|].
  intros i w Hw. apply lookup_app_Some in Hw as [Hw|[Hge Hw]]; [by apply H|].
  apply list_lookup_singleton_Some in Hw as [Hi ->].
  by replace i with k by lia.
Qed.

Lemma mistura_corte (p1 p2 : list Voo.t) (k : nat) :
  length p1 = length p2 -> k <= length p1 ->
  mistura p1 p2 (take k p1 ++ drop k p2).
Proof.
  intros L Hk. split.
  - rewrite length_app, length_take_le, length_drop by done. lia.
  - intros i v Hv. apply lookup_app_Some in Hv as [Hv|[Hge Hv]].
    + left. by apply lookup_take_Some in Hv as [Hv _].
    + right. rewrite lookup_drop, length_take_le in Hv by done.
      by replace (k + (i - k)) with i in Hv by (rewrite length_take_le in Hge; lia).
Qed.

Lemma mistura_tres (x y : list Voo.t) (a b : nat) :
  length x = length y -> a <= b -> b <= length x ->
  mistura x y (take a x ++ py_slice y a b ++ drop b x).
Proof.
  intros L Hab Hb. unfold py_slice. split.
  - rewrite !length_app, length_take_le, length_take_le, length_drop;
      rewrite ?length_drop; lia.
  - intros i v Hv. apply lookup_app_Some in Hv as [Hv|[Hge Hv]].
    + left. by apply lookup_take_Some in Hv as [Hv _].
    + rewrite length_take_le in Hge, Hv by lia.
      apply lookup_app_Some in Hv as [Hv|[Hge' Hv]].
      * right. apply lookup_take_Some in Hv as [Hv _].
        rewrite lookup_drop in Hv.
        by replace (a + (i - a)) with i in Hv by lia.
      * left. rewrite length_take_le in Hge', Hv by (rewrite length_drop; lia).
        rewrite lookup_drop in Hv.
        by replace (b + (i - a - (b - a))) with i in Hv by lia.
Qed.

Lemma mistura_corte' (p1 p2 : list Voo.t) (k : nat) :
  length p1 = length p2 -> k <= length p1 ->
  mistura p1 p2 (take k p2 ++ drop k p1).
Proof.
  intros L Hk. unfold mistura. rewrite L. apply mistura_sym.
  apply mistura_corte; lia.
Qed.

Lemma mistura_tres' (x y : list Voo.t) (a b : nat) :
  length x = length y -> a <= b -> b <= length x ->
  mistura x y (take a y ++ py_slice x a b ++ drop b y).
Proof.
  intros L Hab Hb. unfold mistura. rewrite L. apply mistura_sym.
  apply mistura_tres; lia.
Qed.

Lemma filhos_vazios_misturados (pai1 pai2 : Cromossomo.t) :
  length (Cromossomo.voos_ida pai1) = 0 ->
  length (Cromossomo.voos_volta pai1) = 0 ->
  filhos_misturados pai1 pai2 filhos_vazios.
Proof.
  intros L1 L2. unfold filhos_misturados, mistura. rewrite L1, L2. simpl.
  repeat split; apply mistura_nil.
Qed.

Section Cruzamentos.
Variables (pai1 pai2 : Cromossomo.t) (N : nat).
Hypothesis L1 : length (Cromossomo.voos_ida pai1) = N.
Hypothesis L2 : length (Cromossomo.voos_ida pai2) = N.
Hypothesis L3 : length (Cromossomo.voos_volta pai1) = N.
Hypothesis L4 : length (Cromossomo.voos_volta pai2) = N.

Lemma cruzamento_ponto_unico_devolve (r : Fonte) :
  N <> 1 ->
  devolve (cruzamento_ponto_unico pai1 pai2) r
          (fun fs _ => filhos_misturados pai1 pai2 fs).
Proof.
  intros HN. unfold cruzamento_ponto_unico. rewrite L1.
  destruct (decide (N = 0)) as [->|H0].
  { apply devolve_ret. by apply filhos_vazios_misturados. }
  eapply devolve_bind; [apply random_randint_devolve; lia|].
  intros z s' Hz. cbv beta in Hz. apply devolve_ret.
  unfold filhos_misturados; simpl.
  split; [|split; [|split]];
    first [apply mistura_corte | apply mistura_corte']; lia.
Qed.

Lemma cruzamento_ponto_unico_levanta (r : Fonte) :
  N = 1 -> cruzamento_ponto_unico pai1 pai2 r = (Levanta ValueError, r).
Proof.
  intros ->. unfold cruzamento_ponto_unico. rewrite L1. reflexivity.
Qed.
End Cruzamentos.

Section CruzamentosPorGene.
Variables (pai1 pai2 : Cromossomo.t) (N : nat).
Hypothesis L1 : length (Cromossomo.voos_ida pai1) = N.
Hypothesis L2 : length (Cromossomo.voos_ida pai2) = N.
Hypothesis L3 : length (Cromossomo.voos_volta pai1) = N.
Hypothesis L4 : length (Cromossomo.voos_volta pai2) = N.

Lemma cruzamento_dois_pontos_devolve (r : Fonte) :
  N <> 1 ->
  devolve (cruzamento_dois_pontos pai1 pai2) r
          (fun fs _ => filhos_misturados pai1 pai2 fs).
Proof.
  intros HN. unfold cruzamento_dois_pontos. rewrite L1.
  destruct (decide (N < 3)) as [Hlt|Hge].
  { by apply (cruzamento_ponto_unico_devolve pai1 pai2 N). }
  eapply devolve_bind.
  { unfold random_sample. rewrite length_seq.
    destruct (decide (N - 1 < 2)); [lia|].
    apply amostrar_devolve. rewrite length_seq. lia. }
  intros xs s' [Hlen Hin]. cbv beta in *.
  destruct xs as [|a [|b [|c xs]]]; try done.
  assert (Ha : 1 <= a < N).
  { assert (H : a ∈ [a; b]) by (apply list_elem_of_In; simpl; auto).
    apply Hin, elem_of_seq in H. lia. }
  assert (Hb : 1 <= b < N).
  { assert (H : b ∈ [a; b]) by (apply list_elem_of_In; simpl; auto).
    apply Hin, elem_of_seq in H. lia. }
  apply devolve_ret. unfold filhos_misturados; simpl.
  split; [|split; [|split]];
    first [apply mistura_tres | apply mistura_tres']; lia.
Qed.

Lemma cruzamento_dois_pontos_levanta (r : Fonte) :
  N = 1 -> cruzamento_dois_pontos pai1 pai2 r = (Levanta ValueError, r).
Proof.
  intros ->. unfold cruzamento_dois_pontos. rewrite L1. simpl.
  by apply (cruzamento_ponto_unico_levanta pai1 pai2 1).
Qed.

Lemma inv_mistura_fechar (f : Filhos) :
  inv_mistura pai1 pai2 N f -> filhos_misturados pai1 pai2 (fechar f).
Proof.
  unfold inv_mistura, filhos_misturados, mistura. rewrite L1, L3. done.
Qed.

Lemma passo_uniforme_devolve (j : nat) (f : Filhos) (r : Fonte) :
  j < N -> inv_mistura pai1 pai2 j f ->
  devolve (passo_uniforme pai1 pai2 j f) r (fun f' _ => inv_mistura pai1 pai2 (S j) f').
Proof.
  intros Hj (H1 & H2 & H3 & H4). unfold passo_uniforme.
  eapply devolve_bind; [apply random_random_devolve|].
  intros q s' _.
  destruct (py_index_lt (Cromossomo.voos_ida pai1) j) as (x1 & X1 & E1); [lia|].
  destruct (py_index_lt (Cromossomo.voos_ida pai2) j) as (x2 & X2 & E2); [lia|].
  destruct (py_index_lt (Cromossomo.voos_volta pai1) j) as (y1 & Y1 & E3); [lia|].
  destruct (py_index_lt (Cromossomo.voos_volta pai2) j) as (y2 & Y2 & E4); [lia|].
  unfold bind, de_res, devolve. rewrite E1, E2, E3, E4.
  destruct (Qltb q meio); eexists _, _; (split; [reflexivity|]);
    unfold inv_mistura; simpl;
    (split; [|split; [|split]]); apply mistura_snoc; auto.
Qed.

Lemma cruzamento_uniforme_devolve (r : Fonte) :
  devolve (cruzamento_uniforme pai1 pai2) r
          (fun fs _ => filhos_misturados pai1 pai2 fs).
Proof.
  unfold cruzamento_uniforme. rewrite L1.
  destruct (decide (N = 0)) as [->|H0].
  { apply devolve_ret. by apply filhos_vazios_misturados. }
  eapply devolve_bind.
  - apply (devolve_para _ (inv_mistura pai1 pai2)).
    + repeat split; apply mistura_nil.
    + intros j x b s0 Hj Hb. apply lookup_seq_0 in Hj as [-> Hj].
      by apply passo_uniforme_devolve.
  - intros f s'. rewrite length_seq. intros Hf.
    apply devolve_ret. by apply inv_mistura_fechar.
Qed.

Lemma cruzamento_baseado_custo_mistura (r : Fonte) :
  devolve (cruzamento_baseado_custo pai1 pai2) r
          (fun fs _ => filhos_misturados pai1 pai2 fs).
Proof.
  destruct (decide (N = 0)) as [->|H0].
  { unfold cruzamento_baseado_custo. rewrite L1. simpl.
    apply devolve_ret. by apply filhos_vazios_misturados. }
  destruct (cruzamento_baseado_custo_devolve pai1 pai2 N r H0 L1 L2 L3 L4)
    as (f & E & K1 & K2 & K3 & K4 & Hg).
  exists (fechar f), r. split; [done|].
  apply inv_mistura_fechar.
  assert (Hm : forall p1 p2 f1 f2,
             length f1 = N -> length f2 = N ->
             (forall i, i < N -> gene_por_custo p1 p2 f1 f2 i) ->
             mistura_parcial p1 p2 N f1 /\ mistura_parcial p1 p2 N f2).
  { intros p1 p2 f1 f2 Lf1 Lf2 H.
    split; (split; [done|]); intros i v Hv;
      (assert (Hi : i < N) by (apply lookup_lt_Some in Hv; lia));
      destruct (H i Hi) as (x & y & a & b & Hx & Hy & Ha & Hb & _ & Hab);
      destruct Hab as [[-> ->]|[-> ->]]; rewrite Hv in *;
      simplify_eq; auto. }
  destruct (Hm (Cromossomo.voos_ida pai1) (Cromossomo.voos_ida pai2)
               (filho1_ida f) (filho2_ida f)) as [? ?]; try done.
  { intros i Hi. by apply Hg. }
  destruct (Hm (Cromossomo.voos_volta pai1) (Cromossomo.voos_volta pai2)
               (filho1_volta f) (filho2_volta f)) as [? ?]; try done.
  intros i Hi. by apply Hg.
Qed.
End CruzamentosPorGene.

Lemma span_horas_Ok (h : list Z) :
  h <> [] -> exists q, span_horas h = Ok q.
Proof. destruct h as [|x h]; [done|]. intros _. by eexists. Qed.

Section CruzamentoHorario.
Variables (pai1 pai2 : Cromossomo.t) (N : nat).
Hypothesis L1 : length (Cromossomo.voos_ida pai1) = N.
Hypothesis L2 : length (Cromossomo.voos_ida pai2) = N.
Hypothesis L3 : length (Cromossomo.voos_volta pai1) = N.
Hypothesis L4 : length (Cromossomo.voos_volta pai2) = N.

Lemma passo_volta_devolve (j : nat) (f : list Voo.t * list Voo.t) (r : Fonte) :
  j < N ->
  mistura_parcial (Cromossomo.voos_volta pai1) (Cromossomo.voos_volta pai2) j f.1 ->
  mistura_parcial (Cromossomo.voos_volta pai1) (Cromossomo.voos_volta pai2) j f.2 ->
  devolve (passo_volta pai1 pai2 j f) r
    (fun f' _ =>
       mistura_parcial (Cromossomo.voos_volta pai1) (Cromossomo.voos_volta pai2)
                       (S j) f'.1 /\
       mistura_parcial (Cromossomo.voos_volta pai1) (Cromossomo.voos_volta pai2)
                       (S j) f'.2).
Proof.
  intros Hj H1 H2. unfold passo_volta.
  eapply devolve_bind; [apply random_random_devolve|].
  intros q s' _.
  destruct (py_index_lt (Cromossomo.voos_volta pai1) j) as (y1 & Y1 & E3); [lia|].
  destruct (py_index_lt (Cromossomo.voos_volta pai2) j) as (y2 & Y2 & E4); [lia|].
  unfold bind, de_res, devolve. rewrite E3, E4.
  destruct (Qltb q meio); eexists _, _; (split; [reflexivity|]); simpl;
    split; apply mistura_snoc; auto.
Qed.

Lemma cruzamento_baseado_horario_devolve (r : Fonte) :
  devolve (cruzamento_baseado_horario pai1 pai2) r
          (fun fs _ => filhos_misturados pai1 pai2 fs).
Proof.
  unfold cruzamento_baseado_horario. rewrite L1.
  destruct (decide (N = 0)) as [->|H0].
  { apply devolve_ret. by apply filhos_vazios_misturados. }
  destruct (Voo.horario_chegada <$> Cromossomo.voos_ida pai1) as [|h1 t1] eqn:E1.
  { apply (f_equal length) in E1. rewrite length_fmap in E1. simpl in E1. lia. }
  destruct (Voo.horario_chegada <$> Cromossomo.voos_ida pai2) as [|h2 t2] eqn:E2.
  { apply (f_equal length) in E2. rewrite length_fmap in E2. simpl in E2. lia. }
  destruct (span_horas_Ok (h1 :: t1)) as [q1 Q1]; [done|].
  destruct (span_horas_Ok (h2 :: t2)) as [q2 Q2]; [done|].
  eapply devolve_bind;
    [exact (devolve_de_res _ q1 _ (fun _ _ => True) Q1 I)|]. intros a ? _.
  eapply devolve_bind;
    [exact (devolve_de_res _ q2 _ (fun _ _ => True) Q2 I)|]. intros a0 ? _.
  assert (Hida : forall x y : list Voo.t, length x = length y ->
            mistura x y x /\ mistura x y y).
  { intros x y L. split; [apply mistura_refl|].
    unfold mistura. rewrite L. apply mistura_sym, mistura_refl. }
  destruct (Hida (Cromossomo.voos_ida pai1) (Cromossomo.voos_ida pai2))
    as [Hi1 Hi2]; [lia|].
  destruct (Qleb a a0);
    (eapply devolve_bind;
     [ apply (devolve_para _ (fun k f =>
         mistura_parcial (Cromossomo.voos_volta pai1)
                         (Cromossomo.voos_volta pai2) k f.1 /\
         mistura_parcial (Cromossomo.voos_volta pai1)
                         (Cromossomo.voos_volta pai2) k f.2));
       [ split; apply mistura_nil
       | intros j x b s0 Hj [Hb1 Hb2]; apply lookup_seq_0 in Hj as [-> Hj];
         by apply passo_volta_devolve ]
     | intros f sf; rewrite length_seq; intros [Hf1 Hf2];
       apply devolve_ret; unfold filhos_misturados, mistura; simpl;
       rewrite L3; done ]).
Qed.
End CruzamentoHorario.

Lemma viavel_mistura pessoas N pai1 pai2 fs :
  viavel pessoas N pai1 -> viavel pessoas N pai2 ->
  filhos_misturados pai1 pai2 fs ->
  viavel pessoas N fs.1 /\ viavel pessoas N fs.2.
Proof.
  intros (A1 & A2 & A3 & A4) (B1 & B2 & B3 & B4) (M1 & M2 & M3 & M4).
  unfold mistura in *. rewrite A1 in M1, M3. rewrite A2 in M2, M4.
  split; (split; [|split; [|split]]);
    try (eapply genes_mistura; [| |eassumption]; eassumption);
    first [apply M1 | apply M2 | apply M3 | apply M4].
Qed.

(** C1. Parents of N genes per leg whose genes come from the menus of the
    agents at their positions: each of the five crossovers either returns two
    children with N genes per leg, every gene from the menu of the agent at
    its position and of its leg, or (single-point and two-point at N = 1
    only) raises [ValueError] and produces no child. *)
Theorem cruzamentos_preservam_viabilidade
    (pessoas : list Pessoa.t) (N : nat) (pai1 pai2 : Cromossomo.t)
    (cruzamento : Cromossomo.t -> Cromossomo.t ->
                  Comp Fonte (Cromossomo.t * Cromossomo.t))
    (r : Fonte) :
  cruzamento ∈ cinco_cruzamentos ->
  viavel pessoas N pai1 ->
  viavel pessoas N pai2 ->
  match cruzamento pai1 pai2 r with
  | (Ok (filho1, filho2), _) =>
      viavel pessoas N filho1 /\ viavel pessoas N filho2
  | (Levanta e, _) =>
      e = ValueError /\ N = 1 /\
      (cruzamento = cruzamento_ponto_unico \/ cruzamento = cruzamento_dois_pontos)
  | (Esgotado, _) => False
  end.
Proof.
  intros Hc V1 V2.
  pose proof V1 as (A1 & A2 & _). pose proof V2 as (B1 & B2 & _).
  assert (Hd : devolve (cruzamento pai1 pai2) r
                 (fun fs _ => filhos_misturados pai1 pai2 fs) ->
               match cruzamento pai1 pai2 r with
               | (Ok (filho1, filho2), _) =>
                   viavel pessoas N filho1 /\ viavel pessoas N filho2
               | (Levanta e, _) =>
                   e = ValueError /\ N = 1 /\
                   (cruzamento = cruzamento_ponto_unico \/
                    cruzamento = cruzamento_dois_pontos)
               | (Esgotado, _) => False
               end).
  { intros (fs & s' & -> & Hm). destruct fs as [f1 f2].
    by apply (viavel_mistura pessoas N pai1 pai2 (f1, f2)). }
  unfold cinco_cruzamentos in Hc.
  repeat (apply elem_of_cons in Hc as [->|Hc]).
  - destruct (decide (N = 1)) as [HN|HN].
    + rewrite (cruzamento_ponto_unico_levanta pai1 pai2 N) by done. auto.
    + apply Hd. by apply (cruzamento_ponto_unico_devolve pai1 pai2 N).
  - destruct (decide (N = 1)) as [HN|HN].
    + rewrite (cruzamento_dois_pontos_levanta pai1 pai2 N) by done. auto.
    + apply Hd. by apply (cruzamento_dois_pontos_devolve pai1 pai2 N).
  - apply Hd. by apply (cruzamento_uniforme_devolve pai1 pai2 N).
  - apply Hd. by apply (cruzamento_baseado_custo_mistura pai1 pai2 N).
  - apply Hd. by apply (cruzamento_baseado_horario_devolve pai1 pai2 N).
  - by apply elem_of_nil in Hc.
Qed.

Lemma viavel_pai_a : viavel pessoas_exemplo 3 pai_a.
Proof.
  repeat split;
    intros [|[|[|i]]] v Hv; simpl in Hv; simplify_eq;
    eexists; (split; [reflexivity|]); apply list_elem_of_In; simpl; auto.
Qed.

Lemma viavel_pai_b : viavel pessoas_exemplo 3 pai_b.
Proof.
  repeat split;
    intros [|[|[|i]]] v Hv; simpl in Hv; simplify_eq;
    eexists; (split; [reflexivity|]); apply list_elem_of_In; simpl; auto.
Qed.

Lemma cruzamentos_preservam_viabilidade_witness :
  match cruzamento_dois_pontos pai_a pai_b fonte_zero with
  | (Ok (filho1, filho2), _) =>
      viavel pessoas_exemplo 3 filho1 /\ viavel pessoas_exemplo 3 filho2
  | (Levanta e, _) =>
      e = ValueError /\ 3 = 1 /\
      (cruzamento_dois_pontos = cruzamento_ponto_unico \/
       cruzamento_dois_pontos = cruzamento_dois_pontos)
  | (Esgotado, _) => False
  end.
Proof.
  apply (cruzamentos_preservam_viabilidade pessoas_exemplo 3 pai_a pai_b
           cruzamento_dois_pontos fonte_zero).
  - apply list_elem_of_In. simpl. auto.
  - exact viavel_pai_a.
  - exact viavel_pai_b.
Defined.

(** ** Single-point crossover on one gene *)

(** C4 (the code differs).  With one gene per parent [random.randint(1, 0)]
    raises [ValueError], whatever the random source: no pair of empty
    children is returned. *)
Theorem cruzamento_ponto_unico_um_gene (r : Fonte) :
  cruzamento_ponto_unico pai_de_um_gene pai_de_um_gene r
  = (Levanta ValueError, r).
Proof. reflexivity. Qed.

(** A run with a single agent and the default crossover stops on that
    error in its first generation. *)
Lemma executar_um_agente_levanta :
  (executar 1000 "ponto_unico" false motor_um_agente).1 = Levanta ValueError.
Proof. vm_compute. reflexivity. Qed.

(** With no gene the two empty children are returned. *)
Lemma cruzamento_ponto_unico_sem_genes (pai1 pai2 : Cromossomo.t) (r : Fonte) :
  Cromossomo.voos_ida pai1 = [] ->
  cruzamento_ponto_unico pai1 pai2 r = (Ok filhos_vazios, r).
Proof. intros H. unfold cruzamento_ponto_unico. by rewrite H. Qed.

(** ** Fitness *)

Lemma fold_left_max_spec (l : list Z) (x : Z) :
  maximo (fold_left Z.max l x) (x :: l).
Proof.
  revert x. induction l as [|y l IH]; intros x; simpl.
  - split; [apply list_elem_of_here|].
    intros z Hz. apply list_elem_of_singleton in Hz. lia.
  - destruct (IH (Z.max x y)) as [Hin Hle]. split.
    + apply elem_of_cons in Hin as [Hm|Hin].
      * rewrite Hm. destruct (Z.max_spec x y) as [[_ ->]|[_ ->]].
        -- apply list_elem_of_further, list_elem_of_here.
        -- apply list_elem_of_here.
      * by do 2 apply list_elem_of_further.
    + intros z Hz.
      assert (Hxy : (Z.max x y <= fold_left Z.max l (Z.max x y))%Z)
        by (apply Hle, list_elem_of_here).
      apply elem_of_cons in Hz as [->|Hz]; [lia|].
      apply elem_of_cons in Hz as [->|Hz]; [lia|].
      by apply Hle, list_elem_of_further.
Qed.

Lemma fold_left_min_spec (l : list Z) (x : Z) :
  minimo (fold_left Z.min l x) (x :: l).
Proof.
  revert x. induction l as [|y l IH]; intros x; simpl.
  - split; [apply list_elem_of_here|].
    intros z Hz. apply list_elem_of_singleton in Hz. lia.
  - destruct (IH (Z.min x y)) as [Hin Hle]. split.
    + apply elem_of_cons in Hin as [Hm|Hin].
      * rewrite Hm. destruct (Z.min_spec x y) as [[_ ->]|[_ ->]].
        -- apply list_elem_of_here.
        -- apply list_elem_of_further, list_elem_of_here.
      * by do 2 apply list_elem_of_further.
    + intros z Hz.
      assert (Hxy : (fold_left Z.min l (Z.min x y) <= Z.min x y)%Z)
        by (apply Hle, list_elem_of_here).
      apply elem_of_cons in Hz as [->|Hz]; [lia|].
      apply elem_of_cons in Hz as [->|Hz]; [lia|].
      by apply Hle, list_elem_of_further.
Qed.

Lemma py_max_spec (l : list Z) :
  l <> [] -> exists m, py_max l = Ok m /\ maximo m l.
Proof.
  destruct l as [|x l]; [done|]. intros _.
  eexists. split; [reflexivity|]. apply fold_left_max_spec.
Qed.

Lemma py_min_spec (l : list Z) :
  l <> [] -> exists m, py_min l = Ok m /\ minimo m l.
Proof.
  destruct l as [|x l]; [done|]. intros _.
  eexists. split; [reflexivity|]. apply fold_left_min_spec.
Qed.

Lemma fold_left_Qplus (l : list Voo.t) (acc : Q) :
  (fold_left Qplus (Voo.preco <$> l) acc == acc + soma_precos l)%Q.
Proof.
  revert acc. induction l as [|v l IH]; intros acc; simpl.
  - ring.
  - rewrite IH. ring.
Qed.

Lemma py_sum_precos (l1 l2 : list Voo.t) :
  (py_sum (Voo.preco <$> (l1 ++ l2)) == soma_precos l1 + soma_precos l2)%Q.
Proof.
  unfold py_sum. rewrite fmap_app, fold_left_app, !fold_left_Qplus. ring.
Qed.

Lemma fmap_nao_vazia {A B} (f : A -> B) (l : list A) : l <> [] -> f <$> l <> [].
Proof. by destruct l. Qed.

(** C6. With both gene lists non-empty [calcular_fitness] returns minus the
    weighted sum of the total cost of all chosen options, the span of the
    chosen outbound arrivals in hours and the span of the chosen return
    departures in hours; with an empty gene list it returns the fixed
    penalty -1000000000.  It never raises. *)
Theorem calcular_fitness_correto (self : AG.t) (c : Cromossomo.t) :
  (Cromossomo.voos_ida c <> [] -> Cromossomo.voos_volta c <> [] ->
   exists f chegada_max chegada_min saida_max saida_min,
     calcular_fitness self c = Ok f /\
     maximo chegada_max (Voo.horario_chegada <$> Cromossomo.voos_ida c) /\
     minimo chegada_min (Voo.horario_chegada <$> Cromossomo.voos_ida c) /\
     maximo saida_max (Voo.horario_saida <$> Cromossomo.voos_volta c) /\
     minimo saida_min (Voo.horario_saida <$> Cromossomo.voos_volta c) /\
     (f == fitness_especificado self c chegada_max chegada_min
                                saida_max saida_min)%Q) /\
  (Cromossomo.voos_ida c = [] \/ Cromossomo.voos_volta c = [] ->
   calcular_fitness self c = Ok (- 1000000000)%Q).
Proof.
  split.
  - intros Hi Hv. unfold calcular_fitness.
    destruct (Cromossomo.voos_ida c) as [|i0 ida] eqn:Ei; [done|].
    destruct (Cromossomo.voos_volta c) as [|v0 volta] eqn:Ev; [done|].
    cbn [vazia orb].
    destruct (py_min_spec (Voo.horario_chegada <$> i0 :: ida))
      as (amin & -> & Hamin); [done|].
    destruct (py_max_spec (Voo.horario_chegada <$> i0 :: ida))
      as (amax & -> & Hamax); [done|].
    destruct (py_min_spec (Voo.horario_saida <$> v0 :: volta))
      as (dmin & -> & Hdmin); [done|].
    destruct (py_max_spec (Voo.horario_saida <$> v0 :: volta))
      as (dmax & -> & Hdmax); [done|].
    cbn [ligar].
    eexists _, amax, amin, dmax, dmin.
    split; [reflexivity|]. repeat (split; [done|]).
    unfold fitness_especificado. rewrite Ei, Ev.
    by rewrite py_sum_precos.
  - intros [H|H]; unfold calcular_fitness; rewrite H; [done|].
    by destruct (Cromossomo.voos_ida c).
Qed.

Lemma calcular_fitness_correto_witness :
  exists f chegada_max chegada_min saida_max saida_min,
    calcular_fitness (AG.novo pessoas_exemplo "FCO" 4 0 0 3 1 100 100) pai_a
      = Ok f /\
    maximo chegada_max (Voo.horario_chegada <$> Cromossomo.voos_ida pai_a) /\
    minimo chegada_min (Voo.horario_chegada <$> Cromossomo.voos_ida pai_a) /\
    maximo saida_max (Voo.horario_saida <$> Cromossomo.voos_volta pai_a) /\
    minimo saida_min (Voo.horario_saida <$> Cromossomo.voos_volta pai_a) /\
    (f == fitness_especificado (AG.novo pessoas_exemplo "FCO" 4 0 0 3 1 100 100)
            pai_a chegada_max chegada_min saida_max saida_min)%Q.
Proof.
  apply (calcular_fitness_correto
           (AG.novo pessoas_exemplo "FCO" 4 0 0 3 1 100 100) pai_a);
    simpl; discriminate.
Defined.

(** ** Seeding *)

Lemma vazia_true {A} (l : list A) : vazia l = true <-> l = [].
Proof. by destruct l. Qed.

Lemma vazia_false {A} (l : list A) : vazia l = false <-> l <> [].
Proof. by destruct l. Qed.

Lemma escolher_genes_levanta (pessoas : list Pessoa.t) :
  forall acc r,
    (exists p, p ∈ pessoas /\ cardapio_vazio p) ->
    exists r', para pessoas escolher_genes acc r = (Levanta ValueError, r').
Proof.
  induction pessoas as [|p pessoas IH]; intros acc r (q & Hq & Hvazio).
  { by apply elem_of_nil in Hq. }
  simpl. unfold bind, escolher_genes at 1.
  destruct (vazia (Pessoa.voos_ida p)) eqn:Ei; [by eexists|].
  destruct (vazia (Pessoa.voos_volta p)) eqn:Ev; [by eexists|].
  apply vazia_false in Ei, Ev.
  destruct (random_choice_devolve (Pessoa.voos_ida p) r Ei) as (i & r1 & E1 & _).
  unfold bind. rewrite E1.
  destruct (random_choice_devolve (Pessoa.voos_volta p) r1 Ev) as (v & r2 & E2 & _).
  rewrite E2. simpl.
  apply IH. exists q. split; [|done].
  apply elem_of_cons in Hq as [->|Hq]; [|done].
  destruct Hvazio; congruence.
Qed.

(** C9 (amended).  With no agent, seeding raises at once and [executar]
    returns no solution and empty histories, leaving the engine as it was (so
    the population of a freshly built engine stays empty).  With an agent
    whose outbound or return menu is empty and a population size of at least
    one, seeding raises while building the first candidate, the population is
    empty, and [executar] returns no solution and empty histories. *)
Theorem semeadura_aborta (s : Motor) (max_geracoes : nat)
    (tipo_cruzamento : string) (usar_mutacao_inteligente : bool) :
  (AG.pessoas (self s) = [] ->
   gerar_populacao_inicial s = (Levanta ValueError, s) /\
   executar max_geracoes tipo_cruzamento usar_mutacao_inteligente s
   = (Ok (None, historicos_vazios), s)) /\
  ((exists p, p ∈ AG.pessoas (self s) /\ cardapio_vazio p) ->
   1 <= AG.tamanho_populacao (self s) ->
   exists s',
     gerar_populacao_inicial s = (Levanta ValueError, s') /\
     AG.populacao (self s') = [] /\
     executar max_geracoes tipo_cruzamento usar_mutacao_inteligente s
     = (Ok (None, historicos_vazios), s')).
Proof.
  split.
  - intros H. unfold executar, gerar_populacao_inicial, bind, ler.
    rewrite H. done.
  - intros Hp Htam.
    assert (Hne : vazia (AG.pessoas (self s)) = false).
    { apply vazia_false. intros E. destruct Hp as (p & Hp & _).
      rewrite E in Hp. by apply elem_of_nil in Hp. }
    destruct (escolher_genes_levanta (AG.pessoas (self s)) ([], []) (fonte s) Hp)
      as (r' & Er).
    assert (Eg : gerar_populacao_inicial s
                 = (Levanta ValueError,
                    {| self := AG.com_populacao (self s) []; fonte := r' |})).
    { unfold gerar_populacao_inicial, bind, ler. rewrite Hne.
      destruct (AG.tamanho_populacao (self s)) as [|n]; [lia|].
      simpl. unfold bind, com_fonte. simpl. by rewrite Er. }
    eexists. split; [exact Eg|]. split; [done|].
    unfold executar, bind, ler, tentar. by rewrite Hne, Eg.
Qed.

Lemma semeadura_aborta_witness :
  exists s',
    gerar_populacao_inicial motor_sem_ida = (Levanta ValueError, s') /\
    AG.populacao (self s') = [] /\
    executar 1000 "ponto_unico" false motor_sem_ida
    = (Ok (None, historicos_vazios), s').
Proof.
  apply (semeadura_aborta motor_sem_ida 1000 "ponto_unico" false).
  - exists pessoa_sem_ida. split; [|by left].
    apply list_elem_of_In. simpl. auto.
  - simpl. lia.
Defined.

(** C9 as stated fails when the population size is zero: the seeding loop
    never looks at a menu, nothing is raised at seeding, and the driver's
    [max] over the empty population raises an uncaught [ValueError]. *)
Lemma semeadura_populacao_zero_nao_aborta :
  (exists p, p ∈ AG.pessoas (self motor_populacao_zero) /\ cardapio_vazio p) /\
  (gerar_populacao_inicial motor_populacao_zero).1 = Ok tt /\
  (executar 1000 "ponto_unico" false motor_populacao_zero).1 = Levanta ValueError.
Proof.
  split; [|split; reflexivity].
  exists pessoa_sem_ida. split; [|by left].
  apply list_elem_of_In. simpl. auto.
Qed.

(** ** Mutation *)

Lemma mutacao_segura_refl (self : AG.t) (c : Cromossomo.t) : mutacao_segura self c c.
Proof. repeat split; intros i v Hv; by left. Qed.

Lemma herdado_insert cardapio pessoas orig novo i p v :
  herdado_ou_do_cardapio cardapio pessoas orig novo ->
  pessoas !! i = Some p -> v ∈ cardapio p ->
  herdado_ou_do_cardapio cardapio pessoas orig (<[i := v]> novo).
Proof.
  intros H Hp Hv j w Hw.
  apply list_lookup_insert_Some in Hw as [(-> & -> & _)|[_ Hw]]; [|by apply H].
  right. eauto.
Qed.

Lemma mutacao_segura_ida (self : AG.t) (c c1 : Cromossomo.t) i p v :
  mutacao_segura self c c1 ->
  AG.pessoas self !! i = Some p -> v ∈ Pessoa.voos_ida p ->
  mutacao_segura self c
    (Cromossomo.com_ida c1 (<[i := v]> (Cromossomo.voos_ida c1))).
Proof.
  intros (H1 & H2 & H3 & H4) Hp Hv. unfold mutacao_segura; simpl.
  rewrite length_insert. repeat split; try done.
  by eapply herdado_insert.
Qed.

Lemma mutacao_segura_volta (self : AG.t) (c c1 : Cromossomo.t) i p v :
  mutacao_segura self c c1 ->
  AG.pessoas self !! i = Some p -> v ∈ Pessoa.voos_volta p ->
  mutacao_segura self c
    (Cromossomo.com_volta c1 (<[i := v]> (Cromossomo.voos_volta c1))).
Proof.
  intros (H1 & H2 & H3 & H4) Hp Hv. unfold mutacao_segura; simpl.
  rewrite length_insert. repeat split; try done.
  by eapply herdado_insert.
Qed.

Lemma py_set_Ok {A} (l : list A) (i : nat) (x : A) :
  i < length l -> py_set l i x = Ok (<[i := x]> l).
Proof. intros H. unfold py_set. by destruct (decide (i < length l)). Qed.

Section Mutacao.
Variables (self : AG.t) (c : Cromossomo.t).
Hypothesis Hida : length (Cromossomo.voos_ida c) <= length (AG.pessoas self).

Lemma passo_aleatorio_devolve (taxa : Q) (i : nat) (c1 : Cromossomo.t)
    (r : Fonte) :
  length (Cromossomo.voos_ida c) <= length (Cromossomo.voos_volta c) ->
  i < length (Cromossomo.voos_ida c) ->
  mutacao_segura self c c1 ->
  devolve (passo_aleatorio self taxa i c1) r
          (fun c2 _ => mutacao_segura self c c2).
Proof.
  intros Hiv Hi Hs. unfold passo_aleatorio.
  destruct (py_index_lt (AG.pessoas self) i) as (p & Hp & Ep); [lia|].
  eapply devolve_bind;
    [exact (devolve_de_res _ p _ (fun a _ => a = p) Ep eq_refl)|].
  intros ? s0 ->.
  eapply devolve_bind; [apply random_random_devolve|]. intros q1 s1 _.
  eapply (devolve_bind _ _ _ (fun c2 _ => mutacao_segura self c c2)).
  { destruct (Qltb q1 taxa); [|by apply devolve_ret].
    destruct (vazia (Pessoa.voos_ida p)) eqn:Ev; [by apply devolve_ret|].
    apply vazia_false in Ev.
    eapply devolve_bind; [by apply random_choice_devolve|].
    intros v s2 Hv. cbv beta in Hv.
    pose proof Hs as (K1 & _).
    rewrite py_set_Ok by lia.
    eapply devolve_bind;
      [exact (devolve_de_res _ _ _ (fun a _ => a = _) eq_refl eq_refl)|].
    intros ? s3 ->. apply devolve_ret. by eapply mutacao_segura_ida. }
  intros c2 s2 Hs2.
  eapply devolve_bind; [apply random_random_devolve|]. intros q2 s3 _.
  destruct (Qltb q2 taxa); [|by apply devolve_ret].
  destruct (vazia (Pessoa.voos_volta p)) eqn:Ev; [by apply devolve_ret|].
  apply vazia_false in Ev.
  eapply devolve_bind; [by apply random_choice_devolve|].
  intros v s4 Hv. cbv beta in Hv.
  pose proof Hs2 as (_ & K2 & _).
  rewrite py_set_Ok by lia.
  eapply devolve_bind;
    [exact (devolve_de_res _ _ _ (fun a _ => a = _) eq_refl eq_refl)|].
  intros ? s5 ->. apply devolve_ret. by eapply mutacao_segura_volta.
Qed.

Lemma passe_aleatorio_devolve (taxa : Q) (c1 : Cromossomo.t) (r : Fonte) :
  length (Cromossomo.voos_ida c) <= length (Cromossomo.voos_volta c) ->
  mutacao_segura self c c1 ->
  devolve (para (seq 0 (length (Cromossomo.voos_ida c1)))
                (passo_aleatorio self taxa) c1) r
          (fun c2 _ => mutacao_segura self c c2).
Proof.
  intros Hiv Hs.
  eapply devolve_mono.
  - apply (devolve_para _ (fun _ c2 => mutacao_segura self c c2)); [done|].
    intros j x b s0 Hj Hb. apply lookup_seq_0 in Hj as [-> Hj].
    apply passo_aleatorio_devolve; try done.
    destruct Hs as (K1 & _). lia.
  - done.
Qed.
End Mutacao.

Lemma py_list_index_spec (l : list Z) (x : Z) :
  x ∈ l -> exists i, py_list_index l x = Ok i /\ l !! i = Some x.
Proof.
  induction l as [|y l IH]; intros Hx; [by apply elem_of_nil in Hx|].
  simpl. destruct (decide (y = x)) as [->|Hne]; [by exists 0|].
  apply elem_of_cons in Hx as [->|Hx]; [done|].
  destruct (IH Hx) as (i & -> & Hi). by exists (S i).
Qed.

Section Reparos.
Variables (self : AG.t) (c : Cromossomo.t).

Lemma reparar_ida_devolve (c1 : Cromossomo.t) (r : Fonte) :
  length (Cromossomo.voos_ida c) <= length (AG.pessoas self) ->
  mutacao_segura self c c1 ->
  devolve (reparar_ida self c c1) r (fun c2 _ => mutacao_segura self c c2).
Proof.
  intros Hida Hs. unfold reparar_ida.
  set (h := Voo.horario_chegada <$> Cromossomo.voos_ida c).
  assert (Lh : length h = length (Cromossomo.voos_ida c))
    by apply length_fmap.
  destruct (decide (1 < length h)) as [Hlen|_]; [|by apply devolve_ret].
  assert (Hne : h <> []) by (intros E; rewrite E in Hlen; simpl in Hlen; lia).
  destruct (py_min_spec h Hne) as (mn & Emn & _).
  destruct (py_max_spec h Hne) as (mx & Emx & Hmx & _).
  eapply devolve_bind;
    [exact (devolve_de_res _ mn _ (fun a _ => a = mn) Emn eq_refl)|].
  intros ? s0 ->.
  eapply devolve_bind;
    [exact (devolve_de_res _ mx _ (fun a _ => a = mx) Emx eq_refl)|].
  intros ? s1 ->.
  destruct (Qltb 1 _); [|by apply devolve_ret].
  destruct (py_list_index_spec h mx Hmx) as (idx & Eidx & Hidx).
  apply lookup_lt_Some in Hidx.
  eapply devolve_bind;
    [exact (devolve_de_res _ idx _ (fun a _ => a = idx) Eidx eq_refl)|].
  intros ? s2 ->.
  destruct (py_index_lt (AG.pessoas self) idx) as (p & Hp & Ep); [lia|].
  eapply devolve_bind;
    [exact (devolve_de_res _ p _ (fun a _ => a = p) Ep eq_refl)|].
  intros ? s3 ->.
  destruct (vazia _) eqn:Ev; [by apply devolve_ret|].
  apply vazia_false in Ev.
  eapply devolve_bind; [apply random_random_devolve|]. intros q s4 _.
  destruct (Qltb q sessenta_por_cento); [|by apply devolve_ret].
  eapply devolve_bind; [by apply random_choice_devolve|].
  intros v s5 Hv. cbv beta in Hv.
  apply list_elem_of_filter in Hv as [_ Hv].
  pose proof Hs as (K1 & _).
  rewrite py_set_Ok by lia.
  eapply devolve_bind;
    [exact (devolve_de_res _ _ _ (fun a _ => a = _) eq_refl eq_refl)|].
  intros ? s6 ->. apply devolve_ret. by eapply mutacao_segura_ida.
Qed.

Lemma reparar_volta_devolve (c1 : Cromossomo.t) (r : Fonte) :
  length (Cromossomo.voos_volta c) <= length (AG.pessoas self) ->
  mutacao_segura self c c1 ->
  devolve (reparar_volta self c c1) r (fun c2 _ => mutacao_segura self c c2).
Proof.
  intros Hvolta Hs. unfold reparar_volta.
  set (h := Voo.horario_saida <$> Cromossomo.voos_volta c).
  assert (Lh : length h = length (Cromossomo.voos_volta c))
    by apply length_fmap.
  destruct (decide (1 < length h)) as [Hlen|_]; [|by apply devolve_ret].
  assert (Hne : h <> []) by (intros E; rewrite E in Hlen; simpl in Hlen; lia).
  destruct (py_min_spec h Hne) as (mn & Emn & Hmn & _).
  destruct (py_max_spec h Hne) as (mx & Emx & _).
  eapply devolve_bind;
    [exact (devolve_de_res _ mn _ (fun a _ => a = mn) Emn eq_refl)|].
  intros ? s0 ->.
  eapply devolve_bind;
    [exact (devolve_de_res _ mx _ (fun a _ => a = mx) Emx eq_refl)|].
  intros ? s1 ->.
  destruct (Qltb 1 _); [|by apply devolve_ret].
  destruct (py_list_index_spec h mn Hmn) as (idx & Eidx & Hidx).
  apply lookup_lt_Some in Hidx.
  eapply devolve_bind;
    [exact (devolve_de_res _ idx _ (fun a _ => a = idx) Eidx eq_refl)|].
  intros ? s2 ->.
  destruct (py_index_lt (AG.pessoas self) idx) as (p & Hp & Ep); [lia|].
  eapply devolve_bind;
    [exact (devolve_de_res _ p _ (fun a _ => a = p) Ep eq_refl)|].
  intros ? s3 ->.
  destruct (vazia _) eqn:Ev; [by apply devolve_ret|].
  apply vazia_false in Ev.
  eapply devolve_bind; [apply random_random_devolve|]. intros q s4 _.
  destruct (Qltb q sessenta_por_cento); [|by apply devolve_ret].
  eapply devolve_bind; [by apply random_choice_devolve|].
  intros v s5 Hv. cbv beta in Hv.
  apply list_elem_of_filter in Hv as [_ Hv].
  pose proof Hs as (_ & K2 & _).
  rewrite py_set_Ok by lia.
  eapply devolve_bind;
    [exact (devolve_de_res _ _ _ (fun a _ => a = _) eq_refl eq_refl)|].
  intros ? s6 ->. apply devolve_ret. by eapply mutacao_segura_volta.
Qed.
End Reparos.

Lemma mutacao_tradicional_devolve (self : AG.t) (c : Cromossomo.t) (r : Fonte) :
  length (Cromossomo.voos_ida c) <= length (AG.pessoas self) ->
  length (Cromossomo.voos_ida c) <= length (Cromossomo.voos_volta c) ->
  devolve (mutacao_tradicional self c) r (fun c' _ => mutacao_segura self c c').
Proof.
  intros Hida Hiv. unfold mutacao_tradicional.
  apply (passe_aleatorio_devolve self c Hida _ c r Hiv), mutacao_segura_refl.
Qed.

Lemma mutacao_inteligente_devolve (self : AG.t) (c : Cromossomo.t) (r : Fonte) :
  length (Cromossomo.voos_ida c) <= length (AG.pessoas self) ->
  length (Cromossomo.voos_volta c) <= length (AG.pessoas self) ->
  length (Cromossomo.voos_ida c) <= length (Cromossomo.voos_volta c) ->
  devolve (mutacao_inteligente self c) r (fun c' _ => mutacao_segura self c c').
Proof.
  intros Hida Hvolta Hiv. unfold mutacao_inteligente.
  destruct (vazia (AG.pessoas self)).
  { apply devolve_ret, mutacao_segura_refl. }
  eapply devolve_bind.
  { apply reparar_ida_devolve; [done|apply mutacao_segura_refl]. }
  intros c1 s1 H1. cbv beta in H1.
  eapply devolve_bind; [by apply reparar_volta_devolve|].
  intros c2 s2 H2. cbv beta in H2.
  exact (passe_aleatorio_devolve self c Hida _ c2 s2 Hiv H2).
Qed.

(** C10 (amended).  For a candidate whose gene lists are no longer than the
    agent list and whose outbound list is no longer than its return list,
    both mutators return a candidate with the same gene-list lengths in
    which every gene is the input's gene at its position or an option of
    the menu, for that leg, of the agent at its position. *)
Theorem mutacoes_preservam_cardapio (self : AG.t) (c : Cromossomo.t) (r : Fonte) :
  length (Cromossomo.voos_ida c) <= length (AG.pessoas self) ->
  length (Cromossomo.voos_volta c) <= length (AG.pessoas self) ->
  length (Cromossomo.voos_ida c) <= length (Cromossomo.voos_volta c) ->
  devolve (mutacao_tradicional self c) r (fun c' _ => mutacao_segura self c c') /\
  devolve (mutacao_inteligente self c) r (fun c' _ => mutacao_segura self c c').
Proof.
  intros Hida Hvolta Hiv. split.
  - by apply mutacao_tradicional_devolve.
  - by apply mutacao_inteligente_devolve.
Qed.

Lemma mutacoes_preservam_cardapio_witness :
  devolve (mutacao_tradicional (ag_exemplo 1) pai_a) fonte_zero
          (fun c' _ => mutacao_segura (ag_exemplo 1) pai_a c') /\
  devolve (mutacao_inteligente (ag_exemplo 1) pai_a) fonte_zero
          (fun c' _ => mutacao_segura (ag_exemplo 1) pai_a c').
Proof.
  apply (mutacoes_preservam_cardapio (ag_exemplo 1) pai_a fonte_zero);
    simpl; lia.
Defined.

(** C10 as stated fails: with one outbound gene and no return gene (both
    lists no longer than the agent list) the assignment
    [novo_cromossomo.voos_volta[0] = ...] raises [IndexError]. *)
Lemma mutacao_sem_volta_levanta :
  length (Cromossomo.voos_ida candidato_sem_volta)
    <= length (AG.pessoas (ag_exemplo 1)) /\
  length (Cromossomo.voos_volta candidato_sem_volta)
    <= length (AG.pessoas (ag_exemplo 1)) /\
  (mutacao_tradicional (ag_exemplo 1) candidato_sem_volta fonte_zero).1
    = Levanta IndexError /\
  (mutacao_inteligente (ag_exemplo 1) candidato_sem_volta fonte_zero).1
    = Levanta IndexError.
Proof. repeat split; simpl; try lia; vm_compute; reflexivity. Qed.

(** ** Mutation at rate zero *)

Lemma passo_aleatorio_taxa_zero (self : AG.t) (taxa : Q) (i : nat)
    (c1 : Cromossomo.t) (r : Fonte) :
  (taxa <= 0)%Q -> i < length (AG.pessoas self) ->
  devolve (passo_aleatorio self taxa i c1) r (fun c2 _ => c2 = c1).
Proof.
  intros Ht Hi. unfold passo_aleatorio.
  destruct (py_index_lt (AG.pessoas self) i) as (p & Hp & Ep); [lia|].
  eapply devolve_bind;
    [exact (devolve_de_res _ p _ (fun a _ => a = p) Ep eq_refl)|].
  intros ? s0 ->.
  eapply devolve_bind; [apply random_random_devolve|]. intros q1 s1 [Hq1 _].
  assert (E1 : Qltb q1 taxa = false) by (apply Qltb_ge; by eapply Qle_trans).
  rewrite E1.
  eapply devolve_bind; [by apply (devolve_ret _ _ (fun a _ => a = c1))|].
  intros ? s2 ->.
  eapply devolve_bind; [apply random_random_devolve|]. intros q2 s3 [Hq2 _].
  assert (E2 : Qltb q2 taxa = false) by (apply Qltb_ge; by eapply Qle_trans).
  rewrite E2. by apply devolve_ret.
Qed.

Lemma passe_aleatorio_taxa_zero (self : AG.t) (taxa : Q) (n : nat)
    (c1 : Cromossomo.t) (r : Fonte) :
  (taxa <= 0)%Q -> n <= length (AG.pessoas self) ->
  devolve (para (seq 0 n) (passo_aleatorio self taxa) c1) r
          (fun c2 _ => c2 = c1).
Proof.
  intros Ht Hn. eapply devolve_mono.
  - apply (devolve_para _ (fun _ c2 => c2 = c1)); [done|].
    intros j x b s0 Hj ->. apply lookup_seq_0 in Hj as [-> Hj].
    apply passo_aleatorio_taxa_zero; [done|lia].
  - done.
Qed.

Lemma span_ate_uma_hora (mx mn : Z) :
  (mx - mn <= 3600)%Z -> Qltb 1 (inject_Z (mx - mn) / 3600) = false.
Proof.
  intros H. apply Qltb_ge.
  unfold Qle, Qdiv, Qmult, Qinv, inject_Z; simpl. lia.
Qed.

Lemma reparar_ida_sem_excesso (self : AG.t) (c c1 : Cromossomo.t) (r : Fonte) :
  ~ excede_uma_hora (Voo.horario_chegada <$> Cromossomo.voos_ida c) ->
  reparar_ida self c c1 r = (Ok c1, r).
Proof.
  intros Hn. unfold reparar_ida.
  set (h := Voo.horario_chegada <$> Cromossomo.voos_ida c) in *.
  destruct (decide (1 < length h)) as [Hlen|_]; [|done].
  assert (Hne : h <> []) by (intros E; rewrite E in Hlen; simpl in Hlen; lia).
  destruct (py_min_spec h Hne) as (mn & Emn & Hmn & _).
  destruct (py_max_spec h Hne) as (mx & Emx & Hmx & _).
  unfold bind, de_res. rewrite Emn, Emx.
  rewrite span_ate_uma_hora; [done|].
  destruct (decide (mx - mn <= 3600)%Z); [done|].
  exfalso. apply Hn. exists mn, mx. repeat split; try done. lia.
Qed.

Lemma reparar_volta_sem_excesso (self : AG.t) (c c1 : Cromossomo.t) (r : Fonte) :
  ~ excede_uma_hora (Voo.horario_saida <$> Cromossomo.voos_volta c) ->
  reparar_volta self c c1 r = (Ok c1, r).
Proof.
  intros Hn. unfold reparar_volta.
  set (h := Voo.horario_saida <$> Cromossomo.voos_volta c) in *.
  destruct (decide (1 < length h)) as [Hlen|_]; [|done].
  assert (Hne : h <> []) by (intros E; rewrite E in Hlen; simpl in Hlen; lia).
  destruct (py_min_spec h Hne) as (mn & Emn & Hmn & _).
  destruct (py_max_spec h Hne) as (mx & Emx & Hmx & _).
  unfold bind, de_res. rewrite Emn, Emx.
  rewrite span_ate_uma_hora; [done|].
  destruct (decide (mx - mn <= 3600)%Z); [done|].
  exfalso. apply Hn. exists mn, mx. repeat split; try done. lia.
Qed.

(** C5 (amended).  With [taxa_mutacao = 0] and an outbound gene list no
    longer than the agent list, [mutacao_tradicional] returns the input
    unchanged for every outcome of the random source; [mutacao_inteligente]
    does so when no two chosen outbound arrivals and no two chosen return
    departures are more than one hour apart. *)
Theorem mutacao_com_taxa_zero (self : AG.t) (c : Cromossomo.t) (r : Fonte) :
  (AG.taxa_mutacao self == 0)%Q ->
  length (Cromossomo.voos_ida c) <= length (AG.pessoas self) ->
  devolve (mutacao_tradicional self c) r (fun c' _ => c' = c) /\
  (~ excede_uma_hora (Voo.horario_chegada <$> Cromossomo.voos_ida c) ->
   ~ excede_uma_hora (Voo.horario_saida <$> Cromossomo.voos_volta c) ->
   devolve (mutacao_inteligente self c) r (fun c' _ => c' = c)).
Proof.
  intros Ht Hida. split.
  - unfold mutacao_tradicional.
    apply passe_aleatorio_taxa_zero; [|done]. rewrite Ht. apply Qle_refl.
  - intros Hc Hs. unfold mutacao_inteligente.
    destruct (vazia (AG.pessoas self)); [by apply devolve_ret|].
    eapply (devolve_bind _ _ _ (fun a _ => a = c)).
    { exists c, r. split; [by apply reparar_ida_sem_excesso|done]. }
    intros ? s1 ->.
    eapply (devolve_bind _ _ _ (fun a _ => a = c)).
    { exists c, s1. split; [by apply reparar_volta_sem_excesso|done]. }
    intros ? s2 ->.
    apply passe_aleatorio_taxa_zero; [|done].
    rewrite Ht. unfold Qle; simpl; lia.
Qed.

Lemma candidato_sincrono_sem_excesso :
  ~ excede_uma_hora
      (Voo.horario_chegada <$> Cromossomo.voos_ida candidato_sincrono) /\
  ~ excede_uma_hora
      (Voo.horario_saida <$> Cromossomo.voos_volta candidato_sincrono).
Proof.
  split; intros (x & y & Hx & Hy & H); simpl in Hx, Hy;
    repeat (apply elem_of_cons in Hx as [->|Hx]);
    try (by apply elem_of_nil in Hx);
    repeat (apply elem_of_cons in Hy as [->|Hy]);
    try (by apply elem_of_nil in Hy); simpl in H; lia.
Qed.

Lemma mutacao_com_taxa_zero_witness :
  devolve (mutacao_tradicional (ag_exemplo 0) candidato_sincrono) fonte_zero
          (fun c' _ => c' = candidato_sincrono) /\
  devolve (mutacao_inteligente (ag_exemplo 0) candidato_sincrono) fonte_zero
          (fun c' _ => c' = candidato_sincrono).
Proof.
  destruct (mutacao_com_taxa_zero (ag_exemplo 0) candidato_sincrono fonte_zero)
    as [H1 H2].
  - reflexivity.
  - simpl. lia.
  - split; [exact H1|].
    apply H2; apply candidato_sincrono_sem_excesso.
Defined.

(** C5 as stated fails for [mutacao_inteligente]: at rate zero, on the tape
    of zeros, the third outbound gene of [pai_a] (the latest arrival, more
    than one hour after the earliest) is replaced. *)
Lemma mutacao_inteligente_taxa_zero_altera :
  (AG.taxa_mutacao (ag_exemplo 0) == 0)%Q /\
  exists c',
    (mutacao_inteligente (ag_exemplo 0) pai_a fonte_zero).1 = Ok c' /\
    Cromossomo.voos_ida pai_a !! 2 = Some ida_b /\
    Cromossomo.voos_ida c' !! 2 = Some ida_a /\
    ida_a <> ida_b.
Proof.
  split; [reflexivity|].
  eexists. split; [vm_compute; reflexivity|].
  repeat split. discriminate.
Qed.

(** ** Evaluation *)

Lemma calcular_fitness_total (self : AG.t) (c : Cromossomo.t) :
  calcular_fitness self c = Ok (fitness_de self c).
Proof.
  unfold fitness_de, calcular_fitness.
  destruct (Cromossomo.voos_ida c) as [|i0 ida] eqn:Ei; [done|].
  destruct (Cromossomo.voos_volta c) as [|v0 volta] eqn:Ev; [done|].
  reflexivity.
Qed.

Lemma fitness_de_config (a b : AG.t) (c : Cromossomo.t) :
  mesma_config a b -> fitness_de a c = fitness_de b c.
Proof.
  intros (_ & _ & _ & _ & _ & H1 & H2 & H3).
  unfold fitness_de, calcular_fitness. by rewrite H1, H2, H3.
Qed.

Lemma fitness_de_com_fitness (self : AG.t) (c : Cromossomo.t) (f : Q) :
  fitness_de self (Cromossomo.com_fitness c f) = fitness_de self c.
Proof. reflexivity. Qed.

Lemma avaliar_lista_total (self : AG.t) (pop : list Cromossomo.t) :
  avaliar_lista self pop = Ok (avaliada self pop).
Proof.
  induction pop as [|c pop IH]; [done|].
  simpl. rewrite calcular_fitness_total. simpl. by rewrite IH.
Qed.

Lemma avaliar_populacao_total (s : Motor) :
  avaliar_populacao s
  = (Ok tt, {| self := AG.com_populacao (self s)
                         (avaliada (self s) (AG.populacao (self s)));
               fonte := fonte s |}).
Proof.
  unfold avaliar_populacao, bind, ler, de_res.
  by rewrite avaliar_lista_total.
Qed.

Lemma elem_of_avaliada (self : AG.t) (pop : list Cromossomo.t) (c : Cromossomo.t) :
  c ∈ avaliada self pop ->
  Cromossomo.fitness c = fitness_de self c /\
  exists c0, c0 ∈ pop /\ fitness_de self c0 = fitness_de self c.
Proof.
  intros H. apply list_elem_of_fmap in H as (c0 & -> & H0).
  split; [done|]. exists c0. by rewrite fitness_de_com_fitness.
Qed.

(** ** [max] and [sort] by key *)

Section PorChave.
Context {A : Type}.
Variable chave : A -> Q.

Lemma fold_left_max_por (l : list A) (x : A) :
  let m := fold_left (fun m y => if Qltb (chave m) (chave y) then y else m) l x in
  m ∈ x :: l /\ forall y, y ∈ x :: l -> (chave y <= chave m)%Q.
Proof.
  revert x. induction l as [|z l IH]; intros x; simpl.
  - split; [apply list_elem_of_here|].
    intros y Hy. apply list_elem_of_singleton in Hy as ->. apply Qle_refl.
  - destruct (IH (if Qltb (chave x) (chave z) then z else x)) as [Hin Hle].
    split.
    + apply elem_of_cons in Hin as [Hm|Hin].
      * rewrite Hm. destruct (Qltb (chave x) (chave z)).
        -- apply list_elem_of_further, list_elem_of_here.
        -- apply list_elem_of_here.
      * by do 2 apply list_elem_of_further.
    + intros y Hy.
      assert (Hxz : (chave x <= chave (if Qltb (chave x) (chave z) then z else x))%Q
                    /\ (chave z <= chave (if Qltb (chave x) (chave z) then z else x))%Q).
      { destruct (Qltb (chave x) (chave z)) eqn:E.
        - apply Qltb_lt in E. split; [by apply Qlt_le_weak|apply Qle_refl].
        - apply Qltb_ge in E. split; [apply Qle_refl|done]. }
      destruct Hxz as [Hx Hz].
      assert (Hm := Hle _ (list_elem_of_here _ _)).
      apply elem_of_cons in Hy as [->|Hy]; [by eapply Qle_trans|].
      apply elem_of_cons in Hy as [->|Hy]; [by eapply Qle_trans|].
      by apply Hle, list_elem_of_further.
Qed.

Lemma py_max_por_spec (l : list A) (m : A) :
  py_max_por chave l = Ok m ->
  m ∈ l /\ forall y, y ∈ l -> (chave y <= chave m)%Q.
Proof.
  destruct l as [|x l]; [done|]. intros [= <-]. apply fold_left_max_por.
Qed.

Lemma py_max_por_total (l : list A) :
  l <> [] -> exists m, py_max_por chave l = Ok m.
Proof. destruct l; [done|]. intros _. by eexists. Qed.

Lemma elem_of_inserir_desc (x z : A) (l : list A) :
  z ∈ inserir_desc chave x l <-> z = x \/ z ∈ l.
Proof.
  induction l as [|y l IH]; simpl.
  - rewrite list_elem_of_singleton, elem_of_nil. tauto.
  - destruct (Qltb (chave x) (chave y)).
    + rewrite !elem_of_cons, IH. tauto.
    + rewrite !elem_of_cons. tauto.
Qed.

Lemma elem_of_py_sort_desc (z : A) (l : list A) :
  z ∈ py_sort_desc chave l <-> z ∈ l.
Proof.
  induction l as [|x l IH]; [done|].
  unfold py_sort_desc in *. simpl.
  rewrite elem_of_inserir_desc, IH, elem_of_cons. tauto.
Qed.

(** The head of the sorted list has the greatest key. *)
Lemma py_sort_desc_cabeca (l : list A) :
  l <> [] ->
  exists x resto,
    py_sort_desc chave l = x :: resto /\
    forall y, y ∈ l -> (chave y <= chave x)%Q.
Proof.
  induction l as [|a l IH]; [done|]. intros _.
  destruct l as [|b l].
  { exists a, []. split; [done|].
    intros y Hy. apply list_elem_of_singleton in Hy as ->. apply Qle_refl. }
  destruct IH as (x & resto & E & Hx); [done|].
  change (py_sort_desc chave (a :: b :: l))
    with (inserir_desc chave a (py_sort_desc chave (b :: l))).
  rewrite E. simpl. destruct (Qltb (chave a) (chave x)) eqn:Eax.
  - eexists _, _. split; [reflexivity|].
    intros y Hy. apply elem_of_cons in Hy as [->|Hy]; [|by apply Hx].
    by apply Qlt_le_weak, Qltb_lt.
  - eexists _, _. split; [reflexivity|].
    intros y Hy. apply elem_of_cons in Hy as [->|Hy]; [apply Qle_refl|].
    apply Qltb_ge in Eax. eapply Qle_trans; [by apply Hx|done].
Qed.
End PorChave.

(** ** One generation *)

Lemma preencher_prefixo (combustivel : nat) (tipo : string) (mut : bool)
    (eu : AG.t) :
  forall nova r nova' r',
    preencher combustivel tipo mut eu nova r = (Ok nova', r') ->
    exists filhos, nova' = nova ++ filhos.
Proof.
  induction combustivel as [|n IH]; intros nova r nova' r' H; simpl in H.
  - destruct (decide (length nova < AG.tamanho_populacao eu)); [done|].
    injection H as <- <-. exists []. by rewrite app_nil_r.
  - destruct (decide (length nova < AG.tamanho_populacao eu)).
    + unfold bind in H.
      destruct (gerar_par tipo mut eu r) as [[[[f1 f2]|]| |] r1]; try done.
      * apply IH in H as (filhos & ->).
        exists ([f1; f2] ++ filhos). by rewrite app_assoc.
      * injection H as <- <-. exists []. by rewrite app_nil_r.
    + injection H as <- <-. exists []. by rewrite app_nil_r.
Qed.

Lemma evoluir_geracao_inv (tipo : string) (mut : bool) (s s' : Motor) :
  evoluir_geracao tipo mut s = (Ok tt, s') ->
  exists filhos,
    self s'
    = AG.com_populacao (self s)
        (take (AG.tamanho_populacao (self s))
              (py_slice_to (py_sort_desc Cromossomo.fitness
                                         (AG.populacao (self s)))
                           (elite_size (self s)) ++ filhos)).
Proof.
  unfold evoluir_geracao, bind, ler, gravar_populacao, com_fonte. simpl.
  match goal with
  | |- context [preencher ?a ?b ?c ?d ?e ?f] =>
      destruct (preencher a b c d e f) as [[nova| |] r1] eqn:E
  end; try done.
  intros [= <-]. simpl.
  apply preencher_prefixo in E as (filhos & ->).
  by exists filhos.
Qed.

Lemma laco_geracoes_passo (n : nat) (tipo : string) (mut : bool)
    (h h' : Historicos) (s s' : Motor) :
  laco_geracoes (S n) tipo mut h s = (Ok h', s') ->
  exists melhor_atual,
    py_max_por Cromossomo.fitness (avaliada (self s) (AG.populacao (self s)))
    = Ok melhor_atual /\
    let s2 := motor_registrado s melhor_atual in
    let h1 := historico_registrado h melhor_atual in
    (h' = h1 /\ s' = s2 /\
     (criterio_parada_avancado (h_fitness h1) janela_padrao tolerancia_padrao
      = Ok true \/
      AG.geracoes_sem_melhoria_max (self s2) <= AG.geracoes_sem_melhoria (self s2)))
    \/
    (criterio_parada_avancado (h_fitness h1) janela_padrao tolerancia_padrao
     = Ok false /\
     AG.geracoes_sem_melhoria (self s2) < AG.geracoes_sem_melhoria_max (self s2) /\
     exists s3, evoluir_geracao tipo mut s2 = (Ok tt, s3) /\
                laco_geracoes n tipo mut h1 s3 = (Ok h', s')).
Proof.
  intros H. cbn [laco_geracoes] in H.
  unfold bind at 1 in H. rewrite avaliar_populacao_total in H.
  unfold bind at 1 in H. unfold ler at 1 in H. cbn [self fonte] in H.
  unfold bind at 1 in H. unfold de_res at 1 in H.
  rewrite (ltac:(reflexivity) :
    AG.populacao (AG.com_populacao (self s)
                    (avaliada (self s) (AG.populacao (self s))))
    = avaliada (self s) (AG.populacao (self s))) in H.
  destruct (py_max_por Cromossomo.fitness
              (avaliada (self s) (AG.populacao (self s))))
    as [melhor_atual| |] eqn:Emax; try done.
  exists melhor_atual. split; [done|].
  unfold bind at 1 in H.
  assert (Ereg : forall k : unit -> Comp Motor Historicos,
    (match
       (if supera (Cromossomo.fitness melhor_atual)
             (AG.melhor_fitness (AG.com_populacao (self s)
                (avaliada (self s) (AG.populacao (self s)))))
        then gravar_melhor (Finito (Cromossomo.fitness melhor_atual)) 0
        else gravar_melhor
               (AG.melhor_fitness (AG.com_populacao (self s)
                  (avaliada (self s) (AG.populacao (self s)))))
               (AG.geracoes_sem_melhoria (AG.com_populacao (self s)
                  (avaliada (self s) (AG.populacao (self s)))) + 1))
         {| self := AG.com_populacao (self s)
                      (avaliada (self s) (AG.populacao (self s)));
            fonte := fonte s |}
     with
     | (Ok a, s0) => k a s0
     | (Levanta e, s0) => (Levanta e, s0)
     | (Esgotado, s0) => (Esgotado, s0)
     end) = k tt (motor_registrado s melhor_atual)).
  { intros k. unfold motor_registrado, registrar, gravar_melhor. cbn [fst snd].
    by destruct (supera _ _). }
  rewrite Ereg in H. clear Ereg.
  unfold bind at 1 in H. unfold de_res at 1 in H.
  change {| h_fitness := h_fitness h ++ [Cromossomo.fitness melhor_atual];
            h_custo := h_custo h ++ [custo_de melhor_atual] |}
    with (historico_registrado h melhor_atual) in H.
  destruct (criterio_parada_avancado
              (h_fitness (historico_registrado h melhor_atual))
              janela_padrao tolerancia_padrao) as [[|]| |] eqn:Ecrit; try done.
  { injection H as <- <-. left. auto. }
  unfold bind at 1 in H. unfold ler at 1 in H.
  destruct (decide (_ <= _)) as [Hge|Hlt].
  { injection H as <- <-. left. auto. }
  right. split; [done|]. split; [lia|].
  unfold bind at 1 in H.
  destruct (evoluir_geracao tipo mut (motor_registrado s melhor_atual))
    as [[[]| |] s3] eqn:Eev; try done.
  by exists s3.
Qed.

(** ** What a run leaves unchanged *)

Lemma mesma_config_refl (a : AG.t) : mesma_config a a.
Proof. by repeat split. Qed.

Lemma mesma_config_trans (a b c : AG.t) :
  mesma_config a b -> mesma_config b c -> mesma_config a c.
Proof.
  intros (A1 & A2 & A3 & A4 & A5 & A6 & A7 & A8)
         (B1 & B2 & B3 & B4 & B5 & B6 & B7 & B8).
  repeat split; congruence.
Qed.

Lemma mesma_config_populacao (a : AG.t) (p : list Cromossomo.t) :
  mesma_config a (AG.com_populacao a p).
Proof. by repeat split. Qed.

Lemma mesma_config_registrado (s : Motor) (m : Cromossomo.t) :
  mesma_config (self s) (self (motor_registrado s m)).
Proof. by repeat split. Qed.

Lemma elite_size_config (a b : AG.t) :
  mesma_config a b -> elite_size a = elite_size b.
Proof.
  intros (_ & H2 & _ & H4 & _). unfold elite_size. by rewrite H2, H4.
Qed.

Lemma para_estado {St A B} (f : A -> B -> Comp St B) (P : St -> Prop)
    (xs : list A) :
  forall acc s,
    P s ->
    (forall x b s0, P s0 -> P (f x b s0).2) ->
    P (para xs f acc s).2.
Proof.
  induction xs as [|x xs IH]; intros acc s Hs Hf; [done|].
  simpl. unfold bind. pose proof (Hf x acc s Hs) as H1.
  destruct (f x acc s) as [[b| |] s1]; simpl in *; try done.
  by apply IH.
Qed.

Lemma gerar_populacao_inicial_config (s : Motor) :
  exists pop, self (gerar_populacao_inicial s).2 = AG.com_populacao (self s) pop.
Proof.
  unfold gerar_populacao_inicial, bind, ler. cbn [fst snd].
  destruct (vazia (AG.pessoas (self s))).
  { exists (AG.populacao (self s)). by destruct s as [[] ?]. }
  unfold gravar_populacao at 1. cbn [self fonte].
  apply (para_estado _ (fun s1 => exists pop, self s1 = AG.com_populacao (self s) pop)).
  { by eexists. }
  intros x b s0 [pop Hpop]. unfold bind, com_fonte, ler, gravar_populacao.
  destruct (para (AG.pessoas (self s0)) escolher_genes ([], []) (fonte s0))
    as [[sel| |] r1]; simpl; try by eexists.
  rewrite Hpop. by eexists.
Qed.

Lemma laco_geracoes_basico (tipo : string) (mut : bool) (n : nat) :
  forall h s h' s',
    laco_geracoes n tipo mut h s = (Ok h', s') ->
    mesma_config (self s) (self s') /\
    (exists suf, h_fitness h' = h_fitness h ++ suf /\ length suf <= n) /\
    (length (h_fitness h) = length (h_custo h) ->
     length (h_fitness h') = length (h_custo h')).
Proof.
  induction n as [|n IH]; intros h s h' s' H.
  { injection H as <- <-. split; [apply mesma_config_refl|].
    split; [|done]. exists []. by rewrite app_nil_r. }
  apply laco_geracoes_passo in H as (m & Emax & [(-> & -> & _)|(_ & _ & s3 & Eev & H)]).
  - split; [apply mesma_config_registrado|]. split.
    + exists [Cromossomo.fitness m]. split; [done|simpl; lia].
    + intros L. simpl. rewrite !length_app, L. done.
  - apply IH in H as (Hc & (suf & Es & Ls) & Hl).
    apply evoluir_geracao_inv in Eev as (filhos & Eself).
    split; [|split].
    + eapply mesma_config_trans; [apply mesma_config_registrado|].
      eapply mesma_config_trans; [|exact Hc].
      rewrite Eself. apply mesma_config_populacao.
    + exists (Cromossomo.fitness m :: suf). simpl in Es.
      rewrite Es, <- app_assoc. split; [done|simpl; lia].
    + intros L. apply Hl. simpl. rewrite !length_app, L. done.
Qed.

(** ** Elitism *)

Lemma elite_size_tamanho (eu : AG.t) :
  (1 <= elite_size eu)%Z -> 1 <= AG.tamanho_populacao eu.
Proof.
  unfold elite_size, py_int. destruct (AG.tamanho_populacao eu); [|lia].
  simpl. rewrite Z.mul_0_r, Z.quot_0_l; [lia|done].
Qed.

Lemma avaliada_config (a b : AG.t) (pop : list Cromossomo.t) :
  mesma_config a b -> avaliada a pop = avaliada b pop.
Proof.
  intros H. unfold avaliada. apply list_fmap_ext. intros i c _.
  by rewrite (fitness_de_config a b).
Qed.

(** The elite of an evaluated population keeps a candidate of greatest
    fitness in the next population, whatever the children. *)
Lemma elite_preservada (eu : AG.t) (pop filhos : list Cromossomo.t) :
  (1 <= elite_size eu)%Z -> pop <> [] ->
  exists x,
    x ∈ take (AG.tamanho_populacao eu)
             (py_slice_to (py_sort_desc Cromossomo.fitness pop) (elite_size eu)
              ++ filhos) /\
    x ∈ pop /\
    forall c, c ∈ pop -> (Cromossomo.fitness c <= Cromossomo.fitness x)%Q.
Proof.
  intros He Hne.
  destruct (py_sort_desc_cabeca Cromossomo.fitness pop Hne) as (x & resto & E & Hx).
  exists x. split; [|split; [|done]].
  - rewrite E. unfold py_slice_to.
    destruct (decide (0 <= elite_size eu)%Z); [|lia].
    pose proof (elite_size_tamanho eu He) as Ht.
    destruct (Z.to_nat (elite_size eu)) as [|k] eqn:Ek; [lia|].
    destruct (AG.tamanho_populacao eu) as [|t]; [lia|].
    simpl. apply list_elem_of_here.
  - apply (elem_of_py_sort_desc Cromossomo.fitness). rewrite E.
    apply list_elem_of_here.
Qed.

Lemma nao_decrescente_snoc (hf : list Q) (F : Q) :
  nao_decrescente hf -> (forall f, f ∈ hf -> (f <= F)%Q) ->
  nao_decrescente (hf ++ [F]).
Proof.
  intros Hn Hle i x y Hx Hy.
  apply lookup_app_Some in Hy as [Hy|[Hge Hy]].
  - apply (Hn i x y); [|done].
    apply lookup_lt_Some in Hy. by rewrite lookup_app_l in Hx by lia.
  - apply list_lookup_singleton_Some in Hy as [Hi <-].
    rewrite lookup_app_l in Hx by lia.
    apply Hle. by eapply list_elem_of_lookup_2.
Qed.

Lemma cobertos_registro (eu : AG.t) (pop : list Cromossomo.t) (hf : list Q)
    (m : Cromossomo.t) :
  py_max_por Cromossomo.fitness (avaliada eu pop) = Ok m ->
  cobertos eu pop hf ->
  m ∈ avaliada eu pop /\
  Cromossomo.fitness m = fitness_de eu m /\
  (forall c, c ∈ avaliada eu pop ->
             (Cromossomo.fitness c <= Cromossomo.fitness m)%Q) /\
  (forall f, f ∈ hf ++ [Cromossomo.fitness m] ->
             (f <= Cromossomo.fitness m)%Q).
Proof.
  intros Emax Hc. apply py_max_por_spec in Emax as [Hin Hmax].
  split; [done|]. split; [by apply elem_of_avaliada in Hin as [? _]|].
  split; [done|].
  intros f Hf. apply elem_of_app in Hf as [Hf|Hf].
  - destruct (Hc f Hf) as (c & Hcin & Hfc).
    eapply Qle_trans; [exact Hfc|].
    specialize (Hmax (Cromossomo.com_fitness c (fitness_de eu c))).
    simpl in Hmax. apply Hmax.
    apply list_elem_of_fmap. by exists c.
  - apply list_elem_of_singleton in Hf as ->. apply Qle_refl.
Qed.

Lemma laco_geracoes_elite (tipo : string) (mut : bool) (eu0 : AG.t) (n : nat) :
  (1 <= elite_size eu0)%Z ->
  forall h s h' s',
    mesma_config eu0 (self s) ->
    cobertos eu0 (AG.populacao (self s)) (h_fitness h) ->
    nao_decrescente (h_fitness h) ->
    laco_geracoes n tipo mut h s = (Ok h', s') ->
    cobertos eu0 (AG.populacao (self s')) (h_fitness h') /\
    nao_decrescente (h_fitness h').
Proof.
  intros He. induction n as [|n IH]; intros h s h' s' Hcfg Hcob Hnd H.
  { by injection H as <- <-. }
  apply laco_geracoes_passo in H as (m & Emax & Hcasos).
  rewrite <- (avaliada_config eu0 (self s)) in Emax by done.
  destruct (cobertos_registro eu0 _ _ m Emax Hcob) as (Hm & Hfm & Hmax & Hle).
  assert (Hnd1 : nao_decrescente (h_fitness (historico_registrado h m))).
  { apply nao_decrescente_snoc; [done|].
    intros f Hf. apply Hle, elem_of_app. by left. }
  assert (Hpop2 : AG.populacao (self (motor_registrado s m))
                  = avaliada eu0 (AG.populacao (self s))).
  { simpl. by rewrite (avaliada_config eu0 (self s)). }
  assert (Hcob1 : cobertos eu0 (AG.populacao (self (motor_registrado s m)))
                    (h_fitness (historico_registrado h m))).
  { intros f Hf. exists m. rewrite Hpop2. split; [done|].
    rewrite <- Hfm. by apply Hle. }
  destruct Hcasos as [(-> & -> & _)|(_ & _ & s3 & Eev & H)]; [done|].
  apply evoluir_geracao_inv in Eev as (filhos & Eself).
  assert (Hcfg2 : mesma_config eu0 (self (motor_registrado s m))).
  { eapply mesma_config_trans; [exact Hcfg|apply mesma_config_registrado]. }
  apply (IH (historico_registrado h m) s3 h' s'); [| |done|done].
  - rewrite Eself. eapply mesma_config_trans; [exact Hcfg2|].
    apply mesma_config_populacao.
  - rewrite Eself. cbn [AG.populacao AG.com_populacao].
    rewrite Hpop2.
    rewrite <- (elite_size_config eu0 (self (motor_registrado s m))) by done.
    destruct Hcfg2 as (_ & <- & _).
    destruct (elite_preservada eu0 (avaliada eu0 (AG.populacao (self s)))
                filhos He) as (x & Hx & Hxin & Hxmax).
    { intros E. rewrite E in Hm. by apply elem_of_nil in Hm. }
    intros f Hf. exists x. split; [done|].
    apply elem_of_avaliada in Hxin as [<- _].
    eapply Qle_trans; [by apply Hle|]. by apply Hxmax.
Qed.

(** One step: with a non-empty elite, the best fitness of the population
    built by [evoluir_geracao], once evaluated, is at least the best fitness
    of the evaluated population it was built from. *)
Lemma evoluir_geracao_elitismo (tipo : string) (mut : bool) (s s' : Motor)
    (m m' : Cromossomo.t) :
  (1 <= elite_size (self s))%Z ->
  (forall c, c ∈ AG.populacao (self s) ->
             Cromossomo.fitness c = fitness_de (self s) c) ->
  evoluir_geracao tipo mut s = (Ok tt, s') ->
  py_max_por Cromossomo.fitness (AG.populacao (self s)) = Ok m ->
  py_max_por Cromossomo.fitness (avaliada (self s') (AG.populacao (self s')))
  = Ok m' ->
  (Cromossomo.fitness m <= Cromossomo.fitness m')%Q.
Proof.
  intros He Hav Eev Em Em'.
  apply evoluir_geracao_inv in Eev as (filhos & Eself).
  apply py_max_por_spec in Em as [Hm _].
  apply py_max_por_spec in Em' as [_ Hmax'].
  destruct (elite_preservada (self s) (AG.populacao (self s)) filhos He)
    as (x & Hx & Hxin & Hxmax).
  { intros E. rewrite E in Hm. by apply elem_of_nil in Hm. }
  eapply Qle_trans; [by apply Hxmax|].
  rewrite (Hav x Hxin).
  rewrite Eself in Hmax'. cbn [AG.populacao AG.com_populacao] in Hmax'.
  specialize (Hmax' (Cromossomo.com_fitness x
                       (fitness_de (AG.com_populacao (self s)
                          (take (AG.tamanho_populacao (self s))
                             (py_slice_to
                                (py_sort_desc Cromossomo.fitness
                                   (AG.populacao (self s)))
                                (elite_size (self s)) ++ filhos))) x))).
  cbn [Cromossomo.fitness Cromossomo.com_fitness] in Hmax'.
  rewrite (fitness_de_config (self s) (AG.com_populacao (self s)
             (take (AG.tamanho_populacao (self s))
                (py_slice_to
                   (py_sort_desc Cromossomo.fitness (AG.populacao (self s)))
                   (elite_size (self s)) ++ filhos))))
    by apply mesma_config_populacao.
  apply Hmax'. apply list_elem_of_fmap. by exists x.
Qed.

(** ** The driver *)

Lemma executar_inv (n : nat) (tipo : string) (mut : bool) (s s' : Motor)
    (sol : Cromossomo.t) (h : Historicos) :
  executar n tipo mut s = (Ok (Some sol, h), s') ->
  exists s1 s2,
    gerar_populacao_inicial s = (Ok tt, s1) /\
    laco_geracoes n tipo mut historicos_vazios s1 = (Ok h, s2) /\
    py_max_por Cromossomo.fitness (avaliada (self s2) (AG.populacao (self s2)))
    = Ok sol /\
    s' = {| self := AG.com_populacao (self s2)
                      (avaliada (self s2) (AG.populacao (self s2)));
            fonte := fonte s2 |}.
Proof.
  unfold executar, bind, ler, tentar.
  destruct (vazia (AG.pessoas (self s))); [done|].
  destruct (gerar_populacao_inicial s) as [[[]|[]|] s1] eqn:Eg; try done.
  destruct (laco_geracoes n tipo mut historicos_vazios s1)
    as [[h1| |] s2] eqn:El; try done.
  rewrite avaliar_populacao_total. unfold de_res. cbn [self fonte].
  rewrite (ltac:(reflexivity) :
    AG.populacao (AG.com_populacao (self s2)
                    (avaliada (self s2) (AG.populacao (self s2))))
    = avaliada (self s2) (AG.populacao (self s2))).
  destruct (py_max_por _ _) as [m| |] eqn:Em; try done.
  intros [= <- <- <-]. by exists s1, s2.
Qed.

(** Without a solution the histories are empty. *)
Lemma executar_sem_solucao (n : nat) (tipo : string) (mut : bool) (s s' : Motor)
    (h : Historicos) :
  executar n tipo mut s = (Ok (None, h), s') -> h = historicos_vazios.
Proof.
  unfold executar, bind, ler, tentar.
  destruct (vazia (AG.pessoas (self s))); [by intros [= <- <-]|].
  destruct (gerar_populacao_inicial s) as [[[]|[]|] s1]; try done;
    try by intros [= <- <-].
  destruct (laco_geracoes n tipo mut historicos_vazios s1)
    as [[h1| |] s2]; try done.
  destruct (avaliar_populacao s2) as [[[]| |] s3]; try done.
  unfold de_res. by destruct (py_max_por _ _).
Qed.

Lemma semeadura_config (s s1 : Motor) :
  gerar_populacao_inicial s = (Ok tt, s1) ->
  exists pop, self s1 = AG.com_populacao (self s) pop.
Proof.
  intros E. destruct (gerar_populacao_inicial_config s) as [pop Hpop].
  rewrite E in Hpop. by exists pop.
Qed.

Lemma nao_decrescente_nil : nao_decrescente [].
Proof. intros i x y Hx. by rewrite lookup_nil in Hx. Qed.

Lemma executar_elite (n : nat) (tipo : string) (mut : bool) (s s' : Motor)
    (sol : Cromossomo.t) (h : Historicos) :
  (1 <= elite_size (self s))%Z ->
  executar n tipo mut s = (Ok (Some sol, h), s') ->
  nao_decrescente (h_fitness h) /\
  forall f, f ∈ h_fitness h -> (f <= Cromossomo.fitness sol)%Q.
Proof.
  intros He H. apply executar_inv in H as (s1 & s2 & Eg & El & Em & ->).
  apply semeadura_config in Eg as [pop0 E1].
  assert (Hc1 : mesma_config (self s) (self s1)).
  { rewrite E1. apply mesma_config_populacao. }
  assert (Hvazio : cobertos (self s) (AG.populacao (self s1))
                            (h_fitness historicos_vazios)).
  { intros f Hf. by apply elem_of_nil in Hf. }
  destruct (laco_geracoes_elite tipo mut (self s) n He _ _ _ _ Hc1
              Hvazio nao_decrescente_nil El) as [Hcob Hnd].
  split; [done|].
  apply laco_geracoes_basico in El as (Hc2 & _).
  assert (Hc : mesma_config (self s) (self s2))
    by (eapply mesma_config_trans; eassumption).
  rewrite <- (avaliada_config (self s) (self s2)) in Em by done.
  apply py_max_por_spec in Em as [_ Hmax].
  intros f Hf. destruct (Hcob f Hf) as (c & Hcin & Hfc).
  eapply Qle_trans; [exact Hfc|].
  specialize (Hmax (Cromossomo.com_fitness c (fitness_de (self s) c))).
  apply Hmax, list_elem_of_fmap. by exists c.
Qed.

(** C2 (amended).  When the elite is not empty
    ([int(taxa_elite * tamanho_populacao) >= 1]) the recorded best-fitness
    history of a run never decreases: the best fitness of each generation is
    at least that of the generation before. *)
Theorem historico_nao_decrescente (n : nat) (tipo : string) (mut : bool)
    (s s' : Motor) (sol : option Cromossomo.t) (h : Historicos) :
  (1 <= elite_size (self s))%Z ->
  executar n tipo mut s = (Ok (sol, h), s') ->
  nao_decrescente (h_fitness h).
Proof.
  intros He H. destruct sol as [sol|].
  - by apply (executar_elite n tipo mut s s' sol h He).
  - apply executar_sem_solucao in H as ->. apply nao_decrescente_nil.
Qed.

Lemma historico_nao_decrescente_witness :
  (1 <= elite_size (self motor_com_elite))%Z /\
  exists sol h s',
    executar 30 "uniforme" false motor_com_elite = (Ok (sol, h), s') /\
    length (h_fitness h) = 6 /\
    nao_decrescente (h_fitness h).
Proof.
  split; [vm_compute; discriminate|].
  eexists _, _, _. split; [vm_compute; reflexivity|].
  split; [reflexivity|].
  eapply (historico_nao_decrescente 30 "uniforme" false motor_com_elite).
  - vm_compute. discriminate.
  - vm_compute. reflexivity.
Defined.

(** C2 as stated fails: with [taxa_elite = 0.5 > 0] and a population of one
    candidate no elite is kept ([int(0.5) = 0]) and the best fitness drops
    from -200 to -220 between the first two generations. *)
Lemma historico_decresce_sem_elite :
  (0 < AG.taxa_elite (self motor_sem_elite))%Q /\
  1 <= AG.tamanho_populacao (self motor_sem_elite) /\
  exists sol h s' x y,
    executar 2 "uniforme" false motor_sem_elite = (Ok (sol, h), s') /\
    h_fitness h !! 0 = Some x /\ h_fitness h !! 1 = Some y /\ (y < x)%Q.
Proof.
  split; [reflexivity|]. split; [simpl; lia|].
  eexists _, _, _, _, _. split; [vm_compute; reflexivity|].
  split; [reflexivity|]. split; [reflexivity|]. reflexivity.
Qed.

(** C7 (the code differs).  [executar] returns the fittest candidate of the
    final population and keeps no best candidate of earlier generations:
    with one agent, a population of one, [taxa_elite = 0.5] (no elite, as
    [int(0.5) = 0]) and [taxa_mutacao = 1] the run of one generation records
    a best fitness of -200 and then returns a candidate of fitness -220,
    which is not the best solution found. *)
Lemma executar_devolve_pior_que_historico :
  exists sol h s' x,
    executar 1 "uniforme" false motor_sem_elite = (Ok (Some sol, h), s') /\
    x ∈ h_fitness h /\ (Cromossomo.fitness sol < x)%Q.
Proof.
  eexists _, _, _, _. split; [vm_compute; reflexivity|].
  split; [apply list_elem_of_here|]. reflexivity.
Qed.

(** ** The stagnation rule *)

Lemma apos_historico_snoc (ini : Melhor * nat) (l : list Q) (f : Q) :
  apos_historico ini (l ++ [f]) = registrar (apos_historico ini l) f.
Proof. unfold apos_historico. by rewrite fold_left_app. Qed.

Lemma supera_Qeq (x y : Q) (m : Melhor) :
  (x == y)%Q -> supera x m = supera y m.
Proof.
  intros E. destruct m as [|q]; [done|]. simpl.
  destruct (Qltb q y) eqn:Ey.
  - apply Qltb_lt. apply Qltb_lt in Ey. by rewrite E.
  - apply Qltb_ge. apply Qltb_ge in Ey. by rewrite E.
Qed.

Lemma cobre_registrar (m : Melhor * nat) (f y : Q) :
  cobre m.1 y -> cobre (registrar m f).1 y.
Proof.
  unfold cobre, registrar. intros H.
  destruct (supera f m.1) eqn:Ef; [|done]. simpl.
  destruct m as [[|b] c]; simpl in *; [done|].
  apply Qltb_ge. apply Qltb_ge in H. apply Qltb_lt in Ef.
  apply Qlt_le_weak. by eapply Qle_lt_trans.
Qed.

Lemma cobre_registrado (m : Melhor * nat) (f : Q) : cobre (registrar m f).1 f.
Proof.
  unfold cobre, registrar. destruct (supera f m.1) eqn:Ef; [|done].
  simpl. apply Qltb_ge, Qle_refl.
Qed.

(** Best-fitness-seen is at least every entry recorded so far. *)
Lemma melhor_cobre (ini : Melhor * nat) (l : list Q) (y : Q) :
  y ∈ l -> cobre (apos_historico ini l).1 y.
Proof.
  induction l as [|f l IH] using rev_ind; intros Hy.
  { by apply elem_of_nil in Hy. }
  rewrite apos_historico_snoc. apply elem_of_app in Hy as [Hy|Hy].
  - by apply cobre_registrar, IH.
  - apply list_elem_of_singleton in Hy as ->. apply cobre_registrado.
Qed.

Lemma contador_snoc_cobre (ini : Melhor * nat) (l : list Q) (f : Q) :
  cobre (apos_historico ini l).1 f ->
  contador_apos ini (l ++ [f]) = contador_apos ini l + 1.
Proof.
  unfold contador_apos, cobre. intros H.
  rewrite apos_historico_snoc. unfold registrar. by rewrite H.
Qed.

Lemma contador_snoc_zero (ini : Melhor * nat) (l : list Q) (f : Q) :
  contador_apos ini (l ++ [f]) = 0 -> supera f (apos_historico ini l).1 = true.
Proof.
  unfold contador_apos. rewrite apos_historico_snoc. unfold registrar.
  destruct (supera f (apos_historico ini l).1); [done|]. simpl. lia.
Qed.

Section Estagnacao.
Variables (ini : Melhor * nat) (hf : list Q) (smax g : nat) (x : Q).
Hypothesis Hini : ini.1 = MenosInf \/ 1 <= smax.
Hypothesis Hsem : sem_parada_antecipada ini smax hf.
Hypothesis Hconst :
  forall k, k <= smax -> exists y, hf !! (g + k) = Some y /\ (y == x)%Q.

Lemma contador_no_trecho_constante (k : nat) :
  k <= smax ->
  contador_apos ini (take (g + k + 1) hf)
  = contador_apos ini (take (g + 1) hf) + k.
Proof using Hini Hsem Hconst.
  induction k as [|k IH]; intros Hk.
  { by rewrite !Nat.add_0_r. }
  destruct (Hconst k) as (y & Hy & Ey); [lia|].
  destruct (Hconst (S k)) as (y' & Hy' & Ey'); [lia|].
  replace (g + S k + 1) with (S (g + S k)) by lia.
  rewrite (take_S_r _ _ y') by done.
  rewrite contador_snoc_cobre.
  - replace (g + S k) with (g + k + 1) by lia. rewrite IH by lia. lia.
  - unfold cobre. rewrite (supera_Qeq y' y) by (by rewrite Ey, Ey').
    apply melhor_cobre.
    replace (g + S k) with (S (g + k)) by lia.
    rewrite (take_S_r _ _ y) by done.
    apply elem_of_app. right. apply list_elem_of_here.
Qed.

Lemma estagnacao_comprimento : length hf = g + smax + 1.
Proof using Hini Hsem Hconst.
  destruct (Hconst smax) as (y & Hy & _); [lia|].
  apply lookup_lt_Some in Hy.
  destruct (decide (length hf = g + smax + 1)) as [|Hne]; [done|].
  assert (Hk : 0 < g + smax + 1 < length hf) by lia.
  apply Hsem in Hk. rewrite contador_no_trecho_constante in Hk by lia. lia.
Qed.

Lemma estagnacao_inicio : contador_apos ini (take (g + 1) hf) = 0.
Proof using Hini Hsem Hconst.
  pose proof estagnacao_comprimento as L.
  destruct (decide (smax = 0)) as [E0|Hpos].
  - destruct Hini as [Hm|Hs]; [|lia].
    destruct (decide (g = 0)) as [Eg|Hg].
    + destruct (Hconst 0) as (y & Hy & _); [lia|].
      rewrite Eg in *. simpl in Hy.
      change (0 + 1) with 1. rewrite (take_S_r _ _ y) by done.
      unfold contador_apos, apos_historico, registrar. simpl.
      by rewrite Hm.
    + assert (Hk : 0 < 1 < length hf) by lia.
      apply Hsem in Hk. lia.
  - assert (Hk : 0 < g + (smax - 1) + 1 < length hf) by lia.
    apply Hsem in Hk.
    rewrite contador_no_trecho_constante in Hk by lia. lia.
Qed.

Lemma estagnacao_contador : contador_apos ini hf = smax.
Proof using Hini Hsem Hconst.
  pose proof estagnacao_comprimento as L.
  pose proof (contador_no_trecho_constante smax (Nat.le_refl _)) as H.
  rewrite estagnacao_inicio in H.
  rewrite take_ge in H by lia. lia.
Qed.

Lemma estagnacao_melhoria (j : nat) (y : Q) :
  j < g -> hf !! j = Some y -> (y < x)%Q.
Proof using Hini Hsem Hconst.
  intros Hj Hy.
  destruct (Hconst 0) as (y0 & Hy0 & Ey0); [lia|].
  rewrite Nat.add_0_r in Hy0.
  pose proof estagnacao_inicio as H0.
  replace (g + 1) with (S g) in H0 by lia.
  rewrite (take_S_r _ _ y0) in H0 by done.
  apply contador_snoc_zero in H0.
  assert (Hc : cobre (apos_historico ini (take g hf)).1 y).
  { apply melhor_cobre. apply list_elem_of_lookup. exists j.
    by rewrite lookup_take_lt. }
  unfold cobre in Hc.
  destruct (apos_historico ini (take g hf)).1 as [|b]; [done|].
  simpl in *. apply Qltb_ge in Hc. apply Qltb_lt in H0.
  rewrite <- Ey0. by eapply Qle_lt_trans.
Qed.
End Estagnacao.

Lemma laco_geracoes_contagem (tipo : string) (mut : bool)
    (ini : Melhor * nat) (n : nat) :
  forall h s h' s',
    estado_de_parada (self s) = apos_historico ini (h_fitness h) ->
    laco_geracoes n tipo mut h s = (Ok h', s') ->
    estado_de_parada (self s') = apos_historico ini (h_fitness h') /\
    forall k, length (h_fitness h) < k < length (h_fitness h') ->
      contador_apos ini (take k (h_fitness h'))
      < AG.geracoes_sem_melhoria_max (self s).
Proof.
  induction n as [|n IH]; intros h s h' s' Hest H.
  { injection H as <- <-. split; [done|]. intros k Hk. lia. }
  apply laco_geracoes_passo in H as (m & Emax & Hcasos).
  assert (Hest2 :
    estado_de_parada (self (motor_registrado s m))
    = apos_historico ini (h_fitness (historico_registrado h m))).
  { simpl. rewrite apos_historico_snoc, <- Hest.
    unfold estado_de_parada. simpl. by destruct (registrar _ _). }
  destruct Hcasos as [(-> & -> & _)|(_ & Hlt & s3 & Eev & H)].
  { split; [done|]. intros k Hk. simpl in Hk. rewrite length_app in Hk.
    simpl in Hk. lia. }
  apply evoluir_geracao_inv in Eev as (filhos & Eself).
  pose proof H as Hb.
  apply laco_geracoes_basico in Hb as (_ & (suf & Esuf & _) & _).
  apply IH in H as [Hfim Hk]; [|by rewrite Eself].
  split; [done|].
  intros k Hkk.
  assert (Hsmax : AG.geracoes_sem_melhoria_max (self s3)
                  = AG.geracoes_sem_melhoria_max (self s))
    by (by rewrite Eself).
  destruct (decide (k = length (h_fitness (historico_registrado h m))))
    as [->|Hne].
  - rewrite Esuf, take_app_length.
    unfold contador_apos. rewrite <- Hest2.
    unfold estado_de_parada. simpl in *. lia.
  - rewrite <- Hsmax. apply Hk. simpl in *. rewrite length_app in *.
    simpl in *. lia.
Qed.

(** ** The fuel of the [while] loop is never exhausted *)

Create HintDb esgota.

Lemma ne_ret {St A} (a : A) : nunca_esgota (@ret St A a).
Proof. by intros s. Qed.

Lemma ne_levanta {St A} (e : Excecao) : nunca_esgota (@levanta St A e).
Proof. by intros s. Qed.

Lemma ne_de_res {St A} (r : Res A) : definido r -> nunca_esgota (@de_res St A r).
Proof. by intros H s. Qed.

Lemma ne_bind {St A B} (m : Comp St A) (k : A -> Comp St B) :
  nunca_esgota m -> (forall a, nunca_esgota (k a)) -> nunca_esgota (bind m k).
Proof.
  intros Hm Hk s. unfold bind. specialize (Hm s).
  destruct (m s) as [[a| |] s1]; simpl in *; try done. apply Hk.
Qed.

Lemma ne_para {St A B} (f : A -> B -> Comp St B) (xs : list A) (acc : B) :
  (forall x b, nunca_esgota (f x b)) -> nunca_esgota (para xs f acc).
Proof.
  intros Hf. revert acc. induction xs as [|x xs IH]; intros acc; simpl.
  - apply ne_ret.
  - apply ne_bind; [apply Hf|]. intros b. apply IH.
Qed.

Lemma def_ligar {A B} (r : Res A) (k : A -> Res B) :
  definido r -> (forall a, definido (k a)) -> definido (ligar r k).
Proof. intros Hr Hk. destruct r; simpl; [apply Hk|done|done]. Qed.

Lemma def_Ok {A} (a : A) : definido (Ok a).
Proof. done. Qed.

Lemma def_Levanta {A} (e : Excecao) : definido (@Levanta A e).
Proof. done. Qed.

#[local] Hint Resolve def_Ok def_Levanta : esgota.

(** Structural steps; calls are closed by the lemmas of the database. *)
Ltac nao_esgota :=
  repeat first
    [ progress intros
    | progress cbv zeta
    | apply ne_ret
    | apply ne_levanta
    | apply ne_bind
    | apply ne_para
    | apply ne_de_res
    | apply def_ligar
    | solve [auto with esgota]
    | match goal with
      | |- nunca_esgota (if ?b then _ else _) => destruct b
      | |- nunca_esgota (match ?x with _ => _ end) => destruct x
      | |- definido (if ?b then _ else _) => destruct b
      | |- definido (match ?x with _ => _ end) => destruct x
      end ].

Lemma def_py_index {A} (l : list A) (i : nat) : definido (py_index l i).
Proof. unfold py_index. nao_esgota. Qed.

Lemma def_py_set {A} (l : list A) (i : nat) (x : A) : definido (py_set l i x).
Proof. unfold py_set. nao_esgota. Qed.

Lemma def_py_min (l : list Z) : definido (py_min l).
Proof. unfold py_min. nao_esgota. Qed.

Lemma def_py_max (l : list Z) : definido (py_max l).
Proof. unfold py_max. nao_esgota. Qed.

#[local] Hint Resolve def_py_index def_py_set def_py_min def_py_max : esgota.

Lemma def_py_index_neg {A} (l : list A) (k : nat) : definido (py_index_neg l k).
Proof. unfold py_index_neg. nao_esgota. Qed.

#[local] Hint Resolve def_py_index_neg : esgota.

Lemma def_py_list_index (l : list Z) (x : Z) : definido (py_list_index l x).
Proof.
  induction l as [|y l IH]; simpl; [done|].
  destruct (decide (y = x)); [done|]. by destruct (py_list_index l x).
Qed.

Lemma def_py_max_por {A} (chave : A -> Q) (l : list A) :
  definido (py_max_por chave l).
Proof. unfold py_max_por. nao_esgota. Qed.

Lemma def_span_horas (h : list Z) : definido (span_horas h).
Proof. unfold span_horas. nao_esgota. Qed.

Lemma def_passo_custo (pai1 pai2 : Cromossomo.t) (i : nat) (f : Filhos) :
  definido (passo_custo pai1 pai2 i f).
Proof. unfold passo_custo. nao_esgota. Qed.

Lemma def_criterio (hf : list Q) (janela : nat) (tol : Q) :
  definido (criterio_parada_avancado hf janela tol).
Proof. unfold criterio_parada_avancado. nao_esgota. Qed.

#[local] Hint Resolve def_py_list_index def_py_max_por
  def_span_horas def_passo_custo def_criterio : esgota.

Lemma ne_sortear : nunca_esgota sortear.
Proof. by intros s. Qed.

#[local] Hint Resolve ne_sortear : esgota.

Lemma ne_random_random : nunca_esgota random_random.
Proof. unfold random_random. nao_esgota. Qed.

Lemma ne_random_randint (a b : Z) : nunca_esgota (random_randint a b).
Proof. unfold random_randint. nao_esgota. Qed.

Lemma ne_random_choice {A} (l : list A) : nunca_esgota (random_choice l).
Proof. unfold random_choice. nao_esgota. Qed.

Lemma ne_amostrar {A} (k : nat) (urna : list A) : nunca_esgota (amostrar k urna).
Proof.
  revert urna. induction k as [|k IH]; intros urna; simpl; nao_esgota.
Qed.

#[local] Hint Resolve ne_random_random ne_random_randint ne_random_choice
  ne_amostrar : esgota.

Lemma ne_random_sample {A} (l : list A) (k : nat) :
  nunca_esgota (random_sample l k).
Proof. unfold random_sample. nao_esgota. Qed.

#[local] Hint Resolve ne_random_sample : esgota.

Lemma ne_cruzamento_ponto_unico (pai1 pai2 : Cromossomo.t) :
  nunca_esgota (cruzamento_ponto_unico pai1 pai2).
Proof. unfold cruzamento_ponto_unico. nao_esgota. Qed.

#[local] Hint Resolve ne_cruzamento_ponto_unico : esgota.

Lemma ne_cruzamento_dois_pontos (pai1 pai2 : Cromossomo.t) :
  nunca_esgota (cruzamento_dois_pontos pai1 pai2).
Proof. unfold cruzamento_dois_pontos. nao_esgota. Qed.

Lemma ne_cruzamento_uniforme (pai1 pai2 : Cromossomo.t) :
  nunca_esgota (cruzamento_uniforme pai1 pai2).
Proof. unfold cruzamento_uniforme, passo_uniforme. nao_esgota. Qed.

#[local] Hint Resolve ne_cruzamento_dois_pontos ne_cruzamento_uniforme : esgota.

Lemma ne_cruzamento_baseado_custo (pai1 pai2 : Cromossomo.t) :
  nunca_esgota (cruzamento_baseado_custo pai1 pai2).
Proof. unfold cruzamento_baseado_custo. nao_esgota. Qed.

Lemma ne_cruzamento_baseado_horario (pai1 pai2 : Cromossomo.t) :
  nunca_esgota (cruzamento_baseado_horario pai1 pai2).
Proof. unfold cruzamento_baseado_horario, passo_volta. nao_esgota. Qed.

#[local] Hint Resolve ne_cruzamento_baseado_custo
  ne_cruzamento_baseado_horario : esgota.

Lemma ne_cruzar (tipo : string) (pai1 pai2 : Cromossomo.t) :
  nunca_esgota (cruzar tipo pai1 pai2).
Proof. unfold cruzar. nao_esgota. Qed.

Lemma ne_selecao_torneio (t : nat) (taxa : Q) (eu : AG.t) :
  nunca_esgota (selecao_torneio t taxa eu).
Proof. unfold selecao_torneio. nao_esgota. Qed.

Lemma ne_passo_aleatorio (eu : AG.t) (taxa : Q) (i : nat) (c : Cromossomo.t) :
  nunca_esgota (passo_aleatorio eu taxa i c).
Proof. unfold passo_aleatorio. nao_esgota. Qed.

#[local] Hint Resolve ne_cruzar ne_selecao_torneio ne_passo_aleatorio : esgota.

Lemma ne_mutacao_tradicional (eu : AG.t) (c : Cromossomo.t) :
  nunca_esgota (mutacao_tradicional eu c).
Proof. unfold mutacao_tradicional. nao_esgota. Qed.

Lemma ne_reparar_ida (eu : AG.t) (c c1 : Cromossomo.t) :
  nunca_esgota (reparar_ida eu c c1).
Proof. unfold reparar_ida. nao_esgota. Qed.

Lemma ne_reparar_volta (eu : AG.t) (c c1 : Cromossomo.t) :
  nunca_esgota (reparar_volta eu c c1).
Proof. unfold reparar_volta. nao_esgota. Qed.

#[local] Hint Resolve ne_mutacao_tradicional ne_reparar_ida
  ne_reparar_volta : esgota.

Lemma ne_mutacao_inteligente (eu : AG.t) (c : Cromossomo.t) :
  nunca_esgota (mutacao_inteligente eu c).
Proof. unfold mutacao_inteligente. nao_esgota. Qed.

#[local] Hint Resolve ne_mutacao_inteligente : esgota.

Lemma ne_mutar (b : bool) (eu : AG.t) (c : Cromossomo.t) :
  nunca_esgota (mutar b eu c).
Proof. unfold mutar. nao_esgota. Qed.

#[local] Hint Resolve ne_mutar : esgota.

Lemma ne_gerar_par (tipo : string) (mut : bool) (eu : AG.t) :
  nunca_esgota (gerar_par tipo mut eu).
Proof. unfold gerar_par, selecao_torneio_padrao. nao_esgota. Qed.

(** Each turn of the loop adds two candidates: as many units of fuel as
    candidates are missing are enough. *)
Lemma ne_preencher (tipo : string) (mut : bool) (eu : AG.t) (combustivel : nat) :
  forall nova,
    AG.tamanho_populacao eu <= combustivel + length nova ->
    nunca_esgota (preencher combustivel tipo mut eu nova).
Proof.
  induction combustivel as [|n IH]; intros nova Hc; simpl.
  - destruct (decide (length nova < AG.tamanho_populacao eu)); [lia|].
    apply ne_ret.
  - destruct (decide (length nova < AG.tamanho_populacao eu)); [|apply ne_ret].
    apply ne_bind; [apply ne_gerar_par|].
    intros [[f1 f2]|]; [|apply ne_ret].
    apply IH. rewrite length_app. simpl. lia.
Qed.

Lemma ne_com_fonte {A} (m : AG.t -> Comp Fonte A) :
  (forall eu, nunca_esgota (m eu)) -> nunca_esgota (com_fonte m).
Proof.
  intros H s. unfold com_fonte. specialize (H (self s) (fonte s)).
  by destruct (m (self s) (fonte s)).
Qed.

Lemma ne_evoluir_geracao (tipo : string) (mut : bool) :
  nunca_esgota (evoluir_geracao tipo mut).
Proof.
  unfold evoluir_geracao.
  apply ne_bind; [by intros s|]. intros eu.
  apply ne_bind; [by intros s|]. intros _.
  apply ne_bind; [by intros s|]. intros eu1.
  apply ne_bind; [|by intros ? s].
  apply ne_com_fonte. intros eu2. apply ne_preencher. lia.
Qed.

Lemma ne_avaliar_populacao : nunca_esgota avaliar_populacao.
Proof. intros s. by rewrite avaliar_populacao_total. Qed.

Lemma ne_gerar_populacao_inicial : nunca_esgota gerar_populacao_inicial.
Proof.
  unfold gerar_populacao_inicial.
  apply ne_bind; [by intros s|]. intros eu.
  destruct (vazia (AG.pessoas eu)); [apply ne_levanta|].
  apply ne_bind; [by intros s|]. intros _.
  apply ne_para. intros _ _.
  apply ne_bind.
  - apply ne_com_fonte. intros eu1. apply ne_para. intros p sel.
    unfold escolher_genes. nao_esgota.
  - intros sel. apply ne_bind; [by intros s|]. by intros ? s.
Qed.

Lemma ne_laco_geracoes (tipo : string) (mut : bool) (n : nat) :
  forall h, nunca_esgota (laco_geracoes n tipo mut h).
Proof.
  induction n as [|n IH]; intros h; simpl; [apply ne_ret|].
  apply ne_bind; [apply ne_avaliar_populacao|]. intros _.
  apply ne_bind; [by intros s|]. intros eu.
  apply ne_bind; [apply ne_de_res, def_py_max_por|]. intros m.
  apply ne_bind; [destruct (supera _ _); by intros s|]. intros _.
  apply ne_bind; [apply ne_de_res, def_criterio|]. intros [|]; [apply ne_ret|].
  apply ne_bind; [by intros s|]. intros eu1.
  destruct (decide _); [apply ne_ret|].
  apply ne_bind; [apply ne_evoluir_geracao|]. intros _. apply IH.
Qed.

(** The driver never answers out-of-fuel: every run either returns or raises
    a Python exception. *)
Lemma executar_nunca_esgota (n : nat) (tipo : string) (mut : bool) :
  nunca_esgota (executar n tipo mut).
Proof.
  unfold executar.
  apply ne_bind; [by intros s|]. intros eu.
  destruct (vazia (AG.pessoas eu)); [apply ne_ret|].
  apply ne_bind.
  - intros s. unfold tentar. pose proof (ne_gerar_populacao_inicial s) as H.
    by destruct (gerar_populacao_inicial s) as [[[]|[]|] s1].
  - intros [[]|]; [|apply ne_ret].
    apply ne_bind; [apply ne_laco_geracoes|]. intros h.
    apply ne_bind; [apply ne_avaliar_populacao|]. intros _.
    apply ne_bind; [by intros s|]. intros eu1.
    apply ne_bind; [apply ne_de_res, def_py_max_por|]. intros m.
    apply ne_ret.
Qed.

(** C3 as stated fails: with a best fitness that is the same in every
    generation and a stagnation limit of 50, the run (allowed 1000
    generations) halts after generation 19, by the convergence window of 20
    generations, when the no-improvement counter is 19 and not 50. *)
Lemma convergencia_antecede_estagnacao :
  exists sol h s',
    executar 1000 "ponto_unico" false (motor_constante 50) = (Ok (sol, h), s') /\
    (forall x y, x ∈ h_fitness h -> y ∈ h_fitness h -> x = y) /\
    length (h_fitness h) = 20 /\
    AG.geracoes_sem_melhoria (self s') = 19 /\
    AG.geracoes_sem_melhoria_max (self s') = 50.
Proof.
  eexists _, _, _. split; [vm_compute; reflexivity|].
  split; [|repeat split].
  intros x y Hx Hy.
  repeat (apply elem_of_cons in Hx as [->|Hx]);
    [..|by apply elem_of_nil in Hx];
    repeat (apply elem_of_cons in Hy as [->|Hy]);
    first [reflexivity|by apply elem_of_nil in Hy].
Qed.

(** * Further properties of the engine *)

(** ** Loops over the engine state *)

Lemma devolve_para_estado {St A B} (f : A -> B -> Comp St B)
    (I : nat -> B -> St -> Prop) (xs : list A) :
  forall (k : nat) (acc : B) (s : St),
    I k acc s ->
    (forall j x b s0, xs !! j = Some x -> I (k + j) b s0 ->
       devolve (f x b) s0 (fun b' s1 => I (S (k + j)) b' s1)) ->
    devolve (para xs f acc) s (fun b' s' => I (k + length xs) b' s').
Proof.
  induction xs as [|x xs IH]; intros k acc s HI Hp; simpl.
  - apply devolve_ret. by rewrite Nat.add_0_r.
  - eapply devolve_bind.
    + apply (Hp 0 x acc s eq_refl). by rewrite Nat.add_0_r.
    + intros b1 s1 H1. rewrite Nat.add_0_r in H1.
      replace (k + S (length xs)) with (S k + length xs) by lia.
      apply IH; [done|].
      intros j y b s0 Hj Hb.
      replace (S k + j) with (k + S j) in * by lia.
      by apply (Hp (S j) y b s0).
Qed.

(** ** Tournament selection *)

Lemma length_inserir_desc {A} (chave : A -> Q) (x : A) (l : list A) :
  length (inserir_desc chave x l) = S (length l).
Proof.
  induction l as [|y l IH]; simpl; [done|].
  destruct (Qltb (chave x) (chave y)); simpl; by rewrite ?IH.
Qed.

Lemma length_py_sort_desc {A} (chave : A -> Q) (l : list A) :
  length (py_sort_desc chave l) = length l.
Proof.
  induction l as [|x l IH]; [done|].
  unfold py_sort_desc in *. simpl. by rewrite length_inserir_desc, IH.
Qed.

Lemma elem_of_posicoes (pop : list Cromossomo.t) (p : Pai) :
  p ∈ imap (fun i c => (i, c)) pop -> pop !! p.1 = Some p.2.
Proof.
  intros H. apply list_elem_of_lookup in H as [i Hi].
  rewrite list_lookup_imap in Hi.
  destruct (pop !! i) as [c|] eqn:E; simpl in Hi; [|done].
  by injection Hi as <-.
Qed.

Lemma selecao_torneio_membro (tamanho_torneio : nat)
    (taxa_nao_melhor : Q) (self : AG.t) (r : Fonte) :
  1 <= tamanho_torneio ->
  AG.populacao self <> [] ->
  devolve (selecao_torneio tamanho_torneio taxa_nao_melhor self) r
    (fun o _ => exists p, o = Some p /\ pai_da_populacao self p).
Proof.
  intros Ht Hne. unfold selecao_torneio.
  set (pop := imap (fun i c => (i, c)) (AG.populacao self)).
  assert (Lpop : length pop = length (AG.populacao self))
    by apply length_imap.
  destruct (decide (length pop < 2)) as [Hlt|Hge].
  { apply devolve_ret.
    destruct (AG.populacao self) as [|c l] eqn:E; [done|].
    exists (0, c). split; [done|]. unfold pai_da_populacao. by rewrite E. }
  eapply devolve_bind.
  { unfold random_sample.
    destruct (decide (length pop < tamanho_torneio `min` length pop)); [lia|].
    apply amostrar_devolve. lia. }
  intros comp s1 [Lc Hin]. cbv beta in *.
  eapply devolve_bind; [apply random_random_devolve|]. intros q s2 _.
  set (ord := py_sort_desc (fun x : Pai => Cromossomo.fitness x.2) comp).
  assert (Lord : length ord = tamanho_torneio `min` length pop).
  { unfold ord. by rewrite length_py_sort_desc. }
  assert (Hord : forall p, p ∈ ord -> pai_da_populacao self p).
  { intros p Hp. apply elem_of_posicoes, Hin.
    by apply (elem_of_py_sort_desc (fun x : Pai => Cromossomo.fitness x.2)). }
  destruct (Qltb q taxa_nao_melhor && bool_decide (1 < length ord)) eqn:Eb.
  - apply andb_true_iff in Eb as [_ Eb]. apply bool_decide_eq_true in Eb.
    eapply devolve_bind.
    { apply random_choice_devolve. intros E.
      apply (f_equal length) in E. rewrite length_drop in E. simpl in E. lia. }
    intros p s3 Hp. cbv beta in Hp. apply devolve_ret.
    exists p. split; [done|]. apply Hord.
    apply list_elem_of_lookup in Hp as [i Hi]. rewrite lookup_drop in Hi.
    by eapply list_elem_of_lookup_2.
  - destruct (py_index_lt ord 0) as (p & Hp & Ep); [lia|].
    eapply devolve_bind;
      [exact (devolve_de_res _ p _ (fun a _ => a = p) Ep eq_refl)|].
    intros ? s3 ->. apply devolve_ret.
    exists p. split; [done|]. apply Hord. by eapply list_elem_of_lookup_2.
Qed.

(** X1.  On an empty population [selecao_torneio] returns [None] and draws
    nothing; on a non-empty one, with a tournament size of at least one, it
    returns a candidate of the population (with its position) and never
    raises. *)
Theorem selecao_torneio_devolve_membro (tamanho_torneio : nat)
    (taxa_nao_melhor : Q) (self : AG.t) (r : Fonte) :
  1 <= tamanho_torneio ->
  (AG.populacao self = [] ->
   selecao_torneio tamanho_torneio taxa_nao_melhor self r = (Ok None, r)) /\
  (AG.populacao self <> [] ->
   devolve (selecao_torneio tamanho_torneio taxa_nao_melhor self) r
     (fun o _ => exists p, o = Some p /\ pai_da_populacao self p)).
Proof.
  intros Ht. split.
  - intros E. unfold selecao_torneio. by rewrite E.
  - by apply selecao_torneio_membro.
Qed.

Lemma selecao_torneio_devolve_membro_witness :
  devolve (selecao_torneio 3 (5 # 100) ag_com_pais) fonte_zero
    (fun o _ => exists p, o = Some p /\ pai_da_populacao ag_com_pais p).
Proof.
  destruct (selecao_torneio_devolve_membro 3 (5 # 100) ag_com_pais fonte_zero)
    as [_ H]; [lia|].
  apply H. discriminate.
Defined.

(** ** Seeding *)

Lemma genes_do_cardapio_snoc cardapio (pessoas : list Pessoa.t)
    (genes : list Voo.t) (p : Pessoa.t) (v : Voo.t) :
  genes_do_cardapio cardapio pessoas genes ->
  pessoas !! length genes = Some p -> v ∈ cardapio p ->
  genes_do_cardapio cardapio pessoas (genes ++ [v]).
Proof.
  intros Hg Hp Hv i w Hw.
  apply lookup_app_Some in Hw as [Hw|[Hge Hw]]; [by apply Hg|].
  apply list_lookup_singleton_Some in Hw as [Hi <-].
  exists p. split; [|done]. by replace i with (length genes) by lia.
Qed.

Lemma escolher_genes_devolve (pessoas : list Pessoa.t) (j : nat)
    (p : Pessoa.t) (sel : list Voo.t * list Voo.t) (r : Fonte) :
  pessoas !! j = Some p -> ~ cardapio_vazio p ->
  inv_semeadura pessoas j sel ->
  devolve (escolher_genes p sel) r
          (fun sel' _ => inv_semeadura pessoas (S j) sel').
Proof.
  intros Hp Hc (L1 & L2 & G1 & G2). unfold escolher_genes.
  destruct (vazia (Pessoa.voos_ida p)) eqn:Ei.
  { apply vazia_true in Ei. exfalso. apply Hc. by left. }
  destruct (vazia (Pessoa.voos_volta p)) eqn:Ev.
  { apply vazia_true in Ev. exfalso. apply Hc. by right. }
  apply vazia_false in Ei, Ev.
  eapply devolve_bind; [by apply random_choice_devolve|].
  intros i s1 Hi. cbv beta in Hi.
  eapply devolve_bind; [by apply random_choice_devolve|].
  intros v s2 Hv. cbv beta in Hv.
  apply devolve_ret. unfold inv_semeadura. simpl.
  rewrite !length_app. simpl.
  split; [lia|]. split; [lia|].
  split; eapply genes_do_cardapio_snoc; eauto; by rewrite ?L1, ?L2.
Qed.

Lemma semear_candidato_devolve (pessoas : list Pessoa.t) (r : Fonte) :
  cardapios_completos pessoas ->
  devolve (para pessoas escolher_genes ([], [])) r
          (fun sel _ => inv_semeadura pessoas (length pessoas) sel).
Proof.
  intros Hc.
  apply (devolve_para escolher_genes (inv_semeadura pessoas)).
  - repeat split; try done; intros i v Hv; by rewrite lookup_nil in Hv.
  - intros j p sel s0 Hp Hinv.
    apply (escolher_genes_devolve pessoas j); try done.
    apply Hc. by eapply list_elem_of_lookup_2.
Qed.

Lemma devolve_ler (s : Motor) :
  devolve ler s (fun eu s' => eu = self s /\ s' = s).
Proof. by exists (self s), s. Qed.

Lemma devolve_gravar_populacao (p : list Cromossomo.t) (s : Motor) :
  devolve (gravar_populacao p) s
    (fun _ s' => s' = {| self := AG.com_populacao (self s) p;
                         fonte := fonte s |}).
Proof. by eexists tt, _. Qed.

Lemma devolve_com_fonte {A} (m : AG.t -> Comp Fonte A) (s : Motor)
    (P : A -> Fonte -> Prop) :
  devolve (m (self s)) (fonte s) P ->
  devolve (com_fonte m) s (fun a s' => P a (fonte s') /\ self s' = self s).
Proof.
  intros (a & r1 & E & HP). unfold com_fonte.
  exists a, {| self := self s; fonte := r1 |}. by rewrite E.
Qed.

Lemma semeadura_completa (s : Motor) :
  AG.pessoas (self s) <> [] ->
  cardapios_completos (AG.pessoas (self s)) ->
  devolve gerar_populacao_inicial s (fun _ s' => semeado s s').
Proof.
  intros Hne Hc. unfold gerar_populacao_inicial.
  eapply devolve_bind; [apply devolve_ler|]. intros eu s0 [-> ->].
  apply vazia_false in Hne. rewrite Hne.
  eapply devolve_bind; [apply devolve_gravar_populacao|].
  intros [] s1 ->.
  eapply devolve_mono.
  - apply (devolve_para_estado _
      (fun k _ s2 =>
         exists pop, self s2 = AG.com_populacao (self s) pop /\
                     length pop = k /\
                     populacao_viavel (self s) pop /\
                     forall c, c ∈ pop -> Cromossomo.fitness c = 0%Q)
      _ 0).
    + exists []. split; [done|]. split; [done|].
      split; intros c Hin; by apply elem_of_nil in Hin.
    + intros j x [] s2 _ (pop & Es & Lp & Hv & Hf). simpl in *.
      eapply devolve_bind.
      { apply devolve_com_fonte, semear_candidato_devolve.
        rewrite Es. exact Hc. }
      intros sel s3 [Hsel Es3]. cbv beta in *.
      eapply devolve_bind; [apply devolve_ler|]. intros eu' s4 [-> ->].
      eapply devolve_mono; [apply devolve_gravar_populacao|].
      intros [] s5 ->.
      exists (pop ++ [Cromossomo.novo sel.1 sel.2]).
      simpl. rewrite Es3, Es. simpl.
      split; [done|]. split; [rewrite length_app; simpl; lia|].
      rewrite Es in Hsel. simpl in Hsel.
      split.
      * intros c Hin. apply elem_of_app in Hin as [Hin|Hin]; [by apply Hv|].
        apply list_elem_of_singleton in Hin as ->. exact Hsel.
      * intros c Hin. apply elem_of_app in Hin as [Hin|Hin]; [by apply Hf|].
        by apply list_elem_of_singleton in Hin as ->.
  - intros [] s2 (pop & Es & Lp & Hv & Hf). rewrite length_seq in Lp.
    by exists pop.
Qed.

(** X2.  With at least one agent and every agent with options for both
    legs, seeding returns: the population holds exactly [tamanho_populacao]
    candidates, each with one outbound and one return gene per agent taken
    from that agent's menus and with fitness 0, and no other field of the
    engine is changed. *)
Theorem gerar_populacao_inicial_devolve (s : Motor) :
  AG.pessoas (self s) <> [] ->
  cardapios_completos (AG.pessoas (self s)) ->
  devolve gerar_populacao_inicial s (fun _ s' => semeado s s').
Proof. apply semeadura_completa. Qed.

Lemma cardapios_completos_exemplo : cardapios_completos pessoas_exemplo.
Proof.
  intros p Hp [H|H]; unfold pessoas_exemplo in Hp;
    repeat (apply elem_of_cons in Hp as [->|Hp]); try done;
    by apply elem_of_nil in Hp.
Qed.

Lemma gerar_populacao_inicial_devolve_witness :
  devolve gerar_populacao_inicial motor_com_elite
          (fun _ s' => semeado motor_com_elite s').
Proof.
  apply (gerar_populacao_inicial_devolve motor_com_elite).
  - discriminate.
  - exact cardapios_completos_exemplo.
Defined.

Lemma cardapios_completos_ou_vazio (pessoas : list Pessoa.t) :
  cardapios_completos pessoas \/ exists p, p ∈ pessoas /\ cardapio_vazio p.
Proof.
  induction pessoas as [|p pessoas [IH|(q & Hq & Hv)]].
  - left. intros p Hp. by apply elem_of_nil in Hp.
  - destruct (Pessoa.voos_ida p) as [|i li] eqn:Ei.
    { right. exists p. split; [apply list_elem_of_here|by left]. }
    destruct (Pessoa.voos_volta p) as [|v lv] eqn:Ev.
    { right. exists p. split; [apply list_elem_of_here|by right]. }
    left. intros q Hq. apply elem_of_cons in Hq as [->|Hq]; [|by apply IH].
    intros [H|H]; congruence.
  - right. exists q. split; [by apply list_elem_of_further|done].
Qed.

(** X3.  Seeding either returns or raises [ValueError], and it raises
    exactly when there is no agent, or when the population size is at least
    one and some agent has an empty outbound or return menu. *)
Theorem gerar_populacao_inicial_erros (s : Motor) :
  match (gerar_populacao_inicial s).1 with
  | Ok _ =>
      AG.pessoas (self s) <> [] /\
      (AG.tamanho_populacao (self s) = 0 \/
       cardapios_completos (AG.pessoas (self s)))
  | Levanta e =>
      e = ValueError /\
      (AG.pessoas (self s) = [] \/
       (1 <= AG.tamanho_populacao (self s) /\
        exists p, p ∈ AG.pessoas (self s) /\ cardapio_vazio p))
  | Esgotado => False
  end.
Proof.
  destruct (AG.pessoas (self s)) as [|p0 ps] eqn:Ep.
  { unfold gerar_populacao_inicial, bind, ler. rewrite Ep. simpl. auto. }
  destruct (AG.tamanho_populacao (self s)) as [|t] eqn:Et.
  { unfold gerar_populacao_inicial, bind, ler. rewrite Ep, Et. simpl. auto. }
  destruct (cardapios_completos_ou_vazio (p0 :: ps)) as [Hc|Hv].
  - destruct (semeadura_completa s) as ([] & s' & -> & _);
      rewrite ?Ep; try done. simpl. auto.
  - destruct (escolher_genes_levanta (p0 :: ps) ([], []) (fonte s) Hv)
      as (r' & Er).
    unfold gerar_populacao_inicial, bind, ler. rewrite Ep, Et. simpl.
    unfold bind, com_fonte. simpl. rewrite Ep, Er. simpl.
    split; [done|]. right. split; [lia|done].
Qed.

(** ** One generation keeps the population feasible *)

Lemma viavel_comprimento (pessoas : list Pessoa.t) (N : nat) (c : Cromossomo.t) :
  viavel pessoas N c -> N <= length pessoas.
Proof.
  intros (L1 & _ & G1 & _). destruct N as [|n]; [lia|].
  destruct (lookup_lt_is_Some_2 (Cromossomo.voos_ida c) n) as [v Hv]; [lia|].
  destruct (G1 n v Hv) as (p & Hp & _). apply lookup_lt_Some in Hp. lia.
Qed.

Lemma viavel_mutado (self : AG.t) (N : nat) (c c' : Cromossomo.t) :
  viavel (AG.pessoas self) N c -> mutacao_segura self c c' ->
  viavel (AG.pessoas self) N c'.
Proof.
  intros (L1 & L2 & G1 & G2) (M1 & M2 & M3 & M4).
  split; [congruence|]. split; [congruence|].
  split; intros i v Hv.
  - destruct (M3 i v Hv) as [H|H]; [by apply G1|done].
  - destruct (M4 i v Hv) as [H|H]; [by apply G2|done].
Qed.

Lemma mutar_devolve (b : bool) (self : AG.t) (N : nat) (c : Cromossomo.t)
    (r : Fonte) :
  viavel (AG.pessoas self) N c ->
  devolve (mutar b self c) r (fun c' _ => viavel (AG.pessoas self) N c').
Proof.
  intros Hv. pose proof (viavel_comprimento _ _ _ Hv) as HN.
  pose proof Hv as (L1 & L2 & _).
  unfold mutar. destruct b.
  - eapply devolve_mono; [apply mutacao_inteligente_devolve; lia|].
    intros c' s' Hs. by eapply viavel_mutado.
  - eapply devolve_mono; [apply mutacao_tradicional_devolve; lia|].
    intros c' s' Hs. by eapply viavel_mutado.
Qed.

Lemma cruzar_devolve (tipo : string) (pai1 pai2 : Cromossomo.t) (N : nat)
    (r : Fonte) :
  length (Cromossomo.voos_ida pai1) = N ->
  length (Cromossomo.voos_ida pai2) = N ->
  length (Cromossomo.voos_volta pai1) = N ->
  length (Cromossomo.voos_volta pai2) = N ->
  cruzamento_seguro tipo N ->
  devolve (cruzar tipo pai1 pai2) r
          (fun fs _ => filhos_misturados pai1 pai2 fs).
Proof.
  intros L1 L2 L3 L4 Hs. unfold cruzar.
  destruct (String.eqb_spec tipo "ponto_unico") as [E1|N1].
  { apply (cruzamento_ponto_unico_devolve pai1 pai2 N); try done.
    destruct Hs as [?|[? _]]; done. }
  destruct (String.eqb_spec tipo "dois_pontos") as [E2|N2].
  { apply (cruzamento_dois_pontos_devolve pai1 pai2 N); try done.
    destruct Hs as [?|[_ ?]]; done. }
  destruct (String.eqb tipo "uniforme").
  { by apply (cruzamento_uniforme_devolve pai1 pai2 N). }
  destruct (String.eqb tipo "custo").
  { by apply (cruzamento_baseado_custo_mistura pai1 pai2 N). }
  destruct (String.eqb tipo "horario").
  { by apply (cruzamento_baseado_horario_devolve pai1 pai2 N). }
  by apply (cruzamento_uniforme_devolve pai1 pai2 N).
Qed.

Lemma selecao_membro (self : AG.t) (r : Fonte) :
  AG.populacao self <> [] ->
  devolve (selecao_torneio_padrao self) r
    (fun o _ => exists p, o = Some p /\ pai_da_populacao self p).
Proof. intros Hne. apply selecao_torneio_membro; [lia|done]. Qed.

Lemma viavel_do_pai (self : AG.t) (p : Pai) :
  populacao_viavel self (AG.populacao self) -> pai_da_populacao self p ->
  viavel (AG.pessoas self) (length (AG.pessoas self)) p.2.
Proof. intros Hv Hp. apply Hv. by eapply list_elem_of_lookup_2. Qed.

Lemma gerar_par_devolve (tipo : string) (mut : bool) (self : AG.t) (r : Fonte) :
  pronto_para_evoluir self ->
  cruzamento_seguro tipo (length (AG.pessoas self)) ->
  devolve (gerar_par tipo mut self) r
    (fun o _ => exists f1 f2,
       o = Some (f1, f2) /\
       viavel (AG.pessoas self) (length (AG.pessoas self)) f1 /\
       viavel (AG.pessoas self) (length (AG.pessoas self)) f2).
Proof.
  intros [Hne Hv] Hs. unfold gerar_par.
  eapply devolve_bind; [by apply selecao_membro|].
  intros o1 s1 (p1 & -> & Hp1).
  eapply devolve_bind; [by apply selecao_membro|].
  intros o2 s2 (p2 & -> & Hp2).
  eapply (devolve_bind _ _ _
            (fun o _ => exists p, o = Some p /\ pai_da_populacao self p)).
  { destruct (_ && _); [by apply selecao_membro|].
    apply devolve_ret. by exists p2. }
  intros o3 s3 (p3 & -> & Hp3).
  pose proof (viavel_do_pai self p1 Hv Hp1) as V1.
  pose proof (viavel_do_pai self p3 Hv Hp3) as V3.
  pose proof V1 as (A1 & A2 & _). pose proof V3 as (B1 & B2 & _).
  eapply devolve_bind; [by apply (cruzar_devolve tipo _ _ _ _ A1 B1 A2 B2)|].
  intros fs s4 Hm. cbv beta in Hm.
  destruct (viavel_mistura _ _ _ _ fs V1 V3 Hm) as [F1 F2].
  eapply devolve_bind; [by apply mutar_devolve|].
  intros f1 s5 Hf1. cbv beta in Hf1.
  eapply devolve_bind; [by apply mutar_devolve|].
  intros f2 s6 Hf2. cbv beta in Hf2.
  apply devolve_ret. by exists f1, f2.
Qed.

Lemma preencher_devolve (tipo : string) (mut : bool) (self : AG.t)
    (combustivel : nat) :
  pronto_para_evoluir self ->
  cruzamento_seguro tipo (length (AG.pessoas self)) ->
  forall nova r,
    AG.tamanho_populacao self <= combustivel + length nova ->
    (forall c, c ∈ nova ->
       viavel (AG.pessoas self) (length (AG.pessoas self)) c) ->
    devolve (preencher combustivel tipo mut self nova) r
      (fun nova' _ =>
         AG.tamanho_populacao self <= length nova' /\
         forall c, c ∈ nova' ->
           viavel (AG.pessoas self) (length (AG.pessoas self)) c).
Proof.
  intros Hp Hs.
  induction combustivel as [|n IH]; intros nova r Hc Hv; simpl.
  - destruct (decide (length nova < AG.tamanho_populacao self)); [lia|].
    apply devolve_ret. split; [lia|done].
  - destruct (decide (length nova < AG.tamanho_populacao self));
      [|apply devolve_ret; split; [lia|done]].
    eapply devolve_bind; [by apply gerar_par_devolve|].
    intros o s1 (f1 & f2 & -> & V1 & V2).
    apply IH.
    + rewrite length_app. simpl. lia.
    + intros c Hin. apply elem_of_app in Hin as [Hin|Hin]; [by apply Hv|].
      apply elem_of_cons in Hin as [->|Hin]; [done|].
      by apply list_elem_of_singleton in Hin as ->.
Qed.

Lemma elem_of_py_slice_to {A} (l : list A) (k : Z) (x : A) :
  x ∈ py_slice_to l k -> x ∈ l.
Proof.
  unfold py_slice_to. destruct (decide (0 <= k)%Z);
    intros H; apply elem_of_take in H as (i & Hi & _);
    by eapply list_elem_of_lookup_2.
Qed.

Lemma evoluir_geracao_viavel (tipo : string) (mut : bool) (s : Motor) :
  pronto_para_evoluir (self s) ->
  cruzamento_seguro tipo (length (AG.pessoas (self s))) ->
  devolve (evoluir_geracao tipo mut) s (fun _ s' => geracao_seguinte s s').
Proof.
  intros [Hne Hv] Hs. unfold evoluir_geracao.
  eapply devolve_bind; [apply devolve_ler|]. intros eu s0 [-> ->].
  eapply devolve_bind; [apply devolve_gravar_populacao|]. intros [] s1 ->.
  eapply devolve_bind; [apply devolve_ler|]. intros eu s2 [-> ->].
  cbn [self fonte].
  set (ord := py_sort_desc Cromossomo.fitness (AG.populacao (self s))).
  set (eu := AG.com_populacao (self s) ord).
  assert (Hord : forall c, c ∈ ord ->
            viavel (AG.pessoas eu) (length (AG.pessoas eu)) c).
  { intros c Hc. apply Hv.
    by apply (elem_of_py_sort_desc Cromossomo.fitness). }
  assert (Hp : pronto_para_evoluir eu).
  { split; [|exact Hord]. simpl. intros E.
    apply (f_equal length) in E. unfold ord in E.
    rewrite length_py_sort_desc in E. by destruct (AG.populacao (self s)). }
  eapply devolve_bind.
  { apply devolve_com_fonte. cbn [self fonte].
    apply (preencher_devolve tipo mut eu _ Hp Hs); [lia|].
    intros c Hc. apply Hord. eapply elem_of_py_slice_to. exact Hc. }
  intros nova s3 [[Hlen Hnova] Es3]. cbv beta in *. cbn [self] in Es3.
  eapply devolve_mono; [apply devolve_gravar_populacao|].
  intros [] s4 ->.
  exists (take (AG.tamanho_populacao eu) nova). cbn [self].
  rewrite Es3. split; [done|]. split.
  - rewrite length_take_le; [done|]. exact Hlen.
  - intros c Hc. apply Hnova.
    apply elem_of_take in Hc as (i & Hi & _). by eapply list_elem_of_lookup_2.
Qed.

(** X4.  From a non-empty population of feasible candidates (one outbound
    and one return gene per agent, each from that agent's menus), and unless
    single-point or two-point crossover is asked for a single agent,
    [evoluir_geracao] returns: the new population has exactly
    [tamanho_populacao] candidates, all feasible, and no other field of the
    engine is changed. *)
Theorem evoluir_geracao_devolve (tipo : string) (mut : bool) (s : Motor) :
  pronto_para_evoluir (self s) ->
  cruzamento_seguro tipo (length (AG.pessoas (self s))) ->
  devolve (evoluir_geracao tipo mut) s (fun _ s' => geracao_seguinte s s').
Proof. apply evoluir_geracao_viavel. Qed.

(** X5.  On an empty population [evoluir_geracao] returns without drawing
    and leaves the population empty: with no parent to select the filling
    loop ends at once. *)
Theorem evoluir_geracao_populacao_vazia (tipo : string) (mut : bool)
    (s : Motor) :
  AG.populacao (self s) = [] ->
  evoluir_geracao tipo mut s
  = (Ok tt, {| self := AG.com_populacao (self s) []; fonte := fonte s |}).
Proof.
  intros E. unfold evoluir_geracao, bind, ler, gravar_populacao, com_fonte.
  cbn [self fonte AG.populacao AG.com_populacao AG.tamanho_populacao].
  rewrite E. cbn [py_sort_desc foldr].
  assert (Hs : forall k : Z, py_slice_to (@nil Cromossomo.t) k = []).
  { intros k. unfold py_slice_to. destruct (decide _); apply take_nil. }
  rewrite Hs.
  destruct (AG.tamanho_populacao (self s)) as [|t] eqn:Et; simpl;
    rewrite ?Et.
  - by destruct (decide (0 < 0)); [lia|].
  - destruct (decide (0 < S t)); [|lia].
    unfold bind, gerar_par, selecao_torneio_padrao, selecao_torneio. simpl.
    done.
Qed.

Lemma pronto_com_pais : pronto_para_evoluir (self motor_com_pais).
Proof.
  split; [discriminate|]. intros c Hc. simpl in Hc.
  apply elem_of_cons in Hc as [->|Hc]; [exact viavel_pai_a|].
  apply list_elem_of_singleton in Hc as ->. exact viavel_pai_b.
Qed.

Lemma evoluir_geracao_devolve_witness :
  devolve (evoluir_geracao "dois_pontos" true) motor_com_pais
          (fun _ s' => geracao_seguinte motor_com_pais s').
Proof.
  apply (evoluir_geracao_devolve "dois_pontos" true motor_com_pais).
  - exact pronto_com_pais.
  - left. simpl. lia.
Defined.

Lemma evoluir_geracao_populacao_vazia_witness :
  evoluir_geracao "uniforme" false motor_com_elite
  = (Ok tt, {| self := AG.com_populacao (self motor_com_elite) [];
               fonte := fonte motor_com_elite |}).
Proof.
  apply (evoluir_geracao_populacao_vazia "uniforme" false motor_com_elite).
  reflexivity.
Defined.

(** ** A whole run returns a feasible solution *)

Lemma criterio_parada_total (hf : list Q) (janela : nat) (tol : Q) :
  1 <= janela -> exists b, criterio_parada_avancado hf janela tol = Ok b.
Proof.
  intros Hj. unfold criterio_parada_avancado.
  destruct (decide (length hf < janela)) as [|Hge]; [by eexists|].
  destruct (py_index_lt hf (length hf - 1)) as (a & _ & Ea); [lia|].
  destruct (py_index_lt hf (length hf - janela)) as (b & _ & Eb); [lia|].
  unfold py_index_neg at 1.
  destruct (decide (1 <= length hf)); [|lia]. rewrite Ea. simpl.
  unfold py_index_neg. destruct janela as [|j]; [lia|].
  destruct (decide (S j <= length hf)); [|lia]. rewrite Eb. simpl.
  destruct (Qltb _ _); by eexists.
Qed.

Lemma viavel_com_fitness (pessoas : list Pessoa.t) (N : nat)
    (c : Cromossomo.t) (f : Q) :
  viavel pessoas N c -> viavel pessoas N (Cromossomo.com_fitness c f).
Proof. done. Qed.

Lemma populacao_viavel_avaliada (eu eu' : AG.t) (pop : list Cromossomo.t) :
  AG.pessoas eu' = AG.pessoas eu ->
  populacao_viavel eu pop -> populacao_viavel eu' (avaliada eu pop).
Proof.
  intros E Hv c Hc. apply list_elem_of_fmap in Hc as (c0 & -> & Hc0).
  rewrite E. by apply viavel_com_fitness, Hv.
Qed.

Lemma devolve_de_res_eq {St A} (r : Res A) (a : A) (s : St) :
  r = Ok a -> devolve (de_res r) s (fun a' s' => a' = a /\ s' = s).
Proof. intros ->. by exists a, s. Qed.

Lemma devolve_avaliar_populacao (s : Motor) :
  devolve avaliar_populacao s
    (fun _ s' => s' = {| self := AG.com_populacao (self s)
                                   (avaliada (self s) (AG.populacao (self s)));
                         fonte := fonte s |}).
Proof. eexists tt, _. split; [apply avaliar_populacao_total|done]. Qed.

Lemma laco_geracoes_devolve (tipo : string) (mut : bool) (eu0 : AG.t) (n : nat) :
  1 <= AG.tamanho_populacao eu0 ->
  cruzamento_seguro tipo (length (AG.pessoas eu0)) ->
  forall h s,
    mesma_config eu0 (self s) ->
    pronto_para_evoluir (self s) ->
    devolve (laco_geracoes n tipo mut h) s
      (fun h' s' =>
         mesma_config eu0 (self s') /\
         pronto_para_evoluir (self s') /\
         length (h_fitness h) + (1 `min` n) <= length (h_fitness h')).
Proof.
  intros Ht Hs. induction n as [|n IH]; intros h s Hc Hp; simpl.
  { apply devolve_ret. split; [done|]. split; [done|lia]. }
  destruct Hp as [Hne Hv].
  set (pop := avaliada (self s) (AG.populacao (self s))).
  set (eu1 := AG.com_populacao (self s) pop).
  assert (Hne1 : pop <> []).
  { unfold pop, avaliada. by destruct (AG.populacao (self s)). }
  assert (Hv1 : populacao_viavel eu1 pop).
  { by apply populacao_viavel_avaliada. }
  eapply devolve_bind; [apply devolve_avaliar_populacao|].
  intros [] s1 ->.
  eapply devolve_bind; [apply devolve_ler|]. intros eu s2 [-> ->].
  cbn [self fonte]. fold pop. fold eu1.
  destruct (py_max_por_total Cromossomo.fitness pop Hne1) as [m Em].
  change (AG.populacao eu1) with pop.
  eapply devolve_bind; [apply devolve_de_res_eq, Em|].
  intros ? s3 [-> ->].
  eapply (devolve_bind _ _ _
            (fun _ s' => exists b g,
               s' = {| self := AG.com_melhor eu1 b g; fonte := fonte s |})).
  { unfold gravar_melhor.
    destruct (supera _ _); (eexists tt, _; split; [reflexivity|]);
      cbn [self fonte]; by eexists _, _. }
  intros [] s4 (b & g & ->).
  destruct (criterio_parada_total
              (h_fitness h ++ [Cromossomo.fitness m])
              janela_padrao tolerancia_padrao) as [parar Ep];
    [unfold janela_padrao; lia|].
  cbn [h_fitness].
  eapply devolve_bind; [apply devolve_de_res_eq, Ep|].
  intros ? s5 [-> ->].
  assert (Hc4 : mesma_config eu0 (AG.com_melhor eu1 b g)).
  { eapply mesma_config_trans; [exact Hc|]. by repeat split. }
  assert (Hp4 : pronto_para_evoluir (AG.com_melhor eu1 b g)) by done.
  assert (Hl : length (h_fitness h) + 1
               <= length (h_fitness h ++ [Cromossomo.fitness m])).
  { rewrite length_app. simpl. lia. }
  destruct parar; [by apply devolve_ret|].
  eapply devolve_bind; [apply devolve_ler|]. intros eu s6 [-> ->].
  cbn [self].
  destruct (decide _); [by apply devolve_ret|].
  eapply devolve_bind.
  { apply evoluir_geracao_viavel; [exact Hp4|].
    pose proof Hc4 as (Epes & _). cbn [self]. rewrite <- Epes. exact Hs. }
  intros [] s7 (pop' & Es & Lp & Hv'). cbn [self] in *.
  eapply devolve_mono.
  - apply IH.
    + rewrite Es. eapply mesma_config_trans; [exact Hc4|].
      apply mesma_config_populacao.
    + rewrite Es. split; [|exact Hv'].
      simpl. pose proof Hc4 as (_ & Et & _). simpl in Et, Lp.
      intros E. rewrite E in Lp. simpl in Lp. lia.
  - intros h' s' (H1 & H2 & H3). split; [done|]. split; [done|].
    cbn [h_fitness] in H3. lia.
Qed.

Lemma executar_completa (n : nat) (tipo : string) (mut : bool) (s : Motor) :
  execucao_segura s tipo ->
  devolve (executar n tipo mut) s (execucao_bem_sucedida s n).
Proof.
  intros (Hne & Hc & Ht & Hs). unfold executar.
  eapply devolve_bind; [apply devolve_ler|]. intros eu s0 [-> ->].
  pose proof Hne as Hv. apply vazia_false in Hv. rewrite Hv.
  eapply (devolve_bind _ _ _ (fun o s1 => o = Some tt /\ semeado s s1)).
  { destruct (semeadura_completa s Hne Hc) as ([] & s1 & E & Hsem).
    exists (Some tt), s1. unfold tentar. by rewrite E. }
  intros o s1 [-> (pop & Es1 & Lp & Hpv & _)].
  assert (Hc1 : mesma_config (self s) (self s1)).
  { rewrite Es1. apply mesma_config_populacao. }
  assert (Hp1 : pronto_para_evoluir (self s1)).
  { rewrite Es1. split; [|exact Hpv]. simpl. intros E. rewrite E in Lp.
    simpl in Lp. lia. }
  eapply devolve_bind.
  { by apply (laco_geracoes_devolve tipo mut (self s) n Ht Hs). }
  intros h s2 (Hc2 & [Hne2 Hv2] & Hl). cbv beta in *.
  eapply devolve_bind; [apply devolve_avaliar_populacao|].
  intros [] s3 ->.
  eapply devolve_bind; [apply devolve_ler|]. intros eu s4 [-> ->].
  cbn [self fonte].
  set (popf := avaliada (self s2) (AG.populacao (self s2))).
  change (AG.populacao (AG.com_populacao (self s2) popf)) with popf.
  assert (Hnef : popf <> []).
  { unfold popf, avaliada. by destruct (AG.populacao (self s2)). }
  destruct (py_max_por_total Cromossomo.fitness popf Hnef) as [m Em].
  eapply devolve_bind; [apply devolve_de_res_eq, Em|].
  intros ? s5 [-> ->]. apply devolve_ret.
  apply py_max_por_spec in Em as [Hin _].
  exists m. split; [done|]. split; [|split; [done|]].
  - pose proof Hc2 as (Ep & _). rewrite Ep.
    by apply (populacao_viavel_avaliada (self s2) (self s2)
                (AG.populacao (self s2))).
  - intros Hn. simpl in Hl. simpl. destruct n; [lia|done].
Qed.

(** X6.  With at least one agent, every agent with options for both legs,
    a population size of at least one and (for single-point and two-point
    crossover) at least two agents, [executar] never raises: it returns a
    solution that gives every agent one outbound and one return option from
    its own menus, taken from the final population, and the history has at
    least one entry when [max_geracoes >= 1]. *)
Theorem executar_devolve_solucao_viavel (n : nat) (tipo : string) (mut : bool)
    (s : Motor) :
  execucao_segura s tipo ->
  devolve (executar n tipo mut) s (execucao_bem_sucedida s n).
Proof. apply executar_completa. Qed.

Lemma execucao_segura_exemplo (tipo : string) :
  execucao_segura motor_com_elite tipo.
Proof.
  split; [discriminate|]. split; [exact cardapios_completos_exemplo|].
  split; [simpl; lia|]. left. simpl. lia.
Qed.

Lemma executar_devolve_solucao_viavel_witness :
  devolve (executar 30 "ponto_unico" true) motor_com_elite
          (execucao_bem_sucedida motor_com_elite 30).
Proof.
  apply (executar_devolve_solucao_viavel 30 "ponto_unico" true motor_com_elite).
  apply execucao_segura_exemplo.
Defined.

(** ** The convergence rule *)

Lemma py_index_neg_Ok {A} (l : list A) (k : nat) (x : A) :
  1 <= k <= length l -> l !! (length l - k) = Some x ->
  py_index_neg l k = Ok x.
Proof.
  intros Hk Hx. unfold py_index_neg. destruct k as [|k]; [lia|].
  destruct (decide (S k <= length l)); [|lia]. by apply py_index_Ok.
Qed.

Lemma Qabs_div (x r : Q) : (Qabs (x / r) == Qabs x / Qabs r)%Q.
Proof. unfold Qdiv. by rewrite Qabs_Qmult, Qabs_Qinv. Qed.

Lemma Qdiv_lt_iff (a b c : Q) : (0 < c)%Q -> (a / c < b)%Q <-> (a < b * c)%Q.
Proof.
  intros Hc. split; intros H.
  - apply (Qmult_lt_r _ _ c Hc) in H.
    assert (E : (a / c * c == a)%Q).
    { unfold Qdiv. rewrite <- Qmult_assoc, (Qmult_comm (/ c)), Qmult_inv_r.
      - apply Qmult_1_r.
      - intros E0. rewrite E0 in Hc. by apply Qlt_irrefl in Hc. }
    by rewrite E in H.
  - by apply Qlt_shift_div_r.
Qed.

Lemma criterio_parada_caracterizado (hf : list Q) (janela : nat)
    (tol atual anterior : Q) :
  1 <= janela <= length hf ->
  hf !! (length hf - 1) = Some atual ->
  hf !! (length hf - janela) = Some anterior ->
  exists b,
    criterio_parada_avancado hf janela tol = Ok b /\
    ((Qabs anterior < quase_zero)%Q ->
     (b = true <-> teste_absoluto tol atual anterior)) /\
    ((quase_zero <= Qabs anterior)%Q ->
     (b = true <-> teste_relativo tol atual anterior)).
Proof.
  intros Hj Ha Hr. unfold criterio_parada_avancado.
  destruct (decide (length hf < janela)); [lia|].
  rewrite (py_index_neg_Ok hf 1 atual) by (done || lia).
  rewrite (py_index_neg_Ok hf janela anterior) by done.
  cbn [ligar]. fold quase_zero.
  destruct (Qltb (Qabs anterior) quase_zero) eqn:Ez.
  - apply Qltb_lt in Ez. eexists. split; [reflexivity|]. split.
    + intros _. unfold teste_absoluto. apply Qltb_lt.
    + intros Hge. exfalso. eapply Qlt_irrefl, Qlt_le_trans; eassumption.
  - apply Qltb_ge in Ez. eexists. split; [reflexivity|]. split.
    + intros Hlt. exfalso. eapply Qlt_irrefl, Qlt_le_trans; eassumption.
    + intros _. unfold teste_relativo.
      rewrite Qltb_lt, Qabs_div. apply Qdiv_lt_iff.
      eapply Qlt_le_trans; [|exact Ez]. reflexivity.
Qed.

(** X7.  With a window of at least one generation
    [criterio_parada_avancado] never raises.  It answers [False] on a history
    shorter than the window.  Otherwise it compares the last entry with the
    entry [janela - 1] places before it: when the absolute value of that
    reference is below 1e-9 it answers whether
    [|atual - anterior| < tolerancia * |anterior| + 1e-9], else whether
    [|atual - anterior| < tolerancia * |anterior|]. *)
Theorem criterio_parada_avancado_correto (hf : list Q) (janela : nat)
    (tol : Q) :
  1 <= janela ->
  (length hf < janela -> criterio_parada_avancado hf janela tol = Ok false) /\
  (janela <= length hf ->
   exists atual anterior b,
     hf !! (length hf - 1) = Some atual /\
     hf !! (length hf - janela) = Some anterior /\
     criterio_parada_avancado hf janela tol = Ok b /\
     ((Qabs anterior < quase_zero)%Q ->
      (b = true <-> teste_absoluto tol atual anterior)) /\
     ((quase_zero <= Qabs anterior)%Q ->
      (b = true <-> teste_relativo tol atual anterior))).
Proof.
  intros Hj. split.
  - intros Hlt. unfold criterio_parada_avancado.
    by destruct (decide (length hf < janela)).
  - intros Hge.
    destruct (lookup_lt_is_Some_2 hf (length hf - 1)) as [atual Ha]; [lia|].
    destruct (lookup_lt_is_Some_2 hf (length hf - janela)) as [anterior Hr];
      [lia|].
    destruct (criterio_parada_caracterizado hf janela tol atual anterior)
      as (b & Eb & H1 & H2); try done.
    by exists atual, anterior, b.
Qed.

Lemma criterio_parada_avancado_correto_witness :
  exists atual anterior b,
    [- 570; - 510; - 510]%Q !! (3 - 1) = Some atual /\
    [- 570; - 510; - 510]%Q !! (3 - 2) = Some anterior /\
    criterio_parada_avancado [- 570; - 510; - 510]%Q 2 (1 # 1000) = Ok b /\
    ((Qabs anterior < quase_zero)%Q ->
     (b = true <-> teste_absoluto (1 # 1000) atual anterior)) /\
    ((quase_zero <= Qabs anterior)%Q ->
     (b = true <-> teste_relativo (1 # 1000) atual anterior)).
Proof.
  destruct (criterio_parada_avancado_correto [- 570; - 510; - 510]%Q 2
              (1 # 1000)) as [_ H]; [lia|].
  apply H. simpl. lia.
Defined.

(** Equal end points of the window: the rule fires. *)
Lemma criterio_janela_constante (hf : list Q) (janela : nat)
    (tol atual anterior : Q) :
  1 <= janela <= length hf -> (0 < tol)%Q ->
  hf !! (length hf - 1) = Some atual ->
  hf !! (length hf - janela) = Some anterior ->
  (atual == anterior)%Q ->
  criterio_parada_avancado hf janela tol = Ok true.
Proof.
  intros Hj Ht Ha Hr E.
  destruct (criterio_parada_caracterizado hf janela tol atual anterior)
    as (b & -> & H1 & H2); try done.
  f_equal.
  assert (E0 : (Qabs (atual - anterior) == 0)%Q).
  { rewrite E. unfold Qminus. by rewrite Qplus_opp_r. }
  destruct (Qlt_le_dec (Qabs anterior) quase_zero) as [Hlt|Hge].
  - apply H1; [done|]. unfold teste_absoluto. rewrite E0.
    apply Qlt_le_trans with (0 + quase_zero)%Q; [reflexivity|].
    apply Qplus_le_l, Qmult_le_0_compat; [by apply Qlt_le_weak|].
    apply Qabs_nonneg.
  - apply H2; [done|]. unfold teste_relativo. rewrite E0.
    apply Qmult_lt_0_compat; [done|].
    eapply Qlt_le_trans; [|exact Hge]. reflexivity.
Qed.

(** ** When the driver stops *)

Lemma laco_geracoes_paradas (tipo : string) (mut : bool) (n : nat) :
  forall h s h' s',
    laco_geracoes n tipo mut h s = (Ok h', s') ->
    (forall k, length (h_fitness h) < k < length (h_fitness h') ->
       criterio_parada_avancado (take k (h_fitness h')) janela_padrao
         tolerancia_padrao = Ok false) /\
    (length (h_fitness h') = length (h_fitness h) + n \/
     criterio_parada_avancado (h_fitness h') janela_padrao tolerancia_padrao
     = Ok true \/
     AG.geracoes_sem_melhoria_max (self s')
     <= AG.geracoes_sem_melhoria (self s')).
Proof.
  induction n as [|n IH]; intros h s h' s' H.
  { injection H as <- <-. split; [intros k Hk; lia|left; lia]. }
  apply laco_geracoes_passo in H
    as (m & Emax & [(-> & -> & Hpar)|(Hfalse & _ & s3 & Eev & H)]).
  - split; [|by right].
    intros k Hk. simpl in Hk. rewrite length_app in Hk. simpl in Hk. lia.
  - pose proof H as Hb.
    apply laco_geracoes_basico in Hb as (_ & (suf & Esuf & _) & _).
    apply IH in H as [Hk Hfim]. split.
    + intros k Hkk.
      destruct (decide (k = length (h_fitness (historico_registrado h m))))
        as [->|Hne].
      * by rewrite Esuf, take_app_length.
      * apply Hk. simpl in *. rewrite length_app in *. simpl in *. lia.
    + destruct Hfim as [Hl|Hfim]; [left|by right].
      rewrite Hl. simpl. rewrite length_app. simpl. lia.
Qed.

Lemma executar_paradas (n : nat) (tipo : string) (mut : bool)
    (s s' : Motor) (sol : Cromossomo.t) (h : Historicos) :
  executar n tipo mut s = (Ok (Some sol, h), s') ->
  length (h_fitness h) <= n /\
  length (h_custo h) = length (h_fitness h) /\
  sem_convergencia_antecipada (h_fitness h) /\
  (length (h_fitness h) = n \/
   criterio_parada_avancado (h_fitness h) janela_padrao tolerancia_padrao
   = Ok true \/
   AG.geracoes_sem_melhoria_max (self s') <= AG.geracoes_sem_melhoria (self s')).
Proof.
  intros H. apply executar_inv in H as (s1 & s2 & _ & El & _ & ->).
  pose proof El as Hb.
  apply laco_geracoes_basico in Hb as (_ & (suf & Esuf & Lsuf) & Hc).
  apply laco_geracoes_paradas in El as [Hk Hfim].
  simpl in Esuf. subst suf.
  split; [done|]. split; [symmetry; by apply Hc|]. split.
  - intros k Hkk. apply Hk. simpl. lia.
  - exact Hfim.
Qed.

Lemma historico_igual_em_vinte (hf : list Q) (g : nat) (a b : Q) :
  sem_convergencia_antecipada hf ->
  hf !! g = Some a -> hf !! (g + 19) = Some b -> (a == b)%Q ->
  length hf = g + 20.
Proof.
  intros Hsem Ha Hb E.
  apply lookup_lt_Some in Hb as Hlen.
  destruct (decide (length hf = g + 20)) as [|Hne]; [done|].
  exfalso.
  assert (Hk : 0 < g + 20 < length hf) by lia.
  specialize (Hsem _ Hk).
  assert (Lt : length (take (g + 20) hf) = g + 20)
    by (rewrite length_take; lia).
  rewrite (criterio_janela_constante _ _ _ b a) in Hsem; [done|..].
  - rewrite Lt. unfold janela_padrao. lia.
  - reflexivity.
  - rewrite Lt, lookup_take_lt by lia.
    by replace (g + 20 - 1) with (g + 19) by lia.
  - rewrite Lt. unfold janela_padrao. rewrite lookup_take_lt by lia.
    by replace (g + 20 - 20) with g by lia.
  - by symmetry.
Qed.

Lemma estagnacao_sem_limite (ini : Melhor * nat) (hf : list Q) (g : nat)
    (x : Q) :
  sem_parada_antecipada ini 0 hf ->
  (exists y, hf !! g = Some y /\ (y == x)%Q) ->
  length hf = g + 0 + 1 /\ g = 0.
Proof.
  intros Hsem (y & Hy & _). apply lookup_lt_Some in Hy.
  destruct (decide (length hf <= 1)) as [|Hgt]; [lia|].
  assert (Hk : 0 < 1 < length hf) by lia.
  apply Hsem in Hk. lia.
Qed.

(** C3 (amended).  Take a run of [executar] that returns a solution, with
    stagnation limit [L = geracoes_sem_melhoria_max].
    - The run is not halted before a stopping rule holds: at every generation
      before the last the no-improvement counter is below [L] and the
      convergence rule (window 20, tolerance 0.001) does not hold of the
      history recorded so far.
    - The counter of the engine after the run is the one the recorded
      history gives; when fewer than [max_geracoes] generations were
      executed, the counter has reached [L] or the convergence rule holds of
      the history.
    - If the recorded history is constant over the [L + 1] generations
      [g, ..., g + L], the run halted at generation [g + L], exactly [L]
      generations after generation [g], which was a strict improvement on
      every earlier generation; the counter is then at least [L], and equal
      to [L] on an engine that is freshly built or has [L >= 1].
    - If the recorded best fitness is the same at generations [g] and
      [g + 19], the run halted at generation [g + 19].  So for [L >= 20] no
      history is constant over [L + 1] generations: a constant best fitness
      halts the run by the convergence rule, 19 generations after the last
      improvement. *)
Theorem parada_por_estagnacao (n : nat) (tipo : string) (mut : bool)
    (s s' : Motor) (sol : Cromossomo.t) (h : Historicos) :
  executar n tipo mut s = (Ok (Some sol, h), s') ->
  sem_parada_antecipada (estado_de_parada (self s))
    (AG.geracoes_sem_melhoria_max (self s)) (h_fitness h) /\
  sem_convergencia_antecipada (h_fitness h) /\
  AG.geracoes_sem_melhoria (self s')
  = contador_apos (estado_de_parada (self s)) (h_fitness h) /\
  (length (h_fitness h) < n ->
   AG.geracoes_sem_melhoria_max (self s) <= AG.geracoes_sem_melhoria (self s') \/
   criterio_parada_avancado (h_fitness h) janela_padrao tolerancia_padrao
   = Ok true) /\
  (forall g x,
     (forall k, k <= AG.geracoes_sem_melhoria_max (self s) ->
        exists y, h_fitness h !! (g + k) = Some y /\ (y == x)%Q) ->
     length (h_fitness h) = g + AG.geracoes_sem_melhoria_max (self s) + 1 /\
     AG.geracoes_sem_melhoria_max (self s) <= AG.geracoes_sem_melhoria (self s') /\
     (AG.melhor_fitness (self s) = MenosInf \/
        1 <= AG.geracoes_sem_melhoria_max (self s) ->
      AG.geracoes_sem_melhoria (self s')
      = AG.geracoes_sem_melhoria_max (self s)) /\
     forall j y, j < g -> h_fitness h !! j = Some y -> (y < x)%Q) /\
  (forall g a b,
     h_fitness h !! g = Some a -> h_fitness h !! (g + 19) = Some b ->
     (a == b)%Q -> length (h_fitness h) = g + 20).
Proof.
  intros H. pose proof H as H0.
  apply executar_paradas in H0 as (_ & _ & Hconv & Hfim2).
  apply executar_inv in H as (s1 & s2 & Eg & El & _ & ->).
  apply semeadura_config in Eg as [pop0 E1].
  pose proof El as Hb.
  apply laco_geracoes_basico in Hb as ((_ & _ & _ & _ & Hmax & _) & _ & _).
  destruct (laco_geracoes_contagem tipo mut (estado_de_parada (self s)) n
              historicos_vazios s1 h s2) as [Hfim Hk];
    [by rewrite E1|done|].
  assert (Hsem : sem_parada_antecipada (estado_de_parada (self s))
                   (AG.geracoes_sem_melhoria_max (self s)) (h_fitness h)).
  { intros k Hkk. specialize (Hk k Hkk). by rewrite E1 in Hk. }
  cbn [self AG.geracoes_sem_melhoria AG.geracoes_sem_melhoria_max
       AG.com_populacao] in *.
  assert (Ec : AG.geracoes_sem_melhoria (self s2)
               = contador_apos (estado_de_parada (self s)) (h_fitness h))
    by (unfold contador_apos; by rewrite <- Hfim).
  assert (Em : AG.geracoes_sem_melhoria_max (self s2)
               = AG.geracoes_sem_melhoria_max (self s))
    by (rewrite <- Hmax, E1; done).
  split; [done|]. split; [done|]. split; [done|]. split; [|split].
  - intros Hlt. destruct Hfim2 as [Hn|[Hcr|Hct]]; [lia|by right|left].
    by rewrite <- Em.
  - intros g x Hconst.
    destruct (decide (AG.geracoes_sem_melhoria_max (self s) = 0)) as [E0|Hpos].
    + rewrite E0 in *.
      destruct (estagnacao_sem_limite _ _ g x Hsem) as [L ->].
      { destruct (Hconst 0) as (y & Hy & Ey); [lia|].
        rewrite Nat.add_0_r in Hy. by exists y. }
      split; [done|]. split; [lia|]. split; [|intros j y Hj; lia].
      intros [Hm|Hs]; [|lia]. rewrite Ec.
      by apply (estagnacao_contador (estado_de_parada (self s)) _ 0 0 x);
        [left|..].
    + assert (Hini : (estado_de_parada (self s)).1 = MenosInf \/
                     1 <= AG.geracoes_sem_melhoria_max (self s))
        by (right; lia).
      pose proof (estagnacao_contador (estado_de_parada (self s)) _ _ g x
                    Hini Hsem Hconst) as Hcont.
      split;
        [exact (estagnacao_comprimento (estado_de_parada (self s)) _ _ g x
                  Hini Hsem Hconst)|].
      split; [rewrite Ec, Hcont; lia|]. split; [intros _; by rewrite Ec|].
      exact (estagnacao_melhoria (estado_de_parada (self s)) _ _ g x
               Hini Hsem Hconst).
  - intros g a b. by apply historico_igual_em_vinte.
Qed.

Lemma parada_por_estagnacao_witness :
  exists sol h s',
    executar 30 "uniforme" false motor_com_elite = (Ok (Some sol, h), s') /\
    length (h_fitness h) = 2 + 3 + 1 /\
    AG.geracoes_sem_melhoria (self s') = 3 /\
    (forall j y, j < 2 -> h_fitness h !! j = Some y -> (y < - 510)%Q) /\
    sem_convergencia_antecipada (h_fitness h).
Proof.
  eexists _, _, _. split; [vm_compute; reflexivity|].
  destruct (parada_por_estagnacao 30 "uniforme" false motor_com_elite
              _ _ _ ltac:(vm_compute; reflexivity))
    as (_ & Hconv & _ & _ & Hest & _).
  destruct (Hest 2 (- 510)%Q) as (L & _ & Hc & Hm).
  { intros [|[|[|[|k]]]] Hk; simpl in Hk; try lia;
      eexists; (split; [reflexivity|]); reflexivity. }
  split; [exact L|]. split; [apply Hc; by left|]. split; [exact Hm|exact Hconv].
Defined.

(** ** Best fitness seen and the no-improvement counter after a run *)

Lemma apos_historico_fresco (c : nat) (hf : list Q) :
  hf <> [] ->
  exists i m,
    hf !! i = Some m /\
    (forall j y, j < i -> hf !! j = Some y -> (y < m)%Q) /\
    (forall y, y ∈ hf -> (y <= m)%Q) /\
    apos_historico (MenosInf, c) hf = (Finito m, length hf - 1 - i).
Proof.
  induction hf as [|f l IH] using rev_ind; [done|]. intros _.
  rewrite apos_historico_snoc.
  destruct (decide (l = [])) as [->|Hl].
  { exists 0, f. split; [done|]. split; [intros j y Hj; lia|]. split; [|done].
    intros y Hy. apply list_elem_of_singleton in Hy as ->. apply Qle_refl. }
  destruct (IH Hl) as (i & m & Hi & Hantes & Hmax & ->).
  apply lookup_lt_Some in Hi as Hlen.
  unfold registrar. cbn [fst snd supera].
  destruct (Qltb m f) eqn:Ef.
  - apply Qltb_lt in Ef. exists (length l), f.
    split; [by rewrite lookup_snoc|]. split; [|split].
    + intros j y Hj Hy. rewrite lookup_app_l in Hy by done.
      eapply Qle_lt_trans; [|exact Ef].
      apply Hmax. by eapply list_elem_of_lookup_2.
    + intros y Hy. apply elem_of_app in Hy as [Hy|Hy].
      * apply Qlt_le_weak. eapply Qle_lt_trans; [|exact Ef]. by apply Hmax.
      * apply list_elem_of_singleton in Hy as ->. apply Qle_refl.
    + f_equal. rewrite length_app. simpl. lia.
  - apply Qltb_ge in Ef. exists i, m.
    split; [by rewrite lookup_app_l|]. split; [|split].
    + intros j y Hj Hy. rewrite lookup_app_l in Hy by lia. by eapply Hantes.
    + intros y Hy. apply elem_of_app in Hy as [Hy|Hy]; [by apply Hmax|].
      by apply list_elem_of_singleton in Hy as ->.
    + f_equal. rewrite length_app. simpl. lia.
Qed.

Lemma laco_geracoes_registra (tipo : string) (mut : bool) (n : nat)
    (h h' : Historicos) (s s' : Motor) :
  laco_geracoes (S n) tipo mut h s = (Ok h', s') ->
  length (h_fitness h) < length (h_fitness h').
Proof.
  intros H. apply laco_geracoes_passo in H
    as (m & _ & [(-> & _ & _)|(_ & _ & s3 & _ & H)]).
  - simpl. rewrite length_app. simpl. lia.
  - apply laco_geracoes_basico in H as (_ & (suf & -> & _) & _).
    simpl. rewrite !length_app. simpl. lia.
Qed.

(** X8.  After a run of [executar] of at least one generation on an engine
    whose [melhor_fitness] is still minus infinity, [melhor_fitness] is the
    maximum of the recorded fitness history, and [geracoes_sem_melhoria] is
    the number of generations recorded after the first one that reached that
    maximum. *)
Theorem executar_melhor_fitness_final (n : nat) (tipo : string) (mut : bool)
    (s s' : Motor) (sol : Cromossomo.t) (h : Historicos) :
  AG.melhor_fitness (self s) = MenosInf ->
  1 <= n ->
  executar n tipo mut s = (Ok (Some sol, h), s') ->
  exists i m,
    h_fitness h !! i = Some m /\
    (forall j y, j < i -> h_fitness h !! j = Some y -> (y < m)%Q) /\
    (forall y, y ∈ h_fitness h -> (y <= m)%Q) /\
    AG.melhor_fitness (self s') = Finito m /\
    AG.geracoes_sem_melhoria (self s') = length (h_fitness h) - 1 - i.
Proof.
  intros Hini Hn H.
  apply executar_inv in H as (s1 & s2 & Eg & El & _ & ->).
  apply semeadura_config in Eg as [pop0 E1].
  destruct n as [|n]; [lia|].
  pose proof (laco_geracoes_registra _ _ _ _ _ _ _ El) as Hlen.
  destruct (laco_geracoes_contagem tipo mut (estado_de_parada (self s)) (S n)
              historicos_vazios s1 h s2) as [Hfim _];
    [by rewrite E1|done|].
  destruct (apos_historico_fresco (AG.geracoes_sem_melhoria (self s))
              (h_fitness h)) as (i & m & Hi & Hantes & Hmax & Eap).
  { intros E0. rewrite E0 in Hlen. simpl in Hlen. lia. }
  exists i, m. repeat split; try done.
  - unfold estado_de_parada in Hfim. rewrite Hini, Eap in Hfim.
    cbn [self AG.melhor_fitness AG.com_populacao]. congruence.
  - unfold estado_de_parada in Hfim. rewrite Hini, Eap in Hfim.
    cbn [self AG.geracoes_sem_melhoria AG.com_populacao]. congruence.
Qed.

Lemma executar_melhor_fitness_final_witness :
  exists sol h s',
    executar 10 "uniforme" true motor_com_elite = (Ok (Some sol, h), s') /\
    exists i m,
      h_fitness h !! i = Some m /\
      (forall j y, j < i -> h_fitness h !! j = Some y -> (y < m)%Q) /\
      (forall y, y ∈ h_fitness h -> (y <= m)%Q) /\
      AG.melhor_fitness (self s') = Finito m /\
      AG.geracoes_sem_melhoria (self s') = length (h_fitness h) - 1 - i.
Proof.
  eexists _, _, _. split; [vm_compute; reflexivity|].
  eapply (executar_melhor_fitness_final 10 "uniforme" true motor_com_elite);
    [reflexivity|lia|vm_compute; reflexivity].
Defined.

(** ** The crossovers, position by position *)

Lemma lookup_corte {A} (x y : list A) (c i : nat) :
  c <= length x ->
  (take c x ++ drop c y) !! i = if bool_decide (i < c) then x !! i else y !! i.
Proof.
  intros Hc. case_bool_decide as Hi.
  - rewrite lookup_app_l by (rewrite length_take; lia).
    by apply lookup_take_lt.
  - rewrite lookup_app_r by (rewrite length_take; lia).
    rewrite length_take, lookup_drop. f_equal. lia.
Qed.

Lemma length_corte {A} (x y : list A) (c N : nat) :
  length x = N -> length y = N -> c <= N ->
  length (take c x ++ drop c y) = N.
Proof.
  intros Lx Ly Hc. rewrite length_app, length_take, length_drop. lia.
Qed.

Lemma length_tres {A} (x y : list A) (a b N : nat) :
  length x = N -> length y = N -> a <= b <= N ->
  length (take a x ++ py_slice y a b ++ drop b x) = N.
Proof.
  intros Lx Ly H. unfold py_slice.
  rewrite !length_app, !length_take, !length_drop. lia.
Qed.

Lemma lookup_tres {A} (x y : list A) (a b N i : nat) :
  length x = N -> length y = N -> a <= b <= N ->
  (take a x ++ py_slice y a b ++ drop b x) !! i
  = if negb (bool_decide (a <= i < b)) then x !! i else y !! i.
Proof.
  intros Lx Ly H. unfold py_slice.
  destruct (decide (i < a)) as [Hi|Hi].
  { rewrite bool_decide_eq_false_2 by lia. simpl.
    rewrite lookup_app_l by (rewrite length_take; lia).
    by apply lookup_take_lt. }
  rewrite lookup_app_r by (rewrite length_take; lia).
  rewrite length_take.
  destruct (decide (i < b)) as [Hb|Hb].
  - rewrite bool_decide_eq_true_2 by lia. simpl.
    rewrite lookup_app_l by (rewrite length_take, length_drop; lia).
    rewrite lookup_take_lt by lia. rewrite lookup_drop. f_equal. lia.
  - rewrite bool_decide_eq_false_2 by lia. simpl.
    rewrite lookup_app_r by (rewrite length_take, length_drop; lia).
    rewrite length_take, length_drop, lookup_drop. f_equal. lia.
Qed.

Lemma amostrar_distintos {A} (k : nat) :
  forall (urna : list A) (r : Fonte),
    NoDup urna -> k <= length urna ->
    devolve (amostrar k urna) r
      (fun xs _ => length xs = k /\ NoDup xs /\ forall x, x ∈ xs -> x ∈ urna).
Proof.
  induction k as [|k IH]; intros urna r Hnd Hk; simpl.
  - apply devolve_ret. split; [done|]. split; [constructor|].
    intros x Hx. by apply elem_of_nil in Hx.
  - eapply devolve_bind; [apply sortear_devolve|].
    intros j s' _. simpl.
    assert (Hlt : N.to_nat (j mod N.of_nat (length urna)) < length urna).
    { assert (N.of_nat (length urna) <> 0%N) by lia.
      pose proof (N.mod_lt j (N.of_nat (length urna)) H). lia. }
    destruct (py_index_lt urna _ Hlt) as (x & Hx & E).
    eapply devolve_bind;
      [eapply (devolve_de_res _ _ _ (fun a _ => a = x)); [exact E|done]|].
    intros x' s1 ->.
    pose proof (delete_Permutation _ _ _ Hx) as Hperm.
    rewrite Hperm in Hnd. apply NoDup_cons in Hnd as [Hfora Hnd].
    eapply devolve_bind.
    + apply IH; [done|]. rewrite length_delete by eauto. lia.
    + intros xs s2 (Hlen & Hxs & Hin). apply devolve_ret.
      split; [simpl; lia|]. split.
      * apply NoDup_cons. split; [|done]. intros Hc. by apply Hfora, Hin.
      * intros y Hy. apply elem_of_cons in Hy as [->|Hy].
        -- apply list_elem_of_lookup. eauto.
        -- eapply list_elem_of_delete_inv. by apply Hin.
Qed.

Section Recombinacao.
Variables (pai1 pai2 : Cromossomo.t) (N : nat).
Hypothesis L1 : length (Cromossomo.voos_ida pai1) = N.
Hypothesis L2 : length (Cromossomo.voos_ida pai2) = N.
Hypothesis L3 : length (Cromossomo.voos_volta pai1) = N.
Hypothesis L4 : length (Cromossomo.voos_volta pai2) = N.

Lemma cruzamento_ponto_unico_corte (r : Fonte) :
  2 <= N ->
  devolve (cruzamento_ponto_unico pai1 pai2) r
    (fun fs _ => exists corte,
       1 <= corte <= N - 1 /\ cortados_em pai1 pai2 N corte fs).
Proof using L1 L2 L3 L4.
  intros HN. unfold cruzamento_ponto_unico. rewrite L1.
  destruct (decide (N = 0)); [lia|].
  eapply devolve_bind; [apply random_randint_devolve; lia|].
  intros z s' Hz. cbv beta in Hz. apply devolve_ret.
  exists (Z.to_nat z). split; [lia|]. split.
  - unfold comprimentos. cbn [fst snd Cromossomo.voos_ida Cromossomo.voos_volta
      Cromossomo.novo].
    repeat split; apply length_corte; (done || lia).
  - intros i Hi. unfold troca_em, par_de.
    cbn [fst snd Cromossomo.voos_ida Cromossomo.voos_volta Cromossomo.novo].
    rewrite !lookup_corte by lia.
    by case_bool_decide.
Qed.

Lemma cruzamento_dois_pontos_segmento (r : Fonte) :
  3 <= N ->
  devolve (cruzamento_dois_pontos pai1 pai2) r
    (fun fs _ => exists ponto1 ponto2,
       1 <= ponto1 /\ ponto1 < ponto2 /\ ponto2 <= N - 1 /\
       segmento_trocado pai1 pai2 N ponto1 ponto2 fs).
Proof using L1 L2 L3 L4.
  intros HN. unfold cruzamento_dois_pontos. rewrite L1.
  destruct (decide (N < 3)); [lia|].
  eapply devolve_bind.
  { unfold random_sample. rewrite length_seq.
    destruct (decide (N - 1 < 2)); [lia|].
    apply amostrar_distintos; [apply NoDup_seq|]. rewrite length_seq. lia. }
  intros xs s' (Hlen & Hnd & Hin). cbv beta in *.
  destruct xs as [|a [|b [|c xs]]]; try done.
  assert (Ha : 1 <= a < N).
  { assert (H : a ∈ [a; b]) by (apply list_elem_of_In; simpl; auto).
    apply Hin, elem_of_seq in H. lia. }
  assert (Hb : 1 <= b < N).
  { assert (H : b ∈ [a; b]) by (apply list_elem_of_In; simpl; auto).
    apply Hin, elem_of_seq in H. lia. }
  assert (Hab : a <> b).
  { apply NoDup_cons in Hnd as [Hfora _]. intros ->.
    apply Hfora, list_elem_of_here. }
  apply devolve_ret. exists (a `min` b), (a `max` b).
  split; [lia|]. split; [lia|]. split; [lia|]. split.
  - unfold comprimentos. cbn [fst snd Cromossomo.voos_ida Cromossomo.voos_volta
      Cromossomo.novo].
    repeat split; apply length_tres; (done || lia).
  - intros i Hi. unfold troca_em, par_de.
    cbn [fst snd Cromossomo.voos_ida Cromossomo.voos_volta Cromossomo.novo].
    rewrite !(lookup_tres _ _ _ _ N) by (done || lia).
    by case_bool_decide.
Qed.
End Recombinacao.

Lemma random_random_sorteio (r s0 : Fonte) (k : nat) :
  avancou r k s0 ->
  exists s1, random_random s0 = (Ok (sorteio r k), s1) /\ avancou r (S k) s1.
Proof.
  intros [Hf Hc]. eexists. split.
  - unfold random_random, bind, sortear, ret, sorteio. by rewrite Hf, Hc.
  - split; simpl; [done|lia].
Qed.

Lemma par_de_snoc (ida volta : list Voo.t) (a b : Voo.t) (k i : nat)
    (c : Cromossomo.t) :
  length ida = k -> length volta = k -> i < S k ->
  par_de (Cromossomo.novo (ida ++ [a]) (volta ++ [b])) i
  = if decide (i = k) then Some (a, b) else par_de (Cromossomo.novo ida volta) i.
Proof.
  intros Li Lv Hi. unfold par_de.
  cbn [Cromossomo.voos_ida Cromossomo.voos_volta Cromossomo.novo].
  destruct (decide (i = k)) as [->|Hne].
  - rewrite <- Li at 1. rewrite lookup_snoc.
    rewrite <- Lv. by rewrite lookup_snoc.
  - by rewrite !lookup_app_l by lia.
Qed.

Section Uniforme.
Variables (pai1 pai2 : Cromossomo.t) (N : nat).
Hypothesis L1 : length (Cromossomo.voos_ida pai1) = N.
Hypothesis L2 : length (Cromossomo.voos_ida pai2) = N.
Hypothesis L3 : length (Cromossomo.voos_volta pai1) = N.
Hypothesis L4 : length (Cromossomo.voos_volta pai2) = N.

Lemma passo_uniforme_sorteio (r : Fonte) (k : nat) (f : Filhos) (s0 : Fonte) :
  k < N -> avancou r k s0 ->
  trocados_por_sorteio pai1 pai2 r k (fechar f) ->
  devolve (passo_uniforme pai1 pai2 k f) s0
    (fun f' s1 => avancou r (S k) s1 /\
                  trocados_por_sorteio pai1 pai2 r (S k) (fechar f')).
Proof using L1 L2 L3 L4.
  intros Hk Hav ((K1 & K2 & K3 & K4) & Hinv).
  cbn [fst snd fechar Cromossomo.voos_ida Cromossomo.voos_volta Cromossomo.novo]
    in K1, K2, K3, K4.
  destruct (random_random_sorteio r s0 k Hav) as (s1 & Er & Hav1).
  destruct (py_index_lt (Cromossomo.voos_ida pai1) k) as (x1 & X1 & E1); [lia|].
  destruct (py_index_lt (Cromossomo.voos_ida pai2) k) as (x2 & X2 & E2); [lia|].
  destruct (py_index_lt (Cromossomo.voos_volta pai1) k) as (y1 & Y1 & E3); [lia|].
  destruct (py_index_lt (Cromossomo.voos_volta pai2) k) as (y2 & Y2 & E4); [lia|].
  assert (P1 : par_de pai1 k = Some (x1, y1)) by (unfold par_de; by rewrite X1, Y1).
  assert (P2 : par_de pai2 k = Some (x2, y2)) by (unfold par_de; by rewrite X2, Y2).
  unfold passo_uniforme, devolve, bind. rewrite Er.
  unfold de_res. rewrite E1, E2, E3, E4.
  destruct (Qltb (sorteio r k) meio) eqn:Eq; eexists _, _;
    (split; [reflexivity|]); (split; [done|]); (split;
    [unfold comprimentos;
     cbn [fst snd fechar filho1_ida filho1_volta filho2_ida filho2_volta
          Cromossomo.voos_ida Cromossomo.voos_volta Cromossomo.novo];
     rewrite !length_app; simpl; lia|]);
    intros i Hi; unfold troca_em;
    cbn [fst snd fechar filho1_ida filho1_volta filho2_ida filho2_volta];
    rewrite !(par_de_snoc _ _ _ _ k i pai1) by (done || lia);
    (destruct (decide (i = k)) as [->|Hne];
     [by rewrite Eq, P1, P2|apply Hinv; lia]).
Qed.

Lemma cruzamento_uniforme_sorteio (r : Fonte) :
  devolve (cruzamento_uniforme pai1 pai2) r
    (fun fs r' => (N = 0 -> r' = r) /\ (N <> 0 -> avancou r N r') /\
                  trocados_por_sorteio pai1 pai2 r N fs).
Proof using L1 L2 L3 L4.
  unfold cruzamento_uniforme. rewrite L1.
  destruct (decide (N = 0)) as [->|H0].
  { apply devolve_ret. split; [done|]. split; [done|].
    split; [done|]. intros i Hi. lia. }
  eapply devolve_bind.
  - apply (devolve_para_estado _
             (fun k f s => avancou r k s /\
                           trocados_por_sorteio pai1 pai2 r k (fechar f))
             (seq 0 N) 0 filhos_iniciais r).
    + split; [split; simpl; [done|lia]|]. split; [done|]. intros i Hi. lia.
    + intros j x b s0 Hj [Hav Hb]. apply lookup_seq_0 in Hj as [-> Hj].
      by apply passo_uniforme_sorteio.
  - intros f s'. rewrite length_seq. intros [Hav Hf].
    apply devolve_ret. split; [done|]. split; [done|]. exact Hf.
Qed.
End Uniforme.

(** X9.  For parents of [N >= 2] genes per leg [cruzamento_ponto_unico]
    returns, for some cut [1 <= corte <= N - 1], children of [N] genes per
    leg: child 1 holds parent 1's (outbound, return) pairs before the cut and
    parent 2's from the cut on, child 2 the reverse.  So each child takes at
    least one pair from each parent. *)
Theorem cruzamento_ponto_unico_corta (pai1 pai2 : Cromossomo.t) (N : nat)
    (r : Fonte) :
  length (Cromossomo.voos_ida pai1) = N ->
  length (Cromossomo.voos_ida pai2) = N ->
  length (Cromossomo.voos_volta pai1) = N ->
  length (Cromossomo.voos_volta pai2) = N ->
  2 <= N ->
  devolve (cruzamento_ponto_unico pai1 pai2) r
    (fun fs _ => exists corte,
       1 <= corte <= N - 1 /\ cortados_em pai1 pai2 N corte fs).
Proof.
  intros L1 L2 L3 L4 HN.
  by apply (cruzamento_ponto_unico_corte pai1 pai2 N L1 L2 L3 L4).
Qed.

Lemma cruzamento_ponto_unico_corta_witness :
  devolve (cruzamento_ponto_unico pai_a pai_b) fonte_zero
    (fun fs _ => exists corte,
       1 <= corte <= 3 - 1 /\ cortados_em pai_a pai_b 3 corte fs).
Proof.
  apply (cruzamento_ponto_unico_corta pai_a pai_b 3 fonte_zero);
    (reflexivity || lia).
Defined.

(** X10.  For parents of [N >= 3] genes per leg [cruzamento_dois_pontos]
    returns, for cut points [1 <= ponto1 < ponto2 <= N - 1], children of [N]
    genes per leg: child 1 holds parent 2's (outbound, return) pairs at the
    positions [ponto1 <= i < ponto2] and parent 1's elsewhere, child 2 the
    reverse.  The exchanged segment is never empty and never reaches the
    first or the last position. *)
Theorem cruzamento_dois_pontos_troca_segmento (pai1 pai2 : Cromossomo.t)
    (N : nat) (r : Fonte) :
  length (Cromossomo.voos_ida pai1) = N ->
  length (Cromossomo.voos_ida pai2) = N ->
  length (Cromossomo.voos_volta pai1) = N ->
  length (Cromossomo.voos_volta pai2) = N ->
  3 <= N ->
  devolve (cruzamento_dois_pontos pai1 pai2) r
    (fun fs _ => exists ponto1 ponto2,
       1 <= ponto1 /\ ponto1 < ponto2 /\ ponto2 <= N - 1 /\
       segmento_trocado pai1 pai2 N ponto1 ponto2 fs).
Proof.
  intros L1 L2 L3 L4 HN.
  by apply (cruzamento_dois_pontos_segmento pai1 pai2 N L1 L2 L3 L4).
Qed.

Lemma cruzamento_dois_pontos_troca_segmento_witness :
  devolve (cruzamento_dois_pontos pai_a pai_b) fonte_zero
    (fun fs _ => exists ponto1 ponto2,
       1 <= ponto1 /\ ponto1 < ponto2 /\ ponto2 <= 3 - 1 /\
       segmento_trocado pai_a pai_b 3 ponto1 ponto2 fs).
Proof.
  apply (cruzamento_dois_pontos_troca_segmento pai_a pai_b 3 fonte_zero);
    (reflexivity || lia).
Defined.

(** X11.  For parents of [N] genes per leg [cruzamento_uniforme] returns
    children of [N] genes per leg and calls [random.random()] once per
    position (not at all when [N = 0]): where the draw of position [i] is
    below 0.5 child 1 holds parent 1's (outbound, return) pair and child 2
    parent 2's, otherwise the reverse. *)
Theorem cruzamento_uniforme_por_sorteio (pai1 pai2 : Cromossomo.t) (N : nat)
    (r : Fonte) :
  length (Cromossomo.voos_ida pai1) = N ->
  length (Cromossomo.voos_ida pai2) = N ->
  length (Cromossomo.voos_volta pai1) = N ->
  length (Cromossomo.voos_volta pai2) = N ->
  devolve (cruzamento_uniforme pai1 pai2) r
    (fun fs r' => (N = 0 -> r' = r) /\ (N <> 0 -> avancou r N r') /\
                  trocados_por_sorteio pai1 pai2 r N fs).
Proof.
  intros L1 L2 L3 L4.
  by apply (cruzamento_uniforme_sorteio pai1 pai2 N L1 L2 L3 L4).
Qed.

Lemma cruzamento_uniforme_por_sorteio_witness :
  devolve (cruzamento_uniforme pai_a pai_b) fonte_zero
    (fun fs r' => (3 = 0 -> r' = fonte_zero) /\
                  (3 <> 0 -> avancou fonte_zero 3 r') /\
                  trocados_por_sorteio pai_a pai_b fonte_zero 3 fs).
Proof.
  apply (cruzamento_uniforme_por_sorteio pai_a pai_b 3 fonte_zero);
    reflexivity.
Defined.

(** ** The schedule crossover *)

Lemma Qleb_horas (a b : Z) :
  Qleb (inject_Z a / 3600) (inject_Z b / 3600) = bool_decide (a <= b)%Z.
Proof.
  case_bool_decide as H.
  - apply Qleb_le. unfold Qle, Qdiv, Qmult, Qinv, inject_Z; simpl. lia.
  - destruct (Qleb _ _) eqn:E; [|done]. exfalso. apply H.
    apply Qleb_le in E. unfold Qle, Qdiv, Qmult, Qinv, inject_Z in E.
    simpl in E. lia.
Qed.

Lemma span_horas_amplitude (c : Cromossomo.t) :
  Cromossomo.voos_ida c <> [] ->
  exists d, span_horas (Voo.horario_chegada <$> Cromossomo.voos_ida c)
            = Ok (inject_Z d / 3600)%Q /\
            amplitude_chegada c d.
Proof.
  intros Hne.
  assert (Hh : Voo.horario_chegada <$> Cromossomo.voos_ida c <> [])
    by (by destruct (Cromossomo.voos_ida c)).
  destruct (py_max_spec _ Hh) as (mx & Emx & Hmx).
  destruct (py_min_spec _ Hh) as (mn & Emn & Hmn).
  exists (mx - mn)%Z. split.
  - unfold span_horas. by rewrite Emx, Emn.
  - by exists mx, mn.
Qed.

Section Horario.
Variables (pai1 pai2 : Cromossomo.t) (N : nat).
Hypothesis L1 : length (Cromossomo.voos_ida pai1) = N.
Hypothesis L2 : length (Cromossomo.voos_ida pai2) = N.
Hypothesis L3 : length (Cromossomo.voos_volta pai1) = N.
Hypothesis L4 : length (Cromossomo.voos_volta pai2) = N.

Lemma passo_volta_sorteio (r : Fonte) (k : nat)
    (f : list Voo.t * list Voo.t) (s0 : Fonte) :
  k < N -> avancou r k s0 -> voltas_por_sorteio pai1 pai2 r k f ->
  devolve (passo_volta pai1 pai2 k f) s0
    (fun f' s1 => avancou r (S k) s1 /\
                  voltas_por_sorteio pai1 pai2 r (S k) f').
Proof using L1 L2 L3 L4.
  intros Hk Hav (K1 & K2 & Hinv).
  destruct (random_random_sorteio r s0 k Hav) as (s1 & Er & Hav1).
  destruct (py_index_lt (Cromossomo.voos_volta pai1) k) as (y1 & Y1 & E3); [lia|].
  destruct (py_index_lt (Cromossomo.voos_volta pai2) k) as (y2 & Y2 & E4); [lia|].
  unfold passo_volta, devolve, bind. rewrite Er.
  unfold de_res. rewrite E3, E4.
  destruct (Qltb (sorteio r k) meio) eqn:Eq; eexists _, _;
    (split; [reflexivity|]); (split; [done|]);
    (split; [simpl; rewrite length_app; simpl; lia|]);
    (split; [simpl; rewrite length_app; simpl; lia|]);
    intros i Hi; cbn [fst snd];
    (destruct (decide (i = k)) as [->|Hne];
     [ rewrite Eq, Y1, Y2; rewrite <- K1 at 1; rewrite lookup_snoc;
       rewrite <- K2 at 1; by rewrite lookup_snoc
     | rewrite !lookup_app_l by lia; apply Hinv; lia ]).
Qed.

Lemma cruzamento_baseado_horario_escolha (r : Fonte) :
  N <> 0 ->
  devolve (cruzamento_baseado_horario pai1 pai2) r
    (fun fs r' => avancou r N r' /\ filhos_por_horario pai1 pai2 r N fs).
Proof using L1 L2 L3 L4.
  intros H0. unfold cruzamento_baseado_horario. rewrite L1.
  destruct (decide (N = 0)); [done|].
  assert (N1 : Cromossomo.voos_ida pai1 <> [])
    by (intros E; rewrite E in L1; simpl in L1; lia).
  assert (N2 : Cromossomo.voos_ida pai2 <> [])
    by (intros E; rewrite E in L2; simpl in L2; lia).
  destruct (span_horas_amplitude pai1 N1) as (d1 & Q1 & A1).
  destruct (span_horas_amplitude pai2 N2) as (d2 & Q2 & A2).
  destruct (Voo.horario_chegada <$> Cromossomo.voos_ida pai1) as [|h1 t1] eqn:E1.
  { by destruct (Cromossomo.voos_ida pai1). }
  destruct (Voo.horario_chegada <$> Cromossomo.voos_ida pai2) as [|h2 t2] eqn:E2.
  { by destruct (Cromossomo.voos_ida pai2). }
  eapply devolve_bind;
    [exact (devolve_de_res _ _ r (fun a r0 => a = (inject_Z d1 / 3600)%Q /\ r0 = r)
              Q1 (conj eq_refl eq_refl))|].
  intros ? ? [-> ->].
  eapply devolve_bind;
    [exact (devolve_de_res _ _ r (fun a r0 => a = (inject_Z d2 / 3600)%Q /\ r0 = r)
              Q2 (conj eq_refl eq_refl))|].
  intros ? ? [-> ->].
  rewrite Qleb_horas.
  assert (Hlaco : devolve
            (para (seq 0 N) (passo_volta pai1 pai2)
                  (([] : list Voo.t), ([] : list Voo.t))) r
            (fun f s => avancou r N s /\ voltas_por_sorteio pai1 pai2 r N f)).
  { eapply devolve_mono.
    - apply (devolve_para_estado _
               (fun k f s => avancou r k s /\ voltas_por_sorteio pai1 pai2 r k f)
               (seq 0 N) 0 _ r).
      + split; [split; simpl; [done|lia]|].
        split; [done|]. split; [done|]. intros i Hi. lia.
      + intros j x b s0 Hj [Hav Hb]. apply lookup_seq_0 in Hj as [-> Hj].
        by apply passo_volta_sorteio.
    - intros f s. by rewrite length_seq. }
  case_bool_decide as Hd;
    (eapply devolve_bind; [exact Hlaco|]);
    intros f s [Hav Hf]; apply devolve_ret; (split; [done|]);
    (split; [|by destruct f]);
    exists d1, d2; (split; [done|]); (split; [done|]);
    cbn [fst snd Cromossomo.voos_ida Cromossomo.novo];
    by destruct (decide (d1 <= d2)%Z).
Qed.
End Horario.

(** X12.  For parents of [N >= 1] genes per leg
    [cruzamento_baseado_horario] returns two children and calls
    [random.random()] once per position.  Child 1 receives the whole
    outbound list of the parent whose outbound arrivals are less spread
    (latest minus earliest; parent 1 on a tie) and child 2 the other
    parent's.  The return genes are dealt position by position: where the
    draw is below 0.5 child 1 holds parent 1's return option and child 2
    parent 2's, otherwise the reverse. *)
Theorem cruzamento_baseado_horario_correto (pai1 pai2 : Cromossomo.t)
    (N : nat) (r : Fonte) :
  length (Cromossomo.voos_ida pai1) = N ->
  length (Cromossomo.voos_ida pai2) = N ->
  length (Cromossomo.voos_volta pai1) = N ->
  length (Cromossomo.voos_volta pai2) = N ->
  N <> 0 ->
  devolve (cruzamento_baseado_horario pai1 pai2) r
    (fun fs r' => avancou r N r' /\ filhos_por_horario pai1 pai2 r N fs).
Proof.
  intros L1 L2 L3 L4 HN.
  by apply (cruzamento_baseado_horario_escolha pai1 pai2 N L1 L2 L3 L4).
Qed.

Lemma cruzamento_baseado_horario_correto_witness :
  devolve (cruzamento_baseado_horario pai_a pai_b) fonte_zero
    (fun fs r' => avancou fonte_zero 3 r' /\
                  filhos_por_horario pai_a pai_b fonte_zero 3 fs).
Proof.
  apply (cruzamento_baseado_horario_correto pai_a pai_b 3 fonte_zero);
    (reflexivity || lia).
Defined.

(** ** Crossover of equal parents *)

Lemma mistura_de_iguais (p f : list Voo.t) : mistura p p f -> f = p.
Proof.
  intros [Hlen Hf]. apply list_eq. intros i.
  destruct (f !! i) as [v|] eqn:E.
  - symmetry. by destruct (Hf i v E).
  - symmetry. apply lookup_ge_None. apply lookup_ge_None in E. lia.
Qed.

Lemma filhos_de_iguais (pai1 pai2 : Cromossomo.t)
    (fs : Cromossomo.t * Cromossomo.t) :
  mesmos_genes pai1 pai2 ->
  filhos_misturados pai1 pai2 fs ->
  mesmos_genes pai1 fs.1 /\ mesmos_genes pai1 fs.2.
Proof.
  intros [Ei Ev] (M1 & M2 & M3 & M4). rewrite Ei in M1, M3. rewrite Ev in M2, M4.
  repeat split; by apply mistura_de_iguais.
Qed.

(** X13.  When both parents hold the same genes (at least two per leg, or
    none) each of the five crossovers returns two children that hold those
    same genes: recombination cannot change a population whose candidates
    are all equal. *)
Theorem cruzamento_de_pais_iguais (pai1 pai2 : Cromossomo.t) (N : nat)
    (cruzamento : Cromossomo.t -> Cromossomo.t ->
                  Comp Fonte (Cromossomo.t * Cromossomo.t))
    (r : Fonte) :
  cruzamento ∈ cinco_cruzamentos ->
  length (Cromossomo.voos_ida pai1) = N ->
  length (Cromossomo.voos_volta pai1) = N ->
  mesmos_genes pai1 pai2 ->
  N <> 1 ->
  devolve (cruzamento pai1 pai2) r
    (fun fs _ => mesmos_genes pai1 fs.1 /\ mesmos_genes pai1 fs.2).
Proof.
  intros Hc L1 L3 Hg HN.
  pose proof Hg as [Ei Ev].
  assert (L2 : length (Cromossomo.voos_ida pai2) = N) by by rewrite Ei.
  assert (L4 : length (Cromossomo.voos_volta pai2) = N) by by rewrite Ev.
  eapply devolve_mono;
    [|intros fs s' Hm; exact (filhos_de_iguais pai1 pai2 fs Hg Hm)].
  unfold cinco_cruzamentos in Hc.
  repeat (apply elem_of_cons in Hc as [->|Hc]).
  - by apply (cruzamento_ponto_unico_devolve pai1 pai2 N).
  - by apply (cruzamento_dois_pontos_devolve pai1 pai2 N).
  - by apply (cruzamento_uniforme_devolve pai1 pai2 N).
  - by apply (cruzamento_baseado_custo_mistura pai1 pai2 N).
  - by apply (cruzamento_baseado_horario_devolve pai1 pai2 N).
  - by apply elem_of_nil in Hc.
Qed.

Lemma cruzamento_de_pais_iguais_witness :
  devolve (cruzamento_dois_pontos pai_a (Cromossomo.com_fitness pai_a 7))
    fonte_zero
    (fun fs _ => mesmos_genes pai_a fs.1 /\ mesmos_genes pai_a fs.2).
Proof.
  apply (cruzamento_de_pais_iguais pai_a (Cromossomo.com_fitness pai_a 7) 3
           cruzamento_dois_pontos fonte_zero).
  - apply list_elem_of_In. simpl. auto.
  - reflexivity.
  - reflexivity.
  - split; reflexivity.
  - lia.
Defined.

(** ** Bounds on the fitness *)

Lemma horas_nao_negativas (mx mn : Z) :
  (mn <= mx)%Z -> (0 <= inject_Z (mx - mn) / 3600)%Q.
Proof.
  intros H. unfold Qle, Qdiv, Qmult, Qinv, inject_Z; simpl. lia.
Qed.

Lemma horas_nulas (x : Z) : (inject_Z (x - x) / 3600 == 0)%Q.
Proof. rewrite Z.sub_diag. reflexivity. Qed.

Lemma soma_ponderada_limitada (a p1 g1 p2 g2 : Q) :
  (0 <= p1)%Q -> (0 <= g1)%Q -> (0 <= p2)%Q -> (0 <= g2)%Q ->
  (- (a + p1 * g1 + p2 * g2) <= - a)%Q.
Proof.
  intros H1 H2 H3 H4. apply Qopp_le_compat.
  rewrite <- Qplus_assoc. rewrite <- (Qplus_0_r a) at 1.
  apply Qplus_le_r.
  change (0 + 0 <= p1 * g1 + p2 * g2)%Q.
  apply Qplus_le_compat; by apply Qmult_le_0_compat.
Qed.

Lemma calcular_fitness_cota (self : AG.t) (c : Cromossomo.t) :
  Cromossomo.voos_ida c <> [] -> Cromossomo.voos_volta c <> [] ->
  (0 <= AG.peso_gap_chegada self)%Q -> (0 <= AG.peso_gap_saida self)%Q ->
  exists f,
    calcular_fitness self c = Ok f /\
    (f <= menos_custo_ponderado self c)%Q /\
    (mesmo_instante (Voo.horario_chegada <$> Cromossomo.voos_ida c) ->
     mesmo_instante (Voo.horario_saida <$> Cromossomo.voos_volta c) ->
     (f == menos_custo_ponderado self c)%Q).
Proof.
  intros Hi Hv Pa Ps. unfold calcular_fitness, menos_custo_ponderado.
  destruct (Cromossomo.voos_ida c) as [|i0 ida] eqn:Ei; [done|].
  destruct (Cromossomo.voos_volta c) as [|v0 volta] eqn:Ev; [done|].
  cbn [vazia orb].
  destruct (py_min_spec (Voo.horario_chegada <$> i0 :: ida))
    as (amin & -> & Hamin1 & Hamin2); [done|].
  destruct (py_max_spec (Voo.horario_chegada <$> i0 :: ida))
    as (amax & -> & Hamax1 & Hamax2); [done|].
  destruct (py_min_spec (Voo.horario_saida <$> v0 :: volta))
    as (dmin & -> & Hdmin1 & Hdmin2); [done|].
  destruct (py_max_spec (Voo.horario_saida <$> v0 :: volta))
    as (dmax & -> & Hdmax1 & Hdmax2); [done|].
  cbn [ligar]. eexists. split; [reflexivity|].
  rewrite py_sum_precos. split.
  - apply soma_ponderada_limitada; try done;
      apply horas_nao_negativas; auto.
  - intros Ha Hd.
    rewrite (Ha amax amin Hamax1 Hamin1), (Hd dmax dmin Hdmax1 Hdmin1).
    rewrite !horas_nulas. ring.
Qed.

(** X14.  For a candidate with genes on both legs and non-negative gap
    weights the fitness is at most minus the weighted total price: the two
    gap terms only ever penalise.  It equals that bound when all chosen
    outbound options arrive at the same instant and all chosen return
    options depart at the same instant. *)
Theorem calcular_fitness_limitado_pelo_custo (self : AG.t)
    (c : Cromossomo.t) :
  Cromossomo.voos_ida c <> [] -> Cromossomo.voos_volta c <> [] ->
  (0 <= AG.peso_gap_chegada self)%Q -> (0 <= AG.peso_gap_saida self)%Q ->
  exists f,
    calcular_fitness self c = Ok f /\
    (f <= menos_custo_ponderado self c)%Q /\
    (mesmo_instante (Voo.horario_chegada <$> Cromossomo.voos_ida c) ->
     mesmo_instante (Voo.horario_saida <$> Cromossomo.voos_volta c) ->
     (f == menos_custo_ponderado self c)%Q).
Proof. apply calcular_fitness_cota. Qed.

Lemma calcular_fitness_limitado_pelo_custo_witness :
  exists f,
    calcular_fitness (AG.novo pessoas_exemplo "FCO" 4 0 0 3 1 100 100) pai_a
    = Ok f /\
    (f <= menos_custo_ponderado
            (AG.novo pessoas_exemplo "FCO" 4 0 0 3 1 100 100) pai_a)%Q /\
    (mesmo_instante (Voo.horario_chegada <$> Cromossomo.voos_ida pai_a) ->
     mesmo_instante (Voo.horario_saida <$> Cromossomo.voos_volta pai_a) ->
     (f == menos_custo_ponderado
             (AG.novo pessoas_exemplo "FCO" 4 0 0 3 1 100 100) pai_a)%Q).
Proof.
  apply (calcular_fitness_limitado_pelo_custo
           (AG.novo pessoas_exemplo "FCO" 4 0 0 3 1 100 100) pai_a);
    (discriminate || (unfold Qle; simpl; lia)).
Defined.

(** ** Evaluation of the population *)

Lemma avaliada_avaliada (a b : AG.t) (pop : list Cromossomo.t) :
  mesma_config a b -> avaliada b (avaliada a pop) = avaliada a pop.
Proof.
  intros H. unfold avaliada. rewrite <- list_fmap_compose.
  apply list_fmap_ext. intros i c _. simpl.
  by rewrite fitness_de_com_fitness, (fitness_de_config a b).
Qed.

(** X15.  [avaliar_populacao] never raises and draws nothing: it keeps the
    candidates in order with their genes and stores in each the value of
    [calcular_fitness]; no other field of the engine changes, and a second
    evaluation right after changes nothing. *)
Theorem avaliar_populacao_correto (s : Motor) :
  exists pop',
    let s' := {| self := AG.com_populacao (self s) pop'; fonte := fonte s |} in
    avaliar_populacao s = (Ok tt, s') /\
    reavaliada (self s) (AG.populacao (self s)) pop' /\
    avaliar_populacao s' = (Ok tt, s').
Proof.
  exists (avaliada (self s) (AG.populacao (self s))). cbv zeta.
  split; [apply avaliar_populacao_total|]. split.
  - split; [apply length_fmap|]. intros i c Hc.
    exists (Cromossomo.com_fitness c (fitness_de (self s) c)). split.
    + unfold avaliada. by rewrite list_lookup_fmap, Hc.
    + split; [done|]. apply calcular_fitness_total.
  - rewrite avaliar_populacao_total. cbn [self fonte AG.populacao AG.com_populacao].
    by rewrite avaliada_avaliada by apply mesma_config_populacao.
Qed.

(** ** A tournament among the whole population *)

Lemma amostrar_todos {A} (k : nat) :
  forall (urna : list A) (r : Fonte),
    length urna = k ->
    devolve (amostrar k urna) r (fun xs _ => xs ≡ₚ urna).
Proof.
  induction k as [|k IH]; intros urna r Hk; simpl.
  - apply devolve_ret. by destruct urna.
  - eapply devolve_bind; [apply sortear_devolve|].
    intros j s' _. simpl.
    assert (Hlt : N.to_nat (j mod N.of_nat (length urna)) < length urna).
    { assert (N.of_nat (length urna) <> 0%N) by lia.
      pose proof (N.mod_lt j (N.of_nat (length urna)) H). lia. }
    destruct (py_index_lt urna _ Hlt) as (x & Hx & E).
    eapply devolve_bind;
      [eapply (devolve_de_res _ _ _ (fun a _ => a = x)); [exact E|done]|].
    intros x' s1 ->.
    eapply devolve_bind.
    + apply IH. rewrite length_delete by eauto. lia.
    + intros xs s2 Hxs. cbv beta in Hxs. apply devolve_ret.
      rewrite Hxs. symmetry. by apply delete_Permutation.
Qed.

Lemma posicao_de_membro (pop : list Cromossomo.t) (c : Cromossomo.t) :
  c ∈ pop -> exists i, (i, c) ∈ imap (fun i c => (i, c)) pop.
Proof.
  intros H. apply list_elem_of_lookup in H as [i Hi]. exists i.
  apply list_elem_of_lookup. exists i. by rewrite list_lookup_imap, Hi.
Qed.

Lemma selecao_torneio_melhor (tamanho_torneio : nat)
    (taxa_nao_melhor : Q) (self : AG.t) (r : Fonte) :
  (taxa_nao_melhor <= 0)%Q ->
  length (AG.populacao self) <= tamanho_torneio ->
  AG.populacao self <> [] ->
  devolve (selecao_torneio tamanho_torneio taxa_nao_melhor self) r
    (fun o _ => exists p,
       o = Some p /\ pai_da_populacao self p /\
       forall c, c ∈ AG.populacao self ->
         (Cromossomo.fitness c <= Cromossomo.fitness p.2)%Q).
Proof.
  intros Ht Hlen Hne. unfold selecao_torneio.
  set (pop := imap (fun i c => (i, c)) (AG.populacao self)).
  assert (Lpop : length pop = length (AG.populacao self))
    by apply length_imap.
  destruct (decide (length pop < 2)) as [Hlt|Hge].
  { apply devolve_ret.
    destruct (AG.populacao self) as [|c [|c' l]] eqn:E; [done| |simpl in *; lia].
    exists (0, c). split; [done|]. split; [unfold pai_da_populacao; by rewrite E|].
    intros x Hx. apply list_elem_of_singleton in Hx as ->. apply Qle_refl. }
  replace (tamanho_torneio `min` length pop) with (length pop) by lia.
  eapply devolve_bind.
  { unfold random_sample.
    destruct (decide (length pop < length pop)); [lia|].
    by apply amostrar_todos. }
  intros comp s1 Hperm. cbv beta in Hperm.
  eapply devolve_bind; [apply random_random_devolve|]. intros q s2 [Hq _].
  assert (Eq : Qltb q taxa_nao_melhor = false)
    by (apply Qltb_ge; by eapply Qle_trans).
  rewrite Eq. cbn [andb].
  assert (Hcomp : comp <> []).
  { intros E. rewrite E in Hperm. apply Permutation_length in Hperm.
    simpl in Hperm. lia. }
  destruct (py_sort_desc_cabeca (fun x : Pai => Cromossomo.fitness x.2)
              comp Hcomp) as (p & resto & Eord & Hmax).
  rewrite Eord.
  eapply devolve_bind;
    [exact (devolve_de_res _ p _ (fun a _ => a = p) eq_refl eq_refl)|].
  intros ? s3 ->. apply devolve_ret.
  assert (Hp : p ∈ pop).
  { rewrite <- Hperm.
    apply (elem_of_py_sort_desc (fun x : Pai => Cromossomo.fitness x.2)).
    rewrite Eord. apply list_elem_of_here. }
  exists p. split; [done|]. split; [by apply elem_of_posicoes|].
  intros c Hc. destruct (posicao_de_membro _ c Hc) as [i Hi].
  apply (Hmax (i, c)). by rewrite Hperm.
Qed.

(** X16.  When the tournament is at least as large as the (non-empty)
    population and the chance of passing over the winner is zero,
    [selecao_torneio] returns a candidate of the population whose stored
    fitness is at least that of every other candidate. *)
Theorem selecao_torneio_devolve_o_melhor (tamanho_torneio : nat)
    (taxa_nao_melhor : Q) (self : AG.t) (r : Fonte) :
  (taxa_nao_melhor <= 0)%Q ->
  length (AG.populacao self) <= tamanho_torneio ->
  AG.populacao self <> [] ->
  devolve (selecao_torneio tamanho_torneio taxa_nao_melhor self) r
    (fun o _ => exists p,
       o = Some p /\ pai_da_populacao self p /\
       forall c, c ∈ AG.populacao self ->
         (Cromossomo.fitness c <= Cromossomo.fitness p.2)%Q).
Proof. apply selecao_torneio_melhor. Qed.

Lemma selecao_torneio_devolve_o_melhor_witness :
  devolve (selecao_torneio 3 0 ag_com_pais) fonte_zero
    (fun o _ => exists p,
       o = Some p /\ pai_da_populacao ag_com_pais p /\
       forall c, c ∈ AG.populacao ag_com_pais ->
         (Cromossomo.fitness c <= Cromossomo.fitness p.2)%Q).
Proof.
  apply (selecao_torneio_devolve_o_melhor 3 0 ag_com_pais fonte_zero).
  - apply Qle_refl.
  - simpl. lia.
  - discriminate.
Defined.

(** ** Elitism *)

Section Ordenacao.
Context {A : Type}.
Variable chave : A -> Q.

Lemma inserir_desc_perm (x : A) (l : list A) :
  inserir_desc chave x l ≡ₚ x :: l.
Proof.
  induction l as [|y l IH]; simpl; [done|].
  destruct (Qltb (chave x) (chave y)); [|done].
  rewrite IH. apply Permutation_swap.
Qed.

Lemma py_sort_desc_perm (l : list A) : py_sort_desc chave l ≡ₚ l.
Proof.
  induction l as [|x l IH]; [done|].
  unfold py_sort_desc in *. simpl. by rewrite inserir_desc_perm, IH.
Qed.
End Ordenacao.

Lemma decrescente_cons (x : Cromossomo.t) (l : list Cromossomo.t) :
  decrescente (x :: l) <->
  (forall y, y ∈ l -> (Cromossomo.fitness y <= Cromossomo.fitness x)%Q) /\
  decrescente l.
Proof.
  split.
  - intros H. split.
    + intros y Hy. apply list_elem_of_lookup in Hy as [j Hj].
      apply (H 0 (S j) x y); (lia || done).
    + intros i j a b Hij Ha Hb. apply (H (S i) (S j) a b); (lia || done).
  - intros [Hx Hl] i j a b Hij Ha Hb.
    destruct j as [|j]; [lia|]. simpl in Hb.
    destruct i as [|i].
    + injection Ha as <-. apply Hx. by eapply list_elem_of_lookup_2.
    + simpl in Ha. apply (Hl i j a b); (lia || done).
Qed.

Lemma decrescente_inserir (x : Cromossomo.t) (l : list Cromossomo.t) :
  decrescente l -> decrescente (inserir_desc Cromossomo.fitness x l).
Proof.
  induction l as [|y l IH]; intros Hl; simpl.
  { apply decrescente_cons. split; [|done].
    intros z Hz. by apply elem_of_nil in Hz. }
  apply decrescente_cons in Hl as [Hy Hl].
  destruct (Qltb (Cromossomo.fitness x) (Cromossomo.fitness y)) eqn:E.
  - apply Qltb_lt in E. apply decrescente_cons. split; [|by apply IH].
    intros z Hz. apply elem_of_inserir_desc in Hz as [->|Hz];
      [by apply Qlt_le_weak|by apply Hy].
  - apply Qltb_ge in E. apply decrescente_cons. split.
    + intros z Hz. apply elem_of_cons in Hz as [->|Hz]; [done|].
      eapply Qle_trans; [by apply Hy|done].
    + apply decrescente_cons. by split.
Qed.

Lemma py_sort_desc_decrescente (l : list Cromossomo.t) :
  decrescente (py_sort_desc Cromossomo.fitness l).
Proof.
  induction l as [|x l IH].
  - intros i j x y _ Hx. unfold py_sort_desc in Hx. simpl in Hx.
    by rewrite lookup_nil in Hx.
  - unfold py_sort_desc in *. simpl. by apply decrescente_inserir.
Qed.

Lemma evoluir_geracao_elite (tipo : string) (mut : bool) (s s' : Motor) :
  (0 <= elite_size (self s))%Z ->
  evoluir_geracao tipo mut s = (Ok tt, s') ->
  exists ord,
    ord ≡ₚ AG.populacao (self s) /\ decrescente ord /\
    elite_mantida (Z.to_nat (elite_size (self s)))
                  (AG.tamanho_populacao (self s)) ord
                  (AG.populacao (self s')).
Proof.
  intros He H. apply evoluir_geracao_inv in H as (filhos & ->).
  exists (py_sort_desc Cromossomo.fitness (AG.populacao (self s))).
  split; [apply py_sort_desc_perm|]. split; [apply py_sort_desc_decrescente|].
  intros i c Hi Ht Hc. cbn [AG.populacao AG.com_populacao].
  rewrite lookup_take_lt by done.
  unfold py_slice_to. destruct (decide (0 <= elite_size (self s))%Z); [|lia].
  apply lookup_app_l_Some. by rewrite lookup_take_lt.
Qed.

(** X17.  With a non-negative elite rate, whenever [evoluir_geracao]
    returns, the new population starts with the elite of the old one: for a
    ranking of the old population by stored fitness, best first, the
    candidates of the first [int(taxa_elite * tamanho_populacao)] ranks
    stand unchanged at the same ranks of the new population (as far as
    [tamanho_populacao] allows). *)
Theorem evoluir_geracao_mantem_elite (tipo : string) (mut : bool)
    (s s' : Motor) :
  (0 <= elite_size (self s))%Z ->
  evoluir_geracao tipo mut s = (Ok tt, s') ->
  exists ord,
    ord ≡ₚ AG.populacao (self s) /\ decrescente ord /\
    elite_mantida (Z.to_nat (elite_size (self s)))
                  (AG.tamanho_populacao (self s)) ord
                  (AG.populacao (self s')).
Proof. apply evoluir_geracao_elite. Qed.

Lemma evoluir_geracao_mantem_elite_witness :
  exists s',
    evoluir_geracao "uniforme" false motor_elite_pais = (Ok tt, s') /\
    exists ord,
      ord ≡ₚ AG.populacao (self motor_elite_pais) /\ decrescente ord /\
      elite_mantida (Z.to_nat (elite_size (self motor_elite_pais)))
                    (AG.tamanho_populacao (self motor_elite_pais)) ord
                    (AG.populacao (self s')).
Proof.
  eexists. split; [vm_compute; reflexivity|].
  eapply (evoluir_geracao_mantem_elite "uniforme" false motor_elite_pais);
    [vm_compute; discriminate|vm_compute; reflexivity].
Defined.

(** ** The repairs of the schedule-aware mutation *)

Lemma py_list_index_primeira (l : list Z) (x : Z) :
  x ∈ l -> exists i, py_list_index l x = Ok i /\ primeira_posicao l x i.
Proof.
  induction l as [|y l IH]; intros Hx; [by apply elem_of_nil in Hx|].
  simpl. destruct (decide (y = x)) as [->|Hne].
  { exists 0. split; [done|]. split; [done|]. intros j Hj. lia. }
  apply elem_of_cons in Hx as [->|Hx]; [done|].
  destruct (IH Hx) as (i & -> & Hi & Hantes). exists (S i).
  split; [done|]. split; [done|].
  intros [|j] Hj; simpl; [congruence|]. apply Hantes. lia.
Qed.

Lemma mais_de_uma_hora (mx mn : Z) :
  Qltb 1 (inject_Z (mx - mn) / 3600) = true -> (3600 < mx - mn)%Z.
Proof.
  intros H. apply Qltb_lt in H.
  unfold Qlt, Qdiv, Qmult, Qinv, inject_Z in H. simpl in H. lia.
Qed.

Section Direcao.
Variables (self : AG.t) (c : Cromossomo.t).

Lemma reparar_ida_direcao (r : Fonte) :
  length (Cromossomo.voos_ida c) <= length (AG.pessoas self) ->
  devolve (reparar_ida self c c) r
    (fun c2 _ =>
       Cromossomo.voos_volta c2 = Cromossomo.voos_volta c /\
       Cromossomo.fitness c2 = Cromossomo.fitness c /\
       (Cromossomo.voos_ida c2 = Cromossomo.voos_ida c \/ reparo_ida self c c2)).
Proof.
  intros Hida. unfold reparar_ida.
  set (h := Voo.horario_chegada <$> Cromossomo.voos_ida c).
  assert (Lh : length h = length (Cromossomo.voos_ida c))
    by apply length_fmap.
  destruct (decide (1 < length h)) as [Hlen|_]; [|apply devolve_ret; auto].
  assert (Hne : h <> []) by (intros E; rewrite E in Hlen; simpl in Hlen; lia).
  destruct (py_min_spec h Hne) as (mn & Emn & Hmn & _).
  destruct (py_max_spec h Hne) as (mx & Emx & Hmx).
  eapply devolve_bind;
    [exact (devolve_de_res _ mn _ (fun a _ => a = mn) Emn eq_refl)|].
  intros ? s0 ->.
  eapply devolve_bind;
    [exact (devolve_de_res _ mx _ (fun a _ => a = mx) Emx eq_refl)|].
  intros ? s1 ->.
  destruct (Qltb 1 _) eqn:Egap; [|apply devolve_ret; auto].
  apply mais_de_uma_hora in Egap.
  destruct (py_list_index_primeira h mx (proj1 Hmx)) as (idx & Eidx & Hidx).
  pose proof (lookup_lt_Some _ _ _ (proj1 Hidx)) as Hlt.
  eapply devolve_bind;
    [exact (devolve_de_res _ idx _ (fun a _ => a = idx) Eidx eq_refl)|].
  intros ? s2 ->.
  destruct (py_index_lt (AG.pessoas self) idx) as (p & Hp & Ep); [lia|].
  eapply devolve_bind;
    [exact (devolve_de_res _ p _ (fun a _ => a = p) Ep eq_refl)|].
  intros ? s3 ->.
  destruct (vazia _) eqn:Ev; [apply devolve_ret; auto|].
  apply vazia_false in Ev.
  eapply devolve_bind; [apply random_random_devolve|]. intros q s4 _.
  destruct (Qltb q sessenta_por_cento); [|apply devolve_ret; auto].
  eapply devolve_bind; [by apply random_choice_devolve|].
  intros v s5 Hv. cbv beta in Hv.
  apply list_elem_of_filter in Hv as [Hcedo Hv].
  rewrite py_set_Ok by lia.
  eapply devolve_bind;
    [exact (devolve_de_res _ _ _ (fun a _ => a = _) eq_refl eq_refl)|].
  intros ? s6 ->. apply devolve_ret.
  split; [done|]. split; [done|]. right.
  exists idx, v, mx, p. repeat split; try done.
  - apply Hmx.
  - apply Hmx.
  - exists mn, mx. split; [done|]. split; [apply Hmx|done].
  - apply Hidx.
  - apply Hidx.
Qed.

Lemma reparar_volta_direcao (c1 : Cromossomo.t) (r : Fonte) :
  length (Cromossomo.voos_volta c) <= length (AG.pessoas self) ->
  Cromossomo.voos_volta c1 = Cromossomo.voos_volta c ->
  devolve (reparar_volta self c c1) r
    (fun c2 _ =>
       Cromossomo.voos_ida c2 = Cromossomo.voos_ida c1 /\
       Cromossomo.fitness c2 = Cromossomo.fitness c1 /\
       (Cromossomo.voos_volta c2 = Cromossomo.voos_volta c \/
        reparo_volta self c c2)).
Proof.
  intros Hvolta E1. unfold reparar_volta.
  set (h := Voo.horario_saida <$> Cromossomo.voos_volta c).
  assert (Lh : length h = length (Cromossomo.voos_volta c))
    by apply length_fmap.
  destruct (decide (1 < length h)) as [Hlen|_]; [|apply devolve_ret; auto].
  assert (Hne : h <> []) by (intros E; rewrite E in Hlen; simpl in Hlen; lia).
  destruct (py_min_spec h Hne) as (mn & Emn & Hmn).
  destruct (py_max_spec h Hne) as (mx & Emx & Hmx & _).
  eapply devolve_bind;
    [exact (devolve_de_res _ mn _ (fun a _ => a = mn) Emn eq_refl)|].
  intros ? s0 ->.
  eapply devolve_bind;
    [exact (devolve_de_res _ mx _ (fun a _ => a = mx) Emx eq_refl)|].
  intros ? s1 ->.
  destruct (Qltb 1 _) eqn:Egap; [|apply devolve_ret; auto].
  apply mais_de_uma_hora in Egap.
  destruct (py_list_index_primeira h mn (proj1 Hmn)) as (idx & Eidx & Hidx).
  pose proof (lookup_lt_Some _ _ _ (proj1 Hidx)) as Hlt.
  eapply devolve_bind;
    [exact (devolve_de_res _ idx _ (fun a _ => a = idx) Eidx eq_refl)|].
  intros ? s2 ->.
  destruct (py_index_lt (AG.pessoas self) idx) as (p & Hp & Ep); [lia|].
  eapply devolve_bind;
    [exact (devolve_de_res _ p _ (fun a _ => a = p) Ep eq_refl)|].
  intros ? s3 ->.
  destruct (vazia _) eqn:Ev; [apply devolve_ret; auto|].
  apply vazia_false in Ev.
  eapply devolve_bind; [apply random_random_devolve|]. intros q s4 _.
  destruct (Qltb q sessenta_por_cento); [|apply devolve_ret; auto].
  eapply devolve_bind; [by apply random_choice_devolve|].
  intros v s5 Hv. cbv beta in Hv.
  apply list_elem_of_filter in Hv as [Htarde Hv].
  rewrite py_set_Ok by (rewrite E1; lia).
  eapply devolve_bind;
    [exact (devolve_de_res _ _ _ (fun a _ => a = _) eq_refl eq_refl)|].
  intros ? s6 ->. apply devolve_ret.
  split; [done|]. split; [done|]. right.
  exists idx, v, mn, p. repeat split; try done.
  - apply Hmn.
  - apply Hmn.
  - exists mn, mx. split; [apply Hmn|]. split; [done|done].
  - apply Hidx.
  - apply Hidx.
  - simpl. by rewrite E1.
Qed.

Lemma mutacao_inteligente_reparos (r : Fonte) :
  (AG.taxa_mutacao self <= 0)%Q ->
  length (Cromossomo.voos_ida c) <= length (AG.pessoas self) ->
  length (Cromossomo.voos_volta c) <= length (AG.pessoas self) ->
  devolve (mutacao_inteligente self c) r (fun c' _ => reparado self c c').
Proof.
  intros Ht Hida Hvolta. unfold mutacao_inteligente.
  destruct (vazia (AG.pessoas self)).
  { apply devolve_ret. split; [by left|]. split; [by left|done]. }
  eapply devolve_bind; [by apply reparar_ida_direcao|].
  intros c1 s1 (Hv1 & Hf1 & Hi1). cbv beta in *.
  eapply devolve_bind; [by apply reparar_volta_direcao|].
  intros c2 s2 (Hi2 & Hf2 & Hv2). cbv beta in *.
  assert (Lc2 : length (Cromossomo.voos_ida c2)
                = length (Cromossomo.voos_ida c)).
  { rewrite Hi2. destruct Hi1 as [->|(idx & v & ult & p & H)]; [done|].
    destruct H as (_ & _ & _ & _ & _ & _ & ->). apply length_insert. }
  eapply devolve_mono.
  - apply passe_aleatorio_taxa_zero; [|lia].
    apply Qle_trans with (0 * (2 # 10))%Q; [|unfold Qle; simpl; lia].
    apply Qmult_le_compat_r; [done|]. unfold Qle; simpl; lia.
  - intros c' _ ->. split; [|split].
    + rewrite Hi2. destruct Hi1 as [Hi1|Hi1]; [by left|right].
      destruct Hi1 as (idx & v & ult & p & H). exists idx, v, ult, p.
      by rewrite Hi2.
    + done.
    + congruence.
Qed.
End Direcao.

(** X18.  With a mutation rate of zero (or below) and gene lists no longer
    than the agent list, [mutacao_inteligente] returns the input with at
    most two genes replaced.  An outbound gene is replaced only when the
    arrivals are more than one hour apart, at the first agent with the
    latest arrival, by an option of that agent arriving strictly earlier; a
    return gene only when the departures are more than one hour apart, at
    the first agent with the earliest departure, by an option of that agent
    departing strictly later.  The stored fitness is kept. *)
Theorem mutacao_inteligente_so_repara (self : AG.t) (c : Cromossomo.t)
    (r : Fonte) :
  (AG.taxa_mutacao self <= 0)%Q ->
  length (Cromossomo.voos_ida c) <= length (AG.pessoas self) ->
  length (Cromossomo.voos_volta c) <= length (AG.pessoas self) ->
  devolve (mutacao_inteligente self c) r (fun c' _ => reparado self c c').
Proof. apply mutacao_inteligente_reparos. Qed.

Lemma mutacao_inteligente_so_repara_witness :
  devolve (mutacao_inteligente (ag_exemplo 0) candidato_espalhado) fonte_zero
    (fun c' _ => reparado (ag_exemplo 0) candidato_espalhado c').
Proof.
  apply (mutacao_inteligente_so_repara (ag_exemplo 0) candidato_espalhado
           fonte_zero).
  - apply Qle_refl.
  - simpl. lia.
  - simpl. lia.
Defined.

(** ** Mutation of a candidate with more genes than agents *)

Lemma ok_ou_bind {St A B} (m : Comp St A) (k : A -> Comp St B) (s : St)
    (P : A -> Prop) (Q : B -> Prop) :
  ok_ou_indice P (m s) ->
  (forall a s', P a -> ok_ou_indice Q (k a s')) ->
  ok_ou_indice Q (bind m k s).
Proof.
  unfold ok_ou_indice, bind. intros Hm Hk.
  destruct (m s) as [[a|e|] s']; simpl in *; [by apply Hk|done|done].
Qed.

Lemma ok_ou_devolve {St A} (m : Comp St A) (s : St) (P' : A -> St -> Prop)
    (P : A -> Prop) :
  devolve m s P' -> (forall a s', P' a s' -> P a) -> ok_ou_indice P (m s).
Proof.
  intros (a & s' & E & H) HP. unfold ok_ou_indice. rewrite E. simpl. eauto.
Qed.

Lemma ok_ou_ret {St A} (a : A) (s : St) (P : A -> Prop) :
  P a -> ok_ou_indice P (ret a s).
Proof. done. Qed.

Lemma ok_ou_py_index {St A} (l : list A) (i : nat) (s : St) :
  ok_ou_indice (fun x => l !! i = Some x) (de_res (py_index l i) s).
Proof.
  unfold ok_ou_indice, de_res, py_index. simpl. by destruct (l !! i).
Qed.

Lemma ok_ou_py_set {St A} (l : list A) (i : nat) (x : A) (s : St) :
  ok_ou_indice (fun l' => length l' = length l) (de_res (py_set l i x) s).
Proof.
  unfold ok_ou_indice, de_res, py_set. simpl.
  destruct (decide (i < length l)); [apply length_insert|done].
Qed.

Lemma passo_aleatorio_ok_ou (self : AG.t) (taxa : Q) (i : nat)
    (c1 : Cromossomo.t) (r : Fonte) :
  ok_ou_indice
    (fun c2 => length (Cromossomo.voos_ida c2) = length (Cromossomo.voos_ida c1))
    (passo_aleatorio self taxa i c1 r).
Proof.
  unfold passo_aleatorio.
  eapply ok_ou_bind; [apply ok_ou_py_index|]. intros p s0 _.
  eapply ok_ou_bind;
    [eapply ok_ou_devolve; [apply random_random_devolve|];
     intros a s' _; exact I|].
  intros q1 s1 _.
  eapply (ok_ou_bind _ _ _
            (fun c2 => length (Cromossomo.voos_ida c2)
                       = length (Cromossomo.voos_ida c1))).
  { destruct (Qltb q1 taxa); [|by apply ok_ou_ret].
    destruct (vazia (Pessoa.voos_ida p)) eqn:Ev; [by apply ok_ou_ret|].
    apply vazia_false in Ev.
    eapply ok_ou_bind;
      [eapply ok_ou_devolve; [by apply random_choice_devolve|];
       intros a s' _; exact I|].
    intros v s2 _.
    eapply ok_ou_bind; [apply ok_ou_py_set|]. intros ida s3 Hl.
    by apply ok_ou_ret. }
  intros c2 s2 L2.
  eapply ok_ou_bind;
    [eapply ok_ou_devolve; [apply random_random_devolve|];
     intros a s' _; exact I|].
  intros q2 s3 _.
  destruct (Qltb q2 taxa); [|by apply ok_ou_ret].
  destruct (vazia (Pessoa.voos_volta p)) eqn:Ev; [by apply ok_ou_ret|].
  apply vazia_false in Ev.
  eapply ok_ou_bind;
    [eapply ok_ou_devolve; [by apply random_choice_devolve|];
     intros a s' _; exact I|].
  intros v s4 _.
  eapply ok_ou_bind; [apply ok_ou_py_set|]. intros volta s5 _.
  by apply ok_ou_ret.
Qed.

Lemma passo_aleatorio_sem_pessoa (self : AG.t) (taxa : Q) (i : nat)
    (c1 : Cromossomo.t) (r : Fonte) :
  length (AG.pessoas self) <= i ->
  passo_aleatorio self taxa i c1 r = (Levanta IndexError, r).
Proof.
  intros Hi. unfold passo_aleatorio, bind, de_res, py_index.
  by rewrite (proj2 (lookup_ge_None _ _) Hi).
Qed.

(** The random pass over [n] positions, [n] beyond the agent list *)
Lemma passe_aleatorio_levanta (self : AG.t) (taxa : Q) (n : nat) :
  length (AG.pessoas self) < n ->
  forall (k : nat) (c1 : Cromossomo.t) (r : Fonte),
    k <= length (AG.pessoas self) ->
    (para (seq k (n - k)) (passo_aleatorio self taxa) c1 r).1
    = Levanta IndexError.
Proof.
  intros Hn k.
  remember (length (AG.pessoas self) - k) as d eqn:Ed.
  revert k Ed. induction d as [|d IH]; intros k Ed c1 r Hk.
  - assert (k = length (AG.pessoas self)) as -> by lia.
    destruct (n - length (AG.pessoas self)) as [|m] eqn:Em; [lia|].
    simpl. unfold bind. by rewrite passo_aleatorio_sem_pessoa.
  - destruct (n - k) as [|m] eqn:Em; [lia|].
    simpl. unfold bind.
    pose proof (passo_aleatorio_ok_ou self taxa k c1 r) as Hp.
    unfold ok_ou_indice in Hp.
    destruct (passo_aleatorio self taxa k c1 r) as [[c2|e|] r1];
      simpl in *; [|by subst|done].
    replace m with (n - S k) by lia. apply IH; lia.
Qed.

Lemma ok_ou_de_res {St A} (res : Res A) (a : A) (s : St) (P : A -> Prop) :
  res = Ok a -> P a -> ok_ou_indice P (de_res res s).
Proof. by intros ->. Qed.

Lemma reparar_ida_ok_ou (self : AG.t) (c : Cromossomo.t) (r : Fonte) :
  ok_ou_indice
    (fun c2 => length (Cromossomo.voos_ida c2) = length (Cromossomo.voos_ida c))
    (reparar_ida self c c r).
Proof.
  unfold reparar_ida.
  set (h := Voo.horario_chegada <$> Cromossomo.voos_ida c).
  assert (Lh : length h = length (Cromossomo.voos_ida c))
    by apply length_fmap.
  destruct (decide (1 < length h)) as [Hlen|_]; [|by apply ok_ou_ret].
  assert (Hne : h <> []) by (intros E; rewrite E in Hlen; simpl in Hlen; lia).
  destruct (py_min_spec h Hne) as (mn & Emn & _).
  destruct (py_max_spec h Hne) as (mx & Emx & Hmx & _).
  eapply ok_ou_bind; [exact (ok_ou_de_res _ mn _ (fun a => a = mn) Emn eq_refl)|].
  intros ? s0 ->.
  eapply ok_ou_bind; [exact (ok_ou_de_res _ mx _ (fun a => a = mx) Emx eq_refl)|].
  intros ? s1 ->.
  destruct (Qltb 1 _); [|by apply ok_ou_ret].
  destruct (py_list_index_spec h mx Hmx) as (idx & Eidx & Hidx).
  eapply ok_ou_bind;
    [exact (ok_ou_de_res _ idx _ (fun a => a = idx) Eidx eq_refl)|].
  intros ? s2 ->.
  eapply ok_ou_bind; [apply ok_ou_py_index|]. intros p s3 _.
  destruct (vazia _) eqn:Ev; [by apply ok_ou_ret|].
  apply vazia_false in Ev.
  eapply ok_ou_bind;
    [eapply ok_ou_devolve; [apply random_random_devolve|];
     intros a s' _; exact I|].
  intros q s4 _.
  destruct (Qltb q sessenta_por_cento); [|by apply ok_ou_ret].
  eapply ok_ou_bind;
    [eapply ok_ou_devolve; [by apply random_choice_devolve|];
     intros a s' _; exact I|].
  intros v s5 _.
  eapply ok_ou_bind; [apply ok_ou_py_set|]. intros ida s6 Hl.
  by apply ok_ou_ret.
Qed.

Lemma reparar_volta_ok_ou (self : AG.t) (c c1 : Cromossomo.t) (r : Fonte) :
  ok_ou_indice
    (fun c2 => Cromossomo.voos_ida c2 = Cromossomo.voos_ida c1)
    (reparar_volta self c c1 r).
Proof.
  unfold reparar_volta.
  set (h := Voo.horario_saida <$> Cromossomo.voos_volta c).
  destruct (decide (1 < length h)) as [Hlen|_]; [|by apply ok_ou_ret].
  assert (Hne : h <> []) by (intros E; rewrite E in Hlen; simpl in Hlen; lia).
  destruct (py_min_spec h Hne) as (mn & Emn & Hmn & _).
  destruct (py_max_spec h Hne) as (mx & Emx & _).
  eapply ok_ou_bind; [exact (ok_ou_de_res _ mn _ (fun a => a = mn) Emn eq_refl)|].
  intros ? s0 ->.
  eapply ok_ou_bind; [exact (ok_ou_de_res _ mx _ (fun a => a = mx) Emx eq_refl)|].
  intros ? s1 ->.
  destruct (Qltb 1 _); [|by apply ok_ou_ret].
  destruct (py_list_index_spec h mn Hmn) as (idx & Eidx & Hidx).
  eapply ok_ou_bind;
    [exact (ok_ou_de_res _ idx _ (fun a => a = idx) Eidx eq_refl)|].
  intros ? s2 ->.
  eapply ok_ou_bind; [apply ok_ou_py_index|]. intros p s3 _.
  destruct (vazia _) eqn:Ev; [by apply ok_ou_ret|].
  apply vazia_false in Ev.
  eapply ok_ou_bind;
    [eapply ok_ou_devolve; [apply random_random_devolve|];
     intros a s' _; exact I|].
  intros q s4 _.
  destruct (Qltb q sessenta_por_cento); [|by apply ok_ou_ret].
  eapply ok_ou_bind;
    [eapply ok_ou_devolve; [by apply random_choice_devolve|];
     intros a s' _; exact I|].
  intros v s5 _.
  eapply ok_ou_bind; [apply ok_ou_py_set|]. intros volta s6 _.
  by apply ok_ou_ret.
Qed.

Lemma mutacao_inteligente_levanta (self : AG.t) (c : Cromossomo.t)
    (r : Fonte) :
  length (AG.pessoas self) < length (Cromossomo.voos_ida c) ->
  AG.pessoas self <> [] ->
  (mutacao_inteligente self c r).1 = Levanta IndexError.
Proof.
  intros Hlen Hne. unfold mutacao_inteligente.
  apply vazia_false in Hne. rewrite Hne.
  assert (H : ok_ou_indice (fun _ : Cromossomo.t => False)
    (bind (reparar_ida self c c) (fun novo1 =>
       bind (reparar_volta self c novo1) (fun novo2 =>
         para (seq 0 (length (Cromossomo.voos_ida novo2)))
              (passo_aleatorio self (AG.taxa_mutacao self * (2 # 10))%Q)
              novo2)) r)).
  { eapply ok_ou_bind; [apply reparar_ida_ok_ou|]. intros c1 s1 L1.
    eapply ok_ou_bind; [apply reparar_volta_ok_ou|]. intros c2 s2 L2.
    cbv beta in *. unfold ok_ou_indice.
    pose proof (passe_aleatorio_levanta self
                  (AG.taxa_mutacao self * (2 # 10))%Q
                  (length (Cromossomo.voos_ida c2))) as Hp.
    rewrite L2, L1 in Hp. specialize (Hp Hlen 0 c2 s2).
    rewrite Nat.sub_0_r in Hp. rewrite L2, L1, Hp by lia. done. }
  unfold ok_ou_indice in H.
  destruct (bind _ _ r) as [[a|e|] r']; simpl in *; [done|by subst|done].
Qed.

(** X19.  On a candidate with more outbound genes than there are agents
    both mutators raise [IndexError], whatever the mutation rate and the
    random source; except that [mutacao_inteligente] with no agent at all
    returns the candidate as it is, without drawing. *)
Theorem mutacoes_com_genes_a_mais (self : AG.t) (c : Cromossomo.t)
    (r : Fonte) :
  length (AG.pessoas self) < length (Cromossomo.voos_ida c) ->
  (mutacao_tradicional self c r).1 = Levanta IndexError /\
  (AG.pessoas self <> [] ->
   (mutacao_inteligente self c r).1 = Levanta IndexError) /\
  (AG.pessoas self = [] -> mutacao_inteligente self c r = (Ok c, r)).
Proof.
  intros Hlen. split; [|split].
  - unfold mutacao_tradicional.
    pose proof (passe_aleatorio_levanta self (AG.taxa_mutacao self)
                  (length (Cromossomo.voos_ida c)) Hlen 0 c r) as H.
    rewrite Nat.sub_0_r in H. apply H. lia.
  - by apply mutacao_inteligente_levanta.
  - intros E. unfold mutacao_inteligente. by rewrite E.
Qed.

Lemma mutacoes_com_genes_a_mais_witness :
  (mutacao_tradicional (ag_exemplo (1 # 10)) candidato_longo fonte_zero).1
  = Levanta IndexError /\
  (AG.pessoas (ag_exemplo (1 # 10)) <> [] ->
   (mutacao_inteligente (ag_exemplo (1 # 10)) candidato_longo fonte_zero).1
   = Levanta IndexError) /\
  (AG.pessoas (ag_exemplo (1 # 10)) = [] ->
   mutacao_inteligente (ag_exemplo (1 # 10)) candidato_longo fonte_zero
   = (Ok candidato_longo, fonte_zero)).
Proof.
  apply (mutacoes_com_genes_a_mais (ag_exemplo (1 # 10)) candidato_longo
           fonte_zero).
  simpl. lia.
Defined.

(** ** The loader *)

Lemma datetime_replace_Ok (h m t : Z) :
  datetime_replace h m = Ok t -> (0 <= t < um_dia)%Z.
Proof.
  unfold datetime_replace, um_dia.
  destruct (decide (0 <= h <= 23)%Z); [|done].
  destruct (decide (0 <= m <= 59)%Z); [|done].
  intros [= <-]. lia.
Qed.

Lemma construir_voo_bem_formado (l : Linha) (v : Voo.t) :
  construir_voo l = Some v -> voo_bem_formado v.
Proof.
  destruct l as [|o d hs ms hc mc p]; [done|]. simpl.
  destruct (datetime_replace hs ms) as [ts| |] eqn:Es; try done.
  destruct (datetime_replace hc mc) as [tc| |] eqn:Ec; try done.
  apply datetime_replace_Ok in Es, Ec. intros [= <-].
  unfold voo_bem_formado, um_dia in *. simpl.
  destruct (decide (tc <= ts)%Z); lia.
Qed.

Lemma obter_setdefault (d : Agrupados) (k k' : string) :
  obter (setdefault d k) k'
  = match obter d k' with
    | Some g => Some g
    | None => if String.eqb k k' then Some {| g_ida := []; g_volta := [] |}
              else None
    end.
Proof.
  induction d as [|[k0 g0] d IH]; simpl; [done|].
  destruct (String.eqb_spec k0 k) as [->|Hne]; simpl.
  - destruct (String.eqb_spec k k'); [done|].
    destruct (obter d k'); [done|]. done.
  - destruct (String.eqb_spec k0 k'); [done|]. apply IH.
Qed.

Lemma obter_None (d : Agrupados) (k : string) :
  obter d k = None <-> k ∉ d.*1.
Proof.
  induction d as [|[k0 g0] d IH]; simpl.
  - split; [intros _ H; by apply elem_of_nil in H|done].
  - destruct (String.eqb_spec k0 k) as [->|Hne].
    + split; [done|]. intros H. exfalso. apply H, list_elem_of_here.
    + rewrite IH, not_elem_of_cons. split; [by intros H|by intros [_ H]].
Qed.

Lemma chaves_setdefault (d : Agrupados) (k : string) :
  NoDup d.*1 -> NoDup (setdefault d k).*1.
Proof.
  induction d as [|[k0 g0] d IH]; simpl; intros Hnd.
  - apply NoDup_singleton.
  - destruct (String.eqb_spec k0 k) as [->|Hne]; [done|].
    simpl. apply NoDup_cons in Hnd as [Hfora Hnd].
    apply NoDup_cons. split; [|by apply IH].
    intros Hin. apply Hfora. apply obter_None in Hfora.
    pose proof (obter_setdefault d k k0) as E. rewrite Hfora in E.
    destruct (String.eqb_spec k k0); [by subst|].
    by apply obter_None in E.
Qed.

Lemma atualizar_Some (d : Agrupados) (k : string) (f : Grupo -> Grupo)
    (g : Grupo) :
  obter d k = Some g ->
  exists d', atualizar d k f = Some d' /\ d'.*1 = d.*1 /\
    forall k', obter d' k' = if String.eqb k k' then Some (f g)
                             else obter d k'.
Proof.
  induction d as [|[k0 g0] d IH]; simpl; [done|].
  destruct (String.eqb_spec k0 k) as [->|Hne].
  - intros [= ->]. eexists. split; [reflexivity|]. split; [done|].
    intros k'. simpl. by destruct (String.eqb_spec k k').
  - intros Hg. destruct (IH Hg) as (d' & -> & Hk & Hd').
    eexists. split; [reflexivity|]. split; [rewrite !fmap_cons; by rewrite Hk|].
    intros k'. simpl. rewrite Hd'.
    destruct (String.eqb_spec k0 k') as [->|]; [|done].
    by destruct (String.eqb_spec k k').
Qed.

Lemma citada_snoc (k : string) (vs : list Voo.t) (v : Voo.t) :
  citada k (vs ++ [v])
  = citada k vs || (String.eqb (Voo.origem v) k || String.eqb (Voo.destino v) k).
Proof.
  unfold citada. rewrite existsb_app. simpl. by rewrite orb_false_r.
Qed.

Lemma nao_citada (destino k : string) (vs : list Voo.t) :
  citada k vs = false ->
  idas_de destino k vs = [] /\ voltas_de destino k vs = [].
Proof.
  induction vs as [|v vs IH]; [done|].
  unfold citada. simpl. intros H.
  apply orb_false_iff in H as [H1 H2]. apply orb_false_iff in H1 as [Ho Hd].
  destruct (IH H2) as [Ei Ev].
  unfold idas_de, voltas_de, e_ida, e_volta in *. simpl.
  rewrite Ho, Hd, !andb_false_r. done.
Qed.

Lemma grupo_de_snoc (destino k : string) (vs : list Voo.t) (v : Voo.t) :
  grupo_de destino k (vs ++ [v])
  = {| g_ida := idas_de destino k vs
                ++ (if e_ida destino k v then [v] else []);
       g_volta := voltas_de destino k vs
                  ++ (if e_volta destino k v then [v] else []) |}.
Proof.
  unfold grupo_de, idas_de, voltas_de. rewrite !List.filter_app. simpl.
  by destruct (e_ida destino k v), (e_volta destino k v).
Qed.

Lemma processar_linha_agrupa (self : AG.t) (d : Agrupados)
    (vs : list Voo.t) (l : Linha) (v : Voo.t) :
  agrupado (AG.destino self) vs d ->
  construir_voo l = Some v ->
  exists d', processar_linha self d l = Some d' /\
             agrupado (AG.destino self) (vs ++ [v]) d'.
Proof.
  intros [Hnd Hd] Ev. unfold processar_linha. rewrite Ev. cbv zeta.
  set (dest := AG.destino self) in *.
  set (d2 := setdefault (setdefault d (Voo.origem v)) (Voo.destino v)).
  assert (Hnd2 : NoDup d2.*1) by by do 2 apply chaves_setdefault.
  assert (Hd2 : forall k, obter d2 k
            = if citada k vs then Some (grupo_de dest k vs)
              else if String.eqb (Voo.origem v) k
                      || String.eqb (Voo.destino v) k
                   then Some {| g_ida := []; g_volta := [] |} else None).
  { intros k. unfold d2. rewrite !obter_setdefault, Hd.
    destruct (citada k vs); [done|].
    by destruct (String.eqb (Voo.origem v) k),
                (String.eqb (Voo.destino v) k). }
  assert (Hvazio : forall k, citada k vs = false ->
            grupo_de dest k vs = {| g_ida := []; g_volta := [] |}).
  { intros k Hk. destruct (nao_citada dest k vs Hk) as [E1 E2].
    unfold grupo_de. by rewrite E1, E2. }
  assert (Hg : forall k, grupo_de dest k vs
            = {| g_ida := idas_de dest k vs; g_volta := voltas_de dest k vs |})
    by done.
  destruct (String.eqb (Voo.destino v) dest) eqn:Edest.
  - destruct (atualizar_Some d2 (Voo.origem v) (anexar_ida v)
                (grupo_de dest (Voo.origem v) vs)) as (d' & -> & Hk & Hd').
    { rewrite Hd2, String.eqb_refl. simpl.
      destruct (citada (Voo.origem v) vs) eqn:Ec; [done|].
      by rewrite Hvazio. }
    eexists. split; [reflexivity|]. split; [by rewrite Hk|].
    intros k. rewrite Hd', Hd2, citada_snoc, grupo_de_snoc.
    unfold e_ida, e_volta, anexar_ida. rewrite Edest. simpl.
    rewrite app_nil_r.
    destruct (String.eqb_spec (Voo.origem v) k) as [Eo|No].
    + rewrite <- Eo. by rewrite orb_true_r.
    + simpl. rewrite app_nil_r.
      destruct (citada k vs) eqn:Ec; simpl; [done|].
      destruct (String.eqb (Voo.destino v) k); [|done].
      by destruct (nao_citada dest k vs Ec) as [-> ->].
  - destruct (String.eqb (Voo.origem v) dest) eqn:Eorig.
    + destruct (atualizar_Some d2 (Voo.destino v) (anexar_volta v)
                  (grupo_de dest (Voo.destino v) vs)) as (d' & -> & Hk & Hd').
      { rewrite Hd2, String.eqb_refl, orb_true_r.
        destruct (citada (Voo.destino v) vs) eqn:Ec; [done|].
        by rewrite Hvazio. }
      eexists. split; [reflexivity|]. split; [by rewrite Hk|].
      intros k. rewrite Hd', Hd2, citada_snoc, grupo_de_snoc.
      unfold e_ida, e_volta, anexar_volta. rewrite Edest, Eorig. simpl.
      rewrite app_nil_r.
      destruct (String.eqb_spec (Voo.destino v) k) as [Ed|Nd].
      * rewrite <- Ed. by rewrite !orb_true_r.
      * simpl. rewrite app_nil_r, orb_false_r.
        destruct (citada k vs) eqn:Ec; simpl; [done|].
        destruct (String.eqb (Voo.origem v) k); [|done].
        by destruct (nao_citada dest k vs Ec) as [-> ->].
    + eexists. split; [reflexivity|]. split; [done|].
      intros k. rewrite Hd2, citada_snoc, grupo_de_snoc.
      unfold e_ida, e_volta. rewrite Edest, Eorig. simpl. rewrite !app_nil_r.
      destruct (citada k vs) eqn:Ec; simpl; [done|].
      destruct (String.eqb (Voo.origem v) k || String.eqb (Voo.destino v) k);
        [|done].
      by destruct (nao_citada dest k vs Ec) as [-> ->].
Qed.

(** ** The generations a run executed and its histories *)

Lemma laco_geracoes_registros (tipo : string) (mut : bool) (n : nat) :
  forall h s h' s',
    laco_geracoes n tipo mut h s = (Ok h', s') ->
    exists regs,
      length regs <= n /\
      (1 <= n -> exists m, regs !! 0 = Some (s, m)) /\
      geracoes_encadeadas tipo mut regs /\
      h_fitness h' = h_fitness h ++ ((fun r => Cromossomo.fitness r.2) <$> regs) /\
      h_custo h' = h_custo h ++ ((fun r => custo_de r.2) <$> regs) /\
      estado_ao_sair tipo mut n s regs s'.
Proof.
  induction n as [|n IH]; intros h s h' s' H.
  { injection H as <- <-. exists []. simpl. rewrite !app_nil_r.
    split; [lia|]. split; [lia|]. split; [|done].
    split; intros k r; simpl; discriminate. }
  apply laco_geracoes_passo in H
    as (m & Emax & [(-> & -> & _)|(_ & _ & s3 & Eev & H)]).
  - exists [(s, m)]. split; [simpl; lia|]. split; [by exists m|].
    split; [|split; [done|split; [done|by left]]].
    split.
    + intros [|k] r Hr; [|simpl in Hr; discriminate].
      by injection Hr as <-.
    + intros [|k] r r' _ Hr'; simpl in Hr'; discriminate.
  - destruct (IH _ _ _ _ H) as (regs & Hlen & Hprim & [Hm Hev] & Ef & Ec & Hsai).
    exists ((s, m) :: regs).
    split; [simpl; lia|]. split; [by exists m|]. split; [split|].
    + intros [|k] r Hr; [by injection Hr as <-|]. by apply (Hm k).
    + intros [|k] r r' Hr Hr'.
      * injection Hr as <-. simpl in Hr'.
        destruct n as [|n]; [destruct regs; [done|simpl in Hlen; lia]|].
        destruct Hprim as [m' Hp]; [lia|].
        rewrite Hp in Hr'. by injection Hr' as <-.
      * by apply (Hev k).
    + split; [rewrite Ef; simpl; by rewrite <- app_assoc|].
      split; [rewrite Ec; simpl; by rewrite <- app_assoc|].
      unfold estado_ao_sair in *.
      destruct regs as [|r0 regs].
      * simpl in *. right. subst s'. split; [|done].
        destruct n as [|n]; [done|]. destruct Hprim as [m' Hp]; [lia|]. done.
      * change (last ((s, m) :: r0 :: regs)) with (last (r0 :: regs)).
        destruct (last (r0 :: regs)) as [r|] eqn:El;
          [|by apply last_None in El].
        destruct Hsai as [->|[L E]]; [by left|right].
        split; [simpl in *; lia|done].
Qed.

(** X20.  A run of [executar] that returns a solution went through the
    generations in order: seeding, then at most [max_geracoes] generations,
    each built by [evoluir_geracao] from the one before.  The two histories
    are complete: one entry per generation executed, the fitness of the
    fittest candidate of that generation's evaluated population and the
    total price of that same candidate.  After the loop the population is
    the last recorded generation (a stopping rule held) or one more
    generation built after the last of [max_geracoes]; it is evaluated once
    more and its fittest candidate is returned: the solution belongs to the
    final population, every candidate of which carries its freshly computed
    fitness, and none is fitter.  When the elite is not empty
    ([int(taxa_elite * tamanho_populacao) >= 1]) the fitness of the solution
    is at least every entry of the fitness history. *)
Theorem executar_devolve_melhor_final (n : nat) (tipo : string) (mut : bool)
    (s s' : Motor) (sol : Cromossomo.t) (h : Historicos) :
  executar n tipo mut s = (Ok (Some sol, h), s') ->
  (exists s1 regs s2,
     gerar_populacao_inicial s = (Ok tt, s1) /\
     length regs <= n /\
     (1 <= n -> exists m, regs !! 0 = Some (s1, m)) /\
     geracoes_encadeadas tipo mut regs /\
     historicos_completos regs h /\
     estado_ao_sair tipo mut n s1 regs s2 /\
     melhor_da_geracao s2 sol /\
     s' = {| self := AG.com_populacao (self s2)
                       (avaliada (self s2) (AG.populacao (self s2)));
             fonte := fonte s2 |}) /\
  sol ∈ AG.populacao (self s') /\
  (forall c, c ∈ AG.populacao (self s') ->
     calcular_fitness (self s') c = Ok (Cromossomo.fitness c) /\
     (Cromossomo.fitness c <= Cromossomo.fitness sol)%Q) /\
  ((1 <= elite_size (self s))%Z ->
   forall f, f ∈ h_fitness h -> (f <= Cromossomo.fitness sol)%Q).
Proof.
  intros H. pose proof H as H0.
  apply executar_inv in H as (s1 & s2 & Eg & El & Em & ->).
  split; [|split; [|split]].
  - destruct (laco_geracoes_registros _ _ _ _ _ _ _ El)
      as (regs & Hlen & Hprim & Hcad & Ef & Ec & Hsai).
    exists s1, regs, s2.
    split; [done|]. split; [done|]. split; [done|]. split; [done|].
    split; [by split|]. by split.
  - by apply py_max_por_spec in Em as [Hin _].
  - apply py_max_por_spec in Em as [_ Hmax].
    intros c Hc. cbn [self AG.populacao AG.com_populacao] in Hc.
    split; [|by apply Hmax].
    rewrite calcular_fitness_total. f_equal.
    apply elem_of_avaliada in Hc as [-> _].
    symmetry. apply fitness_de_config, mesma_config_populacao.
  - intros He. by eapply (executar_elite n tipo mut s).
Qed.

Lemma executar_devolve_melhor_final_witness :
  exists sol h s',
    executar 30 "uniforme" false motor_com_elite = (Ok (Some sol, h), s') /\
    (exists s1 regs s2,
       gerar_populacao_inicial motor_com_elite = (Ok tt, s1) /\
       length regs <= 30 /\
       (1 <= 30 -> exists m, regs !! 0 = Some (s1, m)) /\
       geracoes_encadeadas "uniforme" false regs /\
       historicos_completos regs h /\
       estado_ao_sair "uniforme" false 30 s1 regs s2 /\
       melhor_da_geracao s2 sol /\
       s' = {| self := AG.com_populacao (self s2)
                         (avaliada (self s2) (AG.populacao (self s2)));
               fonte := fonte s2 |}) /\
    sol ∈ AG.populacao (self s') /\
    (forall c, c ∈ AG.populacao (self s') ->
       calcular_fitness (self s') c = Ok (Cromossomo.fitness c) /\
       (Cromossomo.fitness c <= Cromossomo.fitness sol)%Q) /\
    ((1 <= elite_size (self motor_com_elite))%Z ->
     forall f, f ∈ h_fitness h -> (f <= Cromossomo.fitness sol)%Q).
Proof.
  eexists _, _, _. split; [vm_compute; reflexivity|].
  eapply (executar_devolve_melhor_final 30 "uniforme" false motor_com_elite).
  vm_compute. reflexivity.
Defined.

Lemma carregar_linhas_agrupa (self : AG.t) (arquivo : list Linha) :
  forall (d : Agrupados) (vs : list Voo.t),
    agrupado (AG.destino self) vs d ->
    exists d', carregar_linhas self d arquivo = Some d' /\
               agrupado (AG.destino self) (vs ++ voos_do_arquivo arquivo) d'.
Proof.
  induction arquivo as [|l ls IH]; intros d vs Hd; simpl.
  { exists d. by rewrite app_nil_r. }
  unfold voos_do_arquivo. simpl.
  destruct (construir_voo l) as [v|] eqn:Ev.
  - destruct (processar_linha_agrupa self d vs l v Hd Ev) as (d1 & -> & H1).
    destruct (IH d1 (vs ++ [v]) H1) as (d' & E & H').
    exists d'. split; [done|]. by rewrite <- app_assoc in H'.
  - unfold processar_linha. rewrite Ev. by apply IH.
Qed.

Lemma carregar_voos_arquivo_agrupa (self : AG.t) (arquivo : list Linha) :
  exists d,
    carregar_voos_arquivo self arquivo = Some d /\
    agrupado (AG.destino self) (voos_do_arquivo arquivo) d.
Proof.
  unfold carregar_voos_arquivo.
  destruct (carregar_linhas_agrupa self arquivo [] []) as (d & E & H).
  - split; [constructor|]. intros k. done.
  - by exists d.
Qed.

Lemma voos_do_arquivo_bem_formados (arquivo : list Linha) (v : Voo.t) :
  v ∈ voos_do_arquivo arquivo -> voo_bem_formado v.
Proof.
  intros H. apply list_elem_of_omap in H as (l & _ & Hl).
  by eapply construir_voo_bem_formado.
Qed.

(** X21.  Given the lines of an existing file, [carregar_voos_arquivo]
    never raises (no [KeyError] escapes).  Its dictionary has exactly one
    entry per city that is the origin or the destination of a flight of the
    file; the entry of a city lists, in file order, as ['ida'] the flights
    from that city to the meeting place and as ['volta'] the flights from
    the meeting place to that city (none for the meeting place itself); all
    other flights are dropped.  Every flight kept departs on the base day
    and lands strictly after it departs, at most one day later. *)
Theorem carregar_voos_arquivo_correto (self : AG.t) (arquivo : list Linha) :
  exists d,
    carregar_voos_arquivo self arquivo = Some d /\
    agrupado (AG.destino self) (voos_do_arquivo arquivo) d /\
    forall v, v ∈ voos_do_arquivo arquivo -> voo_bem_formado v.
Proof.
  destruct (carregar_voos_arquivo_agrupa self arquivo) as (d & E & H).
  exists d. split; [done|]. split; [done|].
  apply voos_do_arquivo_bem_formados.
Qed.

(** ** The agents built from the dictionary *)

Lemma obter_elem_of (d : Agrupados) (k : string) (g : Grupo) :
  NoDup d.*1 -> ((k, g) ∈ d <-> obter d k = Some g).
Proof.
  induction d as [|[k0 g0] d IH]; simpl; intros Hnd.
  { split; [intros H; by apply elem_of_nil in H|done]. }
  apply NoDup_cons in Hnd as [Hfora Hnd].
  rewrite elem_of_cons. destruct (String.eqb_spec k0 k) as [->|Hne].
  - split.
    + intros [[= ->]|Hin]; [done|].
      exfalso. apply Hfora. apply list_elem_of_fmap. by exists (k, g).
    + intros [= ->]. by left.
  - rewrite <- (IH Hnd). split; [|by right].
    intros [[= -> ->]|Hin]; [done|done].
Qed.

Lemma fold_left_criar_pessoa (self : AG.t) (d : Agrupados) :
  forall pessoas,
    fold_left (criar_pessoa self) d pessoas
    = pessoas ++ omap (pessoa_do_item (AG.destino self)) d.
Proof.
  induction d as [|item d IH]; intros pessoas; simpl.
  { by rewrite app_nil_r. }
  rewrite IH. unfold criar_pessoa, pessoa_do_item.
  destruct (negb (String.eqb item.1 (AG.destino self))); simpl; [|done].
  destruct (negb (vazia (g_ida item.2)) && negb (vazia (g_volta item.2)));
    [|done].
  by rewrite <- app_assoc.
Qed.

Lemma pessoa_do_item_cidade (destino : string) (item : string * Grupo)
    (p : Pessoa.t) :
  pessoa_do_item destino item = Some p -> Pessoa.origem_cidade p = item.1.
Proof.
  unfold pessoa_do_item. destruct (_ && _); [|done]. by intros [= <-].
Qed.

Lemma cidades_sem_repeticao (destino : string) (d : Agrupados) :
  NoDup d.*1 ->
  NoDup (Pessoa.origem_cidade <$> omap (pessoa_do_item destino) d).
Proof.
  induction d as [|item d IH]; simpl; intros Hnd; [constructor|].
  apply NoDup_cons in Hnd as [Hfora Hnd].
  destruct (pessoa_do_item destino item) as [p|] eqn:Ep; [|by apply IH].
  rewrite fmap_cons. apply NoDup_cons. split; [|by apply IH].
  intros Hin. apply Hfora.
  apply list_elem_of_fmap in Hin as (q & Eq & Hq).
  apply list_elem_of_omap in Hq as (item' & Hitem' & Eq').
  apply pessoa_do_item_cidade in Ep, Eq'.
  apply list_elem_of_fmap. exists item'. split; [congruence|done].
Qed.

Lemma citada_com_ida (destino k : string) (vs : list Voo.t) :
  idas_de destino k vs <> [] -> citada k vs = true.
Proof.
  intros H. destruct (citada k vs) eqn:E; [done|].
  by destruct (nao_citada destino k vs E) as [Ei _].
Qed.

Lemma criar_pessoas_carrega (self : AG.t) (arquivo : list Linha) :
  exists pessoas,
    criar_pessoas_from_arquivo self arquivo = Some pessoas /\
    pessoas_carregadas (AG.destino self) (voos_do_arquivo arquivo) pessoas.
Proof.
  unfold criar_pessoas_from_arquivo.
  destruct (carregar_voos_arquivo_agrupa self arquivo) as (d & -> & Hnd & Hd).
  eexists. split; [reflexivity|].
  rewrite fold_left_criar_pessoa, app_nil_l.
  remember (voos_do_arquivo arquivo) as vs eqn:Evs.
  remember (AG.destino self) as dest eqn:Edest.
  clear Evs Edest.
  split.
  { by apply cidades_sem_repeticao. }
  intros p. rewrite list_elem_of_omap. split.
  - intros ([k g] & Hin & Ep).
    apply (obter_elem_of d k g Hnd) in Hin. rewrite Hd in Hin.
    destruct (citada k vs); [|done]. injection Hin as <-.
    unfold pessoa_do_item in Ep.
    cbn [fst snd grupo_de g_ida g_volta] in Ep.
    destruct (String.eqb_spec k dest) as [|Hk]; [done|].
    destruct (idas_de dest k vs) as [|i0 ida] eqn:Ei; [done|].
    destruct (voltas_de dest k vs) as [|v0 volta] eqn:Ev; [done|].
    cbn [negb vazia andb] in Ep. injection Ep as <-.
    exists k. split.
    + split; [done|]. by rewrite Ei, Ev.
    + unfold pessoa_de. by rewrite Ei, Ev.
  - intros (k & (Hk & Hi & Hv) & ->).
    exists (k, grupo_de dest k vs). split.
    + apply (obter_elem_of d k _ Hnd). rewrite Hd.
      by rewrite (citada_com_ida dest k vs Hi).
    + unfold pessoa_do_item, pessoa_de.
      cbn [fst snd grupo_de g_ida g_volta].
      destruct (String.eqb_spec k dest) as [|_]; [done|].
      apply vazia_false in Hi, Hv. by rewrite Hi, Hv.
Qed.

Lemma carregadas_completas (destino : string) (vs : list Voo.t)
    (pessoas : list Pessoa.t) :
  pessoas_carregadas destino vs pessoas -> cardapios_completos pessoas.
Proof.
  intros [_ Hp] p Hin. apply Hp in Hin as (k & (_ & Hi & Hv) & ->).
  unfold cardapio_vazio, pessoa_de. simpl. by intros [?|?].
Qed.

(** X22.  Given the lines of an existing file,
    [criar_pessoas_from_arquivo] never raises and builds exactly one agent,
    named [Pessoa_<city>], for every city other than the meeting place that
    has at least one flight to the meeting place and at least one flight
    back; the agent's menus are those flights, in file order.  No two agents
    share a city, and no agent has an empty menu. *)
Theorem criar_pessoas_from_arquivo_correto (self : AG.t)
    (arquivo : list Linha) :
  exists pessoas,
    criar_pessoas_from_arquivo self arquivo = Some pessoas /\
    pessoas_carregadas (AG.destino self) (voos_do_arquivo arquivo) pessoas /\
    cardapios_completos pessoas.
Proof.
  destruct (criar_pessoas_carrega self arquivo) as (pessoas & E & H).
  exists pessoas. split; [done|]. split; [done|].
  by eapply carregadas_completas.
Qed.

(** X23.  An engine built on the agents that [criar_pessoas_from_arquivo]
    returns, when there is at least one of them, the population size is at
    least one and (for single-point and two-point crossover) there are at
    least two, never fails in [executar]: the run returns a solution that
    gives every agent one outbound and one return flight of its own
    menus. *)
Theorem executar_com_pessoas_carregadas (carregador_ag : AG.t)
    (arquivo : list Linha) (pessoas : list Pessoa.t)
    (n : nat) (tipo : string) (mut : bool) (s : Motor) :
  criar_pessoas_from_arquivo carregador_ag arquivo = Some pessoas ->
  AG.pessoas (self s) = pessoas ->
  pessoas <> [] ->
  1 <= AG.tamanho_populacao (self s) ->
  cruzamento_seguro tipo (length pessoas) ->
  devolve (executar n tipo mut) s (execucao_bem_sucedida s n).
Proof.
  intros E Hs Hne Ht Hc.
  destruct (criar_pessoas_carrega carregador_ag arquivo) as (ps & E' & H).
  rewrite E in E'. injection E' as <-.
  apply executar_completa. unfold execucao_segura. rewrite Hs.
  split; [done|]. split; [by eapply carregadas_completas|]. by split.
Qed.

Lemma executar_com_pessoas_carregadas_witness :
  exists pessoas,
    criar_pessoas_from_arquivo carregador arquivo_exemplo = Some pessoas /\
    devolve (executar 5 "ponto_unico" false)
      {| self := AG.novo pessoas "FCO" 4 (1 # 10) (1 # 2) 3 1 100 100;
         fonte := fonte_zero |}
      (execucao_bem_sucedida
         {| self := AG.novo pessoas "FCO" 4 (1 # 10) (1 # 2) 3 1 100 100;
            fonte := fonte_zero |} 5).
Proof.
  eexists. split; [vm_compute; reflexivity|].
  eapply (executar_com_pessoas_carregadas carregador arquivo_exemplo _ 5
            "ponto_unico" false).
  - vm_compute; reflexivity.
  - reflexivity.
  - discriminate.
  - simpl. lia.
  - left. simpl. lia.
Defined.

(** ** Repeated runs *)

Lemma uma_execucao_sem_pessoas (config : Config) (resultados : list Q)
    (r : Fonte) :
  uma_execucao [] config resultados r = (Ok resultados, r).
Proof. reflexivity. Qed.

Lemma execucoes_sem_pessoas (config : Config) (xs : list nat) :
  forall (resultados : list Q) (r : Fonte),
    para xs (fun _ => uma_execucao [] config) resultados r
    = (Ok resultados, r).
Proof.
  induction xs as [|x xs IH]; intros resultados r; [done|].
  simpl. unfold bind. rewrite uma_execucao_sem_pessoas. apply IH.
Qed.

(** X24.  [executar_e_coletar] returns minus infinity, without drawing,
    when it is given no agent or asked for no run. *)
Theorem executar_e_coletar_sem_resultado (pessoas : list Pessoa.t)
    (config : Config) (num_runs : nat) (r : Fonte) :
  pessoas = [] \/ num_runs = 0 ->
  executar_e_coletar pessoas config num_runs r = (Ok MenosInf, r).
Proof.
  intros [->| ->]; unfold executar_e_coletar, bind.
  - by rewrite execucoes_sem_pessoas.
  - done.
Qed.

Lemma executar_e_coletar_sem_resultado_witness :
  executar_e_coletar [] config_vazia 30 fonte_zero = (Ok MenosInf, fonte_zero).
Proof.
  apply (executar_e_coletar_sem_resultado [] config_vazia 30 fonte_zero).
  by left.
Defined.





